(** * pyRobBot: context retrieval, exchange store and token ledger

    A shallow embedding of [pyrobbot/tokens.py], [gpt_buddy_bot/tokens.py],
    [pyrobbot/embeddings_database.py], [pyrobbot/chat_context.py] and the
    search loop of [pyrobbot/internet_search.py], and the properties of the
    ledger, the exchange store, the selector, the context assembler and the
    search proved (or refuted) on it.

    Conventions of the embedding.
    - A Python [str] is the list of its code points ([pystr]); a TEXT cell
      of the SQLite file holds a [pystr].
    - A Python [dict] with string keys is the list of its items in
      insertion order, which is the order [json.dumps] writes them in.
    - SQLite INTEGER cells and Python [int]s are [Z]: integers that do not
      fit the 64 bits of a cell, which [sqlite3] refuses, are not part of
      the model.  REAL cells and Python [float]s that hold money are exact
      rationals ([Qc]): rounding of binary floating point is not part of
      the model.  What is proved of a cost is therefore stated with the
      products and the sums the code computes, and rests on no law of
      arithmetic that rounding breaks.
    - An embedding is a list of integers ([list Z]), where the provider
      returns floats: nothing is proved of the numbers in a vector of the
      provider.  Integer vectors serve to run the selector on concrete
      stores.
    - A table is the list of its rows in rowid (insertion) order.
    - The wall clock is an input: every function that reads
      [datetime.datetime.utcnow()] takes the reading as an argument.
    - A Python exception is a value of [exn].  A call that works on a
      file ends as [Ok s], with [s] the new state of the file, or as
      [Raise e s], with [s] the state the file is in when the exception
      leaves the call. *)

From Stdlib Require Import QArith Qcanon Ascii.
From stdpp Require Import prelude strings sorting gmap.

(** ** Python values *)

Module Py.

Definition pystr := list N.

(** An ASCII literal, written as a Rocq string. *)
Definition lit (s : string) : pystr :=
  (λ a, N_of_ascii a) <$> String.list_ascii_of_string s.

(** The same with every apostrophe read as a double quote, to write
    JSON texts down. *)
Definition jlit (s : string) : pystr :=
  (λ c, if (c =? 39)%N then 34%N else c) <$> lit s.

Inductive exn :=
| KeyError
| ValueError
| IntegrityError.

Inductive result (S : Type) :=
| Ok (s : S)
| Raise (e : exn) (s : S).
Global Arguments Ok {S} s.
Global Arguments Raise {S} e s.

(** The state of the file after the call. *)
Definition state_of {S} (r : result S) : S :=
  match r with
  | Ok s => s
  | Raise _ s => s
  end.

(** Statements run one after the other until one raises. *)
Definition and_then {S} (r : result S) (k : S → result S) : result S :=
  match r with
  | Ok s => k s
  | Raise e s => Raise e s
  end.

(** A [dict] as its items; [dict_get] is [d[k]] ([None] for the
    KeyError), [dict_set] is [d[k] = v], which keeps the place of a key
    that is already there. *)
Fixpoint dict_get {V} (d : list (pystr * V)) (k : pystr) : option V :=
  match d with
  | [] => None
  | (k', v) :: d' => if decide (k' = k) then Some v else dict_get d' k
  end.

Fixpoint dict_set {V} (d : list (pystr * V)) (k : pystr) (v : V)
  : list (pystr * V) :=
  match d with
  | [] => [(k, v)]
  | (k', v') :: d' =>
      if decide (k' = k) then (k, v) :: d' else (k', v') :: dict_set d' k v
  end.

(** [sep.join(parts)] *)
Fixpoint join {A} (sep : list A) (parts : list (list A)) : list A :=
  match parts with
  | [] => []
  | [p] => p
  | p :: ps => p ++ sep ++ join sep ps
  end.

(** A chat message, [{"role": ..., "name": ..., "content": ...}], and a
    message exchange, the list of messages of one turn. *)
Definition msg := list (pystr * pystr).
Definition exchange := list msg.

(** Python's [==] on dicts looks at the items and not at the order the
    keys were inserted in.  [msg_key m] is the dict as a finite map: two
    messages are equal in Python when they have the same key, and two
    exchanges when they hold equal messages in the same order. *)
Definition msg_key (m : msg) : gmap pystr pystr := list_to_map m.
Definition exchange_key (e : exchange) : list (gmap pystr pystr) :=
  msg_key <$> e.

(** A string of the basic plane has every character below U+10000; a
    message of the basic plane has such keys and values, and no key
    twice, as every dict. *)
Definition basic_plane (s : pystr) : Prop := Forall (λ c, (c < 65536)%N) s.

Definition basic_msg (m : msg) : Prop :=
  NoDup m.*1 ∧ Forall (λ kv, basic_plane kv.1 ∧ basic_plane kv.2) m.

End Py.
Import Py.

(** ** [json.dumps], on the values the exchange store writes

    [json.encoder.py_encode_basestring_ascii] (the default,
    [ensure_ascii=True]) and the default separators [", "] and [": "]. *)

Module Json.
Local Open Scope N_scope.

Definition hex_digit (n : N) : N := if n <? 10 then 48 + n else 87 + n.

(** ['\\u{0:04x}'.format(n)] for [n < 0x10000] *)
Definition u_escape (n : N) : pystr :=
  [92; 117;
   hex_digit (N.land (N.shiftr n 12) 15);
   hex_digit (N.land (N.shiftr n 8) 15);
   hex_digit (N.land (N.shiftr n 4) 15);
   hex_digit (N.land n 15)].

(** The replacement of one character: [ESCAPE_DCT] first, a printable
    ASCII character as it is, then the [\uXXXX] form, with a surrogate
    pair for a code point above the basic plane. *)
Definition encode_char (c : N) : pystr :=
  if c =? 92 then [92; 92]
  else if c =? 34 then [92; 34]
  else if c =? 8 then [92; 98]
  else if c =? 12 then [92; 102]
  else if c =? 10 then [92; 110]
  else if c =? 13 then [92; 114]
  else if c =? 9 then [92; 116]
  else if (32 <=? c) && (c <=? 126) then [c]
  else if c <? 65536 then u_escape c
  else
    let n := c - 65536 in
    let s1 := N.lor 55296 (N.land (N.shiftr n 10) 1023) in
    let s2 := N.lor 56320 (N.land n 1023) in
    u_escape s1 ++ u_escape s2.

Definition py_encode_basestring_ascii (s : pystr) : pystr :=
  [34] ++ mjoin (encode_char <$> s) ++ [34].

Definition dumps_item (kv : pystr * pystr) : pystr :=
  py_encode_basestring_ascii kv.1 ++ lit ": "
    ++ py_encode_basestring_ascii kv.2.

Definition dumps_msg (m : msg) : pystr :=
  [123] ++ join (lit ", ") (dumps_item <$> m) ++ [125].

Definition dumps_exchange (e : exchange) : pystr :=
  [91] ++ join (lit ", ") (dumps_msg <$> e) ++ [93].

Fixpoint uint_digits (u : Decimal.uint) : pystr :=
  match u with
  | Decimal.Nil => []
  | Decimal.D0 u => 48 :: uint_digits u
  | Decimal.D1 u => 49 :: uint_digits u
  | Decimal.D2 u => 50 :: uint_digits u
  | Decimal.D3 u => 51 :: uint_digits u
  | Decimal.D4 u => 52 :: uint_digits u
  | Decimal.D5 u => 53 :: uint_digits u
  | Decimal.D6 u => 54 :: uint_digits u
  | Decimal.D7 u => 55 :: uint_digits u
  | Decimal.D8 u => 56 :: uint_digits u
  | Decimal.D9 u => 57 :: uint_digits u
  end.

Definition dumps_int (z : Z) : pystr :=
  match z with
  | Zneg p => 45 :: uint_digits (Pos.to_uint p)
  | _ => uint_digits (N.to_uint (Z.to_N z))
  end.

(** An embedding is [None] (the full-history context) or a list of
    numbers; the numbers of the model are integers. *)
Definition dumps_embedding (e : option (list Z)) : pystr :=
  match e with
  | None => lit "null"
  | Some v => [91] ++ join (lit ", ") (dumps_int <$> v) ++ [93]
  end.

End Json.


(** ** [ast.literal_eval], on the texts the exchange store holds

    The reader parses the stored TEXT as a Python literal.  The model
    covers the literals [json.dumps] writes for an exchange (a list of
    dicts from strings to strings) and for an integer vector: brackets,
    braces, commas, colons, blanks, decimal integers with a sign, and
    string literals in single or double quotes with the escapes of a
    backslash, of either quote, of the letters a, b, f, n, r, t, v, and
    the forms xhh and uXXXX.  An escape uXXXX is one code point, whatever
    its value.  [None] stands for a text that raises or that lies outside
    this fragment. *)

Module Ast.
Local Open Scope N_scope.

Inductive token :=
| TLBrack | TRBrack | TLBrace | TRBrace | TColon | TComma | TMinus
| TStr (s : pystr)
| TInt (n : N).

(** The tokenizer reads one character at a time.  [acc] is the string
    read so far, last character first. *)
Inductive lex_mode :=
| LOut
| LStr (q : N) (acc : pystr)
| LEsc (q : N) (acc : pystr)
| LHex (q : N) (acc : pystr) (k : nat) (v : N)
| LNum (lead0 : bool) (v : N).

Definition hex_value (c : N) : option N :=
  if (48 <=? c) && (c <=? 57) then Some (c - 48)
  else if (97 <=? c) && (c <=? 102) then Some (c - 87)
  else if (65 <=? c) && (c <=? 70) then Some (c - 55)
  else None.

Definition is_digit (c : N) : bool := (48 <=? c) && (c <=? 57).

Definition is_blank (c : N) : bool :=
  (c =? 32) || (c =? 9) || (c =? 10) || (c =? 13) || (c =? 12).

Definition simple_escape (c : N) : option N :=
  if c =? 92 then Some 92
  else if c =? 39 then Some 39
  else if c =? 34 then Some 34
  else if c =? 97 then Some 7
  else if c =? 98 then Some 8
  else if c =? 102 then Some 12
  else if c =? 110 then Some 10
  else if c =? 114 then Some 13
  else if c =? 116 then Some 9
  else if c =? 118 then Some 11
  else None.

(** A character met between two tokens. *)
Definition lex_out (c : N) (out : list token)
  : option (lex_mode * list token) :=
  if is_blank c then Some (LOut, out)
  else if c =? 91 then Some (LOut, TLBrack :: out)
  else if c =? 93 then Some (LOut, TRBrack :: out)
  else if c =? 123 then Some (LOut, TLBrace :: out)
  else if c =? 125 then Some (LOut, TRBrace :: out)
  else if c =? 58 then Some (LOut, TColon :: out)
  else if c =? 44 then Some (LOut, TComma :: out)
  else if c =? 45 then Some (LOut, TMinus :: out)
  else if (c =? 34) || (c =? 39) then Some (LStr c [], out)
  else if is_digit c then Some (LNum (c =? 48) (c - 48), out)
  else None.

Definition lex_step (st : lex_mode * list token) (c : N)
  : option (lex_mode * list token) :=
  let '(m, out) := st in
  match m with
  | LOut => lex_out c out
  | LStr q acc =>
      if c =? q then Some (LOut, TStr (reverse acc) :: out)
      else if c =? 92 then Some (LEsc q acc, out)
      else if (c =? 10) || (c =? 13) then None
      else Some (LStr q (c :: acc), out)
  | LEsc q acc =>
      if c =? 117 then Some (LHex q acc 4 0, out)
      else if c =? 120 then Some (LHex q acc 2 0, out)
      else e ← simple_escape c; Some (LStr q (e :: acc), out)
  | LHex q acc k v =>
      h ← hex_value c;
      match k with
      | O => None
      | S O => Some (LStr q ((16 * v + h) :: acc), out)
      | S k' => Some (LHex q acc k' (16 * v + h), out)
      end
  | LNum lead0 v =>
      if is_digit c then
        if lead0 && negb (c =? 48) then None
        else Some (LNum lead0 (10 * v + (c - 48)), out)
      else lex_out c (TInt v :: out)
  end.

Fixpoint lex_run (st : lex_mode * list token) (s : pystr)
  : option (lex_mode * list token) :=
  match s with
  | [] => Some st
  | c :: s' => st' ← lex_step st c; lex_run st' s'
  end.

(** At the end of the text a number may still be open; a string may
    not. *)
Definition lex_end (st : lex_mode * list token) : option (list token) :=
  match st with
  | (LOut, out) => Some (reverse out)
  | (LNum _ v, out) => Some (reverse (TInt v :: out))
  | _ => None
  end.

Definition tokenize (s : pystr) : option (list token) :=
  st ← lex_run (LOut, []) s; lex_end st.

(** The parser of a list of dicts from strings to strings.  [closed] is
    the list of dicts already closed, last one first; [cur] is the dict
    being read. *)
Inductive parse_state :=
| PStart
| PList (closed : list msg) (comma : bool)
| PDict (closed : list msg) (cur : msg) (comma : bool)
| PKey (closed : list msg) (cur : msg) (k : pystr)
| PColon (closed : list msg) (cur : msg) (k : pystr)
| PValue (closed : list msg) (cur : msg)
| PClosed (closed : list msg)
| PEnd (closed : list msg).

Definition parse_step (st : parse_state) (t : token) : option parse_state :=
  match st, t with
  | PStart, TLBrack => Some (PList [] false)
  | PList closed _, TLBrace => Some (PDict closed [] false)
  | PList closed false, TRBrack => Some (PEnd closed)
  | PList closed true, TRBrack =>
      match closed with [] => None | _ => Some (PEnd closed) end
  | PDict closed cur _, TStr k => Some (PKey closed cur k)
  | PDict closed cur comma, TRBrace =>
      match cur, comma with
      | [], true => None
      | _, _ => Some (PClosed (cur :: closed))
      end
  | PKey closed cur k, TColon => Some (PColon closed cur k)
  | PColon closed cur k, TStr v => Some (PValue closed (dict_set cur k v))
  | PValue closed cur, TComma => Some (PDict closed cur true)
  | PValue closed cur, TRBrace => Some (PClosed (cur :: closed))
  | PClosed closed, TComma => Some (PList closed true)
  | PClosed closed, TRBrack => Some (PEnd closed)
  | _, _ => None
  end.

Fixpoint parse_run (st : parse_state) (ts : list token)
  : option parse_state :=
  match ts with
  | [] => Some st
  | t :: ts' => st' ← parse_step st t; parse_run st' ts'
  end.

Definition parse_end (st : parse_state) : option exchange :=
  match st with
  | PEnd closed => Some (reverse closed)
  | _ => None
  end.

(** [ast.literal_eval(text)] for the text of an exchange *)
Definition literal_eval (s : pystr) : option exchange :=
  ts ← tokenize s; st ← parse_run PStart ts; parse_end st.

(** The tokens of the text [json.dumps] writes for an exchange. *)
Definition tokens_of_item (kv : pystr * pystr) : list token :=
  [TStr kv.1; TColon; TStr kv.2].

Definition tokens_of_msg (m : msg) : list token :=
  [TLBrace] ++ join [TComma] (tokens_of_item <$> m) ++ [TRBrace].

Definition tokens_of_exchange (e : exchange) : list token :=
  [TLBrack] ++ join [TComma] (tokens_of_msg <$> e) ++ [TRBrack].

(** The parser of a list of integers, [[3, -4, 0]]. *)
Inductive vec_state :=
| VStart
| VOpen (closed : list Z) (comma : bool)
| VMinus (closed : list Z)
| VNum (closed : list Z)
| VEnd (closed : list Z).

Definition vec_step (st : vec_state) (t : token) : option vec_state :=
  match st, t with
  | VStart, TLBrack => Some (VOpen [] false)
  | VOpen closed _, TInt n => Some (VNum (Z.of_N n :: closed))
  | VOpen closed _, TMinus => Some (VMinus closed)
  | VOpen closed false, TRBrack => Some (VEnd closed)
  | VOpen closed true, TRBrack =>
      match closed with [] => None | _ => Some (VEnd closed) end
  | VMinus closed, TInt n => Some (VNum ((- Z.of_N n)%Z :: closed))
  | VNum closed, TComma => Some (VOpen closed true)
  | VNum closed, TRBrack => Some (VEnd closed)
  | _, _ => None
  end.

Fixpoint vec_run (st : vec_state) (ts : list token) : option vec_state :=
  match ts with
  | [] => Some st
  | t :: ts' => st' ← vec_step st t; vec_run st' ts'
  end.

Definition vec_end (st : vec_state) : option (list Z) :=
  match st with
  | VEnd closed => Some (reverse closed)
  | _ => None
  end.

(** [ast.literal_eval(text)] for the text of an integer vector *)
Definition literal_eval_vector (s : pystr) : option (list Z) :=
  ts ← tokenize s; st ← vec_run VStart ts; vec_end st.

End Ast.

(** ** Sorting by a column

    [DataFrame.sort_values] and SQL's [ORDER BY] both sort rows by a key.
    The model is the insertion sort that keeps rows with equal keys in the
    order they had, which is what numpy's quicksort does on short arrays;
    neither pandas nor SQL promises an order among equal keys, and the
    proofs below use no more than that the result is the input, permuted
    and in order. *)

Section StableSort.
Context {A : Type} (leb : A → A → bool).

Fixpoint insert_sorted (x : A) (l : list A) : list A :=
  match l with
  | [] => [x]
  | y :: l' => if leb x y then x :: y :: l' else y :: insert_sorted x l'
  end.

Definition stable_sort (l : list A) : list A := foldr insert_sorted [] l.
End StableSort.

(** The sum of a column of integers, and the sum of a column of costs,
    which SQL's [SUM] and Python's [sum] add up from the first value on. *)
Definition Zsum (l : list Z) : Z := foldr Z.add 0%Z l.
Definition Qcsum (l : list Qc) : Qc := foldl Qcplus (Q2Qc 0) l.

(** ** pandas, as far as the program uses it

    A frame or a series is the list of its rows, each with its index
    label.  [read_sql_query] labels the rows [0, 1, 2, ...]. *)

Module Pandas.

Inductive label :=
| Pos (i : nat)
| Name (s : pystr).

Global Instance label_eq_dec : EqDecision label.
Proof. solve_decision. Defined.

Definition read_sql_query {A} (rows : list A) : list (label * A) :=
  imap (λ i r, (Pos i, r)) rows.

(** [df.sort_values(col)] and [df.sort_values(col, ascending=False)],
    with [leb] the order of the column's values *)
Definition sort_values {A K} (leb : K → K → bool) (col : A → K)
    (ascending : bool) (df : list (label * A)) : list (label * A) :=
  if ascending
  then stable_sort (λ r1 r2, leb (col r1.2) (col r2.2)) df
  else stable_sort (λ r1 r2, leb (col r2.2) (col r1.2)) df.

(** [df.head(n)] is [df.iloc[:n]]: the first [n] rows, or all but the
    last [-n] when [n] is negative. *)
Definition head {A} (n : Z) (df : list A) : list A :=
  if (0 <=? n)%Z then take (Z.to_nat n) df
  else take (length df - Z.to_nat (- n)) df.

(** [df.tail(n)] is empty for [n = 0] and [df.iloc[-n:]] otherwise: the
    last [n] rows, or all but the first [-n] when [n] is negative. *)
Definition tail {A} (n : Z) (df : list A) : list A :=
  if (n =? 0)%Z then []
  else if (0 <? n)%Z then drop (length df - Z.to_nat n) df
  else drop (Z.to_nat (- n)) df.

(** [series.drop_duplicates()] keeps the first row of every value.  Two
    values are the same when Python's [==] says so, which is when they
    have the same [key]; [seen] holds the keys already kept. *)
Fixpoint drop_duplicates_from {V K} `{EqDecision K} (key : V → K)
    (seen : list K) (s : list (label * V)) : list (label * V) :=
  match s with
  | [] => []
  | (i, v) :: s' =>
      if decide (key v ∈ seen) then drop_duplicates_from key seen s'
      else (i, v) :: drop_duplicates_from key (key v :: seen) s'
  end.

Definition drop_duplicates {V K} `{EqDecision K} (key : V → K)
    (s : list (label * V)) : list (label * V) :=
  drop_duplicates_from key [] s.

(** [series.tolist()] *)
Definition tolist {V} (s : list (label * V)) : list V := snd <$> s.

(** A cell of a frame that went through [fillna]: [Blank] is the filler
    written where the frame had no value. *)
Inductive cell (A : Type) :=
| Blank
| Val (a : A).
Global Arguments Blank {A}.
Global Arguments Val {A} a.

End Pandas.

(** ** The ledger: [pyrobbot/tokens.py] *)

Module Tokens.
Import Pandas.

Record price := Price { input : Qc; output : Qc }.

Definition PRICE_PER_K_TOKENS : list (pystr * price) :=
  [ (lit "gpt-3.5-turbo", Price (Q2Qc (15 # 10000)) (Q2Qc (2 # 1000)));
    (lit "gpt-3.5-turbo-16k", Price (Q2Qc (1 # 1000)) (Q2Qc (2 # 1000)));
    (lit "gpt-3.5-turbo-1106", Price (Q2Qc (1 # 1000)) (Q2Qc (2 # 1000)));
    (lit "gpt-4-1106-preview", Price (Q2Qc (3 # 100)) (Q2Qc (6 # 100)));
    (lit "gpt-4", Price (Q2Qc (3 # 100)) (Q2Qc (6 # 100)));
    (lit "text-embedding-ada-002", Price (Q2Qc (1 # 10000)) (Q2Qc 0));
    (lit "full-history", Price (Q2Qc 0) (Q2Qc 0)) ].

(** [self.token_price], built by [__init__]: the price of one token *)
Definition token_price : list (pystr * price) :=
  (λ mp, (mp.1, Price (input mp.2 / Q2Qc 1000)%Qc
                      (output mp.2 / Q2Qc 1000)%Qc))
    <$> PRICE_PER_K_TOKENS.

(** A row of the table [token_costs]. *)
Record row := Row {
  timestamp : Z;
  model : pystr;
  n_input_tokens : Z;
  n_output_tokens : Z;
  cost_input_tokens : Qc;
  cost_output_tokens : Qc
}.

Definition of_int (n : Z) : Qc := Q2Qc (inject_Z n).

(** [insert_data(model, n_input_tokens, n_output_tokens)] at clock
    reading [now].  The tuple of values is built before the statement
    runs, so the KeyError of an unknown model leaves the table as it
    was. *)
Definition insert_data (now : Z) (db : list row) (model : option pystr)
    (n_input_tokens n_output_tokens : Z) : result (list row) :=
  match model with
  | None => Ok db
  | Some m =>
      match dict_get token_price m with
      | None => Raise KeyError db
      | Some p =>
          Ok (db ++ [Row now m n_input_tokens n_output_tokens
                       (of_int n_input_tokens * input p)%Qc
                       (of_int n_output_tokens * output p)%Qc])
      end
  end.

(** A row of the query of [get_usage_balance_dataframe]. *)
Record usage := Usage {
  Model : pystr;
  First_Used : Z;
  Tokens_In : Z;
  Tokens_Out : Z;
  Tokens_Tot : Z;
  Cost_In : Qc;
  Cost_Out : Qc;
  Cost_Tot : Qc
}.

(** The values of [model], each once, in the order they first show. *)
Fixpoint distinct (seen : list pystr) (l : list pystr) : list pystr :=
  match l with
  | [] => []
  | m :: l' =>
      if decide (m ∈ seen) then distinct seen l'
      else m :: distinct (m :: seen) l'
  end.

Definition group (db : list row) (m : pystr) : list row :=
  filter (λ r, model r = m) db.

(** The aggregates of one group; a group is never empty. *)
Definition aggregate (m : pystr) (g : list row) : option usage :=
  match g with
  | [] => None
  | r :: g' =>
      Some (Usage m
        (foldr Z.min (timestamp r) (timestamp <$> g'))
        (Zsum (n_input_tokens <$> g))
        (Zsum (n_output_tokens <$> g))
        (Zsum ((λ r, n_input_tokens r + n_output_tokens r)%Z <$> g))
        (Qcsum (cost_input_tokens <$> g))
        (Qcsum (cost_output_tokens <$> g))
        (Qcsum ((λ r, cost_input_tokens r + cost_output_tokens r)%Qc <$> g)))
  end.

(** [SELECT ... FROM token_costs GROUP BY model ORDER BY "Tokens: Tot."
    DESC] *)
Definition query (db : list row) : list usage :=
  stable_sort (λ u1 u2, (Tokens_Tot u2 <=? Tokens_Tot u1)%Z)
    (omap (λ m, aggregate m (group db m)) (distinct [] (model <$> db))).

(** A row of the returned frame. *)
Record report := Report {
  r_Model : cell pystr;
  r_First_Used : cell Z;
  r_Tokens_In : cell Z;
  r_Tokens_Out : cell Z;
  r_Tokens_Tot : cell Z;
  r_Cost_In : cell Qc;
  r_Cost_Out : cell Qc;
  r_Cost_Tot : cell Qc
}.

Definition report_of (u : usage) : report :=
  Report (Val (Model u)) (Val (First_Used u)) (Val (Tokens_In u))
    (Val (Tokens_Out u)) (Val (Tokens_Tot u)) (Val (Cost_In u))
    (Val (Cost_Out u)) (Val (Cost_Tot u)).

(** The sum of one numeric column as it stands in the row of totals.
    A query without rows comes back from [read_sql_query] with columns of
    no numeric type; then nothing is summed and the cell is blank. *)
Definition column_total {B} (sum : list B → B) (col : list B) : cell B :=
  match col with
  | [] => Blank
  | _ => Val (sum col)
  end.

(** [accounting_df.sum(numeric_only=True)]: the sums of the six numeric
    columns; the two other columns have no sum. *)
Definition sums (df : list (label * usage)) : report :=
  Report Blank Blank
    (column_total Zsum (Tokens_In ∘ snd <$> df))
    (column_total Zsum (Tokens_Out ∘ snd <$> df))
    (column_total Zsum (Tokens_Tot ∘ snd <$> df))
    (column_total Qcsum (Cost_In ∘ snd <$> df))
    (column_total Qcsum (Cost_Out ∘ snd <$> df))
    (column_total Qcsum (Cost_Tot ∘ snd <$> df)).

(** [_add_totals_row]: the sums, renamed [Total], go below the frame;
    [fillna] blanks the cells the sums do not cover. *)
Definition _add_totals_row (df : list (label * usage))
  : list (label * report) :=
  (prod_map id report_of <$> df) ++ [(Name (lit "Total"), sums df)].

(** [_group_columns_by_prefix] splits the column names at the colon into
    two-level names; the rows are not touched. *)
Definition _group_columns_by_prefix (df : list (label * report))
  : list (label * report) := df.

Definition get_usage_balance_dataframe (db : list row)
  : list (label * report) :=
  _group_columns_by_prefix (_add_totals_row (read_sql_query (query db))).

End Tokens.

(** ** The ledger of the earlier package: [gpt_buddy_bot/tokens.py]

    The prices are those of [pyrobbot].  The table has [timestamp REAL
    PRIMARY KEY] and the statement is [INSERT OR REPLACE]: a row whose
    timestamp is already in the table takes the place of the old one. *)

Module GptBuddyBot.

Definition token_price := Tokens.token_price.

Record row := Row {
  timestamp : Qc;
  model : pystr;
  n_input_tokens : Z;
  n_output_tokens : Z;
  cost_input_tokens : Qc;
  cost_output_tokens : Qc
}.

(** [INSERT OR REPLACE INTO token_costs ... VALUES ...] *)
Definition insert_or_replace (db : list row) (r : row) : list row :=
  filter (λ r', timestamp r' ≠ timestamp r) db ++ [r].

Definition insert_data (now : Qc) (db : list row) (model : option pystr)
    (n_input_tokens n_output_tokens : Z) : result (list row) :=
  match model with
  | None => Ok db
  | Some m =>
      match dict_get token_price m with
      | None => Raise KeyError db
      | Some p =>
          Ok (insert_or_replace db
                (Row now m n_input_tokens n_output_tokens
                   (Tokens.of_int n_input_tokens * Tokens.input p)%Qc
                   (Tokens.of_int n_output_tokens * Tokens.output p)%Qc))
      end
  end.

End GptBuddyBot.

(** ** The exchange store: [pyrobbot/embeddings_database.py] *)

Module EmbeddingsDatabase.
Import Pandas.

(** A row of the table [embedding_model] and a row of [messages]. *)
Record pin := Pin {
  created_timestamp : Z;
  pin_model : pystr
}.

Record message := Message {
  timestamp : Z;
  chat_model : pystr;
  message_exchange : pystr;
  embedding : pystr
}.

Inductive table := T_embedding_model | T_messages.
Inductive event := INSERT | UPDATE | DELETE.

Global Instance table_eq_dec : EqDecision table.
Proof. solve_decision. Defined.
Global Instance event_eq_dec : EqDecision event.
Proof. solve_decision. Defined.

(** A trigger [CREATE TRIGGER name BEFORE event ON table BEGIN SELECT
    RAISE(FAIL, ...); END]. *)
Record trigger := Trigger {
  trigger_name : pystr;
  trigger_event : event;
  trigger_table : table
}.

(** The file: its triggers and the rows of its two tables. *)
Record database := Database {
  triggers : list trigger;
  embedding_model : list pin;
  messages : list message
}.

(** ** The storage boundary

    The statements that write rows, which SQLite can be asked to run on
    the two tables.  A [BEFORE] trigger fires for each row the statement is
    about to touch, before the row is touched; [RAISE(FAIL)] then ends the
    statement with an error, which [sqlite3] reports as an
    [IntegrityError].

    [INSERT OR REPLACE] is an INSERT: it fires the INSERT triggers and no
    other.  A stored row that stands in the way of the new one, by the key
    of the pin table or by its rowid, is removed without any trigger, and
    the new row is written.  [ReplaceMessage i r] names the rowid of the
    stored row at position [i], counted from 0, or a rowid past the last
    one when there is no such row.  Statements on the schema (DROP, ALTER)
    are not modelled. *)
Inductive statement :=
| InsertPin (p : pin)
| InsertMessage (r : message)
| UpdatePins (set : pin → pin) (where_ : pin → bool)
| UpdateMessages (set : message → message) (where_ : message → bool)
| DeletePins (where_ : pin → bool)
| DeleteMessages (where_ : message → bool)
| ReplacePin (p : pin)
| ReplaceMessage (i : nat) (r : message).

Definition fires (db : database) (ev : event) (t : table) : bool :=
  existsb (λ g, bool_decide (trigger_event g = ev)
                && bool_decide (trigger_table g = t)) (triggers db).

Definition update_rows {A} (set : A → A) (where_ : A → bool)
    (rows : list A) : list A :=
  (λ r, if where_ r then set r else r) <$> rows.

Definition delete_rows {A} (where_ : A → bool) (rows : list A) : list A :=
  filter (λ r, where_ r = false) rows.

Definition execute (db : database) (s : statement) : result database :=
  match s with
  | InsertPin p =>
      if fires db INSERT T_embedding_model then Raise IntegrityError db
      else if decide (pin_model p ∈ pin_model <$> embedding_model db)
      then Raise IntegrityError db
      else Ok (Database (triggers db) (embedding_model db ++ [p])
                 (messages db))
  | InsertMessage r =>
      if fires db INSERT T_messages then Raise IntegrityError db
      else Ok (Database (triggers db) (embedding_model db)
                 (messages db ++ [r]))
  | UpdatePins set where_ =>
      if existsb where_ (embedding_model db)
         && fires db UPDATE T_embedding_model
      then Raise IntegrityError db
      else
        let rows := update_rows set where_ (embedding_model db) in
        if decide (NoDup (pin_model <$> rows))
        then Ok (Database (triggers db) rows (messages db))
        else Raise IntegrityError db
  | UpdateMessages set where_ =>
      if existsb where_ (messages db) && fires db UPDATE T_messages
      then Raise IntegrityError db
      else Ok (Database (triggers db) (embedding_model db)
                 (update_rows set where_ (messages db)))
  | DeletePins where_ =>
      if existsb where_ (embedding_model db)
         && fires db DELETE T_embedding_model
      then Raise IntegrityError db
      else Ok (Database (triggers db)
                 (delete_rows where_ (embedding_model db)) (messages db))
  | DeleteMessages where_ =>
      if existsb where_ (messages db) && fires db DELETE T_messages
      then Raise IntegrityError db
      else Ok (Database (triggers db) (embedding_model db)
                 (delete_rows where_ (messages db)))
  | ReplacePin p =>
      if fires db INSERT T_embedding_model then Raise IntegrityError db
      else Ok (Database (triggers db)
                 (filter (λ q, pin_model q ≠ pin_model p) (embedding_model db)
                  ++ [p])
                 (messages db))
  | ReplaceMessage i r =>
      if fires db INSERT T_messages then Raise IntegrityError db
      else Ok (Database (triggers db) (embedding_model db)
                 (if decide (i < length (messages db))
                  then <[i := r]> (messages db)
                  else messages db ++ [r]))
  end.

(** ** The class *)

Definition prevent_embedding_model_modification : trigger :=
  Trigger (lit "prevent_embedding_model_modification")
    UPDATE T_embedding_model.

Definition prevent_messages_modification : trigger :=
  Trigger (lit "prevent_messages_modification") UPDATE T_messages.

(** [CREATE TRIGGER IF NOT EXISTS] *)
Definition create_trigger (g : trigger) (gs : list trigger)
  : list trigger :=
  if decide (trigger_name g ∈ trigger_name <$> gs) then gs else gs ++ [g].

(** [create()]: the two tables (empty when the file is new) and the two
    triggers. *)
Definition create (db : database) : database :=
  Database
    (create_trigger prevent_messages_modification
       (create_trigger prevent_embedding_model_modification (triggers db)))
    (embedding_model db) (messages db).

(** A file that does not exist yet, and the store opened on it. *)
Definition no_file : database := Database [] [] [].
Definition new_store : database := create no_file.

(** [get_embedding_model()]: the first row of the pin table, if any *)
Definition get_embedding_model (db : database) : option pystr :=
  match embedding_model db with
  | [] => None
  | p :: _ => Some (pin_model p)
  end.

(** [_init_database()] at clock reading [create_time] *)
Definition _init_database (self_embedding_model : pystr) (create_time : Z)
    (db : database) : result database :=
  execute db (InsertPin (Pin create_time self_embedding_model)).

(** [insert_message_exchange(chat_model, message_exchange, embedding)]
    on the store configured with [self_embedding_model]; the clock is
    read at [create_time] when the pin is written and at [now] for the
    row. *)
Definition insert_message_exchange (self_embedding_model : pystr)
    (create_time now : Z) (db : database) (chat_model : pystr)
    (message_exchange : exchange) (embedding : option (list Z))
  : result database :=
  and_then
    match get_embedding_model db with
    | None => _init_database self_embedding_model create_time db
    | Some stored =>
        if decide (stored ≠ self_embedding_model)
        then Raise ValueError db
        else Ok db
    end
    (λ db1,
       execute db1
         (InsertMessage
            (Message now chat_model (Json.dumps_exchange message_exchange)
               (Json.dumps_embedding embedding)))).

(** [get_messages_dataframe()]: [SELECT * FROM messages] as a frame *)
Definition get_messages_dataframe (db : database)
  : list (label * message) :=
  read_sql_query (messages db).

End EmbeddingsDatabase.

(** ** Chat context: [pyrobbot/chat_context.py] *)

Module ChatContext.
Import Pandas EmbeddingsDatabase.

Definition sys_directives : pystr :=
  lit "Considering the previous messages, answer the next message:".

Definition _make_list_of_context_msgs (history : list msg)
    (system_name : pystr) : list msg :=
  let sys_msg := [ (lit "role", lit "system");
                   (lit "name", system_name);
                   (lit "content", sys_directives) ] in
  history ++ [sys_msg].

(** [load_history()]: every stored exchange, parsed and chained.  [None]
    when a stored text does not parse. *)
Definition load_history (db : database) : option (list msg) :=
  msg_exchanges ←
    mapM (λ r, Ast.literal_eval (message_exchange r.2))
      (get_messages_dataframe db);
  Some (concat msg_exchanges).

Section Selector.
(** The vector of the new message is a [Query]; a similarity is a
    [Score].  [similarity x embedding] stands for
    [cosine_similarity(np.array(ast.literal_eval(x)), embedding)], a
    computation of numpy and openai on floating-point numbers; [None]
    when it raises.  [score_leb] is the order of scores. *)
Context {Query Score : Type}.
Context (similarity : pystr → Query → option Score).
Context (score_leb : Score → Score → bool).

(** A row of [history_df] with its new column [similarity]. *)
Record scored := Scored {
  row : message;
  row_similarity : Score
}.

Definition add_similarity (history_df : list (label * message))
    (embedding : Query) : option (list (label * scored)) :=
  mapM (λ r, x ← similarity (EmbeddingsDatabase.embedding r.2) embedding;
             Some (r.1, Scored r.2 x)) history_df.

Definition df_last_n_chats (history_df : list (label * scored))
    (max_n_tailing_prompt_reply_pairs : Z) : list (label * scored) :=
  tail max_n_tailing_prompt_reply_pairs history_df.

Definition df_similar_chats (history_df : list (label * scored))
    (max_n_prompt_reply_pairs : Z) : list (label * scored) :=
  sort_values Z.leb (timestamp ∘ row) true
    (head max_n_prompt_reply_pairs
       (sort_values score_leb row_similarity false history_df)).

Definition df_context (history_df : list (label * scored))
    (max_n_prompt_reply_pairs max_n_tailing_prompt_reply_pairs : Z)
  : list (label * scored) :=
  df_similar_chats history_df max_n_prompt_reply_pairs
    ++ df_last_n_chats history_df max_n_tailing_prompt_reply_pairs.

(** [df["message_exchange"].apply(ast.literal_eval)], one row at a
    time: the row keeps its label. *)
Definition parse_row (r : label * scored) : option (label * exchange) :=
  e ← Ast.literal_eval (message_exchange (row r.2)); Some (r.1, e).

Definition parsed (df : list (label * scored))
  : option (list (label * exchange)) :=
  mapM parse_row df.

(** [selected_history], before [tolist()] *)
Definition selected_series (history_df : list (label * scored))
    (max_n_prompt_reply_pairs max_n_tailing_prompt_reply_pairs : Z)
  : option (list (label * exchange)) :=
  s ← parsed (df_context history_df max_n_prompt_reply_pairs
                max_n_tailing_prompt_reply_pairs);
  Some (drop_duplicates exchange_key s).

Definition _select_relevant_history (history_df : list (label * message))
    (embedding : Query)
    (max_n_prompt_reply_pairs max_n_tailing_prompt_reply_pairs : Z)
  : option (list msg) :=
  df ← add_similarity history_df embedding;
  s ← selected_series df max_n_prompt_reply_pairs
        max_n_tailing_prompt_reply_pairs;
  Some (concat (tolist s)).

(** The two kinds of context.  [request_embedding_for_text] is the
    call to the embedding provider; its answer for the text of the new
    message is the argument [embedding]. *)
Inductive context :=
| FullHistoryChatContext
| EmbeddingBasedChatContext.

Definition select_relevant_history (self : context) (db : database)
    (embedding : Query) : option (list msg) :=
  match self with
  | FullHistoryChatContext => load_history db
  | EmbeddingBasedChatContext =>
      _select_relevant_history (get_messages_dataframe db) embedding 5 2
  end.

Definition get_context (self : context) (db : database)
    (embedding : Query) (system_name : pystr) : option (list msg) :=
  history ← select_relevant_history self db embedding;
  Some (_make_list_of_context_msgs history system_name).

End Selector.

End ChatContext.

(** ** Cosine similarity on integer vectors

    The cosine of [openai.embeddings_utils],
    [np.dot(a, b) / (np.linalg.norm(a) * np.linalg.norm(b))], on vectors
    of integers whose norms are integers too: there the quotient is a
    rational number and is computed exactly.  It serves to run the
    selector on concrete stores. *)

Module Exact.

Definition dot (a b : list Z) : Z := Zsum (zip_with Z.mul a b).

Definition norm (a : list Z) : option Z :=
  let n := Z.sqrt (dot a a) in
  if decide (n * n = dot a a)%Z then Some n else None.

Definition cosine_similarity (a b : list Z) : option Qc :=
  if decide (length a = length b) then
    na ← norm a; nb ← norm b;
    if decide (na * nb = 0)%Z then None
    else Some (Tokens.of_int (dot a b) / Tokens.of_int (na * nb))%Qc
  else None.

Definition similarity (x : pystr) (embedding : list Z) : option Qc :=
  v ← Ast.literal_eval_vector x; cosine_similarity v embedding.

Definition score_leb (x y : Qc) : bool := Qle_bool x y.

End Exact.

(** ** Storage order and time order of a series *)

Module Chronology.
Import Pandas EmbeddingsDatabase.

(** Labels [0, 1, 2, ...] in their order. *)
Definition label_lt (a b : label) : Prop :=
  match a, b with
  | Pos i, Pos j => i < j
  | _, _ => False
  end.

Global Instance label_lt_dec a b : Decision (label_lt a b).
Proof. destruct a, b; simpl; apply _. Defined.



End Chronology.

(** ** Runs: sequences of calls on one file *)

Module Runs.
Import EmbeddingsDatabase.

(** The calls [record(model, n_in, n_out)] of a session, each with the
    clock reading it sees. *)
Record record_call := RecordCall {
  rc_now : Z;
  rc_model : pystr;
  rc_input : Z;
  rc_output : Z
}.

Fixpoint record_all (db : list Tokens.row) (calls : list record_call)
  : result (list Tokens.row) :=
  match calls with
  | [] => Ok db
  | c :: cs =>
      and_then
        (Tokens.insert_data (rc_now c) db (Some (rc_model c))
           (rc_input c) (rc_output c))
        (λ db', record_all db' cs)
  end.

(** The costs [insert_data] writes for a call, and the row it adds. *)
Definition cost_input (c : record_call) : Qc :=
  match dict_get Tokens.token_price (rc_model c) with
  | Some p => (Tokens.of_int (rc_input c) * Tokens.input p)%Qc
  | None => Q2Qc 0
  end.

Definition cost_output (c : record_call) : Qc :=
  match dict_get Tokens.token_price (rc_model c) with
  | Some p => (Tokens.of_int (rc_output c) * Tokens.output p)%Qc
  | None => Q2Qc 0
  end.

Definition recorded (c : record_call) : Tokens.row :=
  Tokens.Row (rc_now c) (rc_model c) (rc_input c) (rc_output c)
    (cost_input c) (cost_output c).

(** The calls made for one model. *)
Definition calls_of (m : pystr) (calls : list record_call)
  : list record_call :=
  filter (λ c, rc_model c = m) calls.

(** What a numeric column of the usage frame should hold, for the models
    [ms] in the order of their rows: for each model the sum of the values
    recorded for it, call by call, and below them, in the row of totals, the
    sum of these sums. *)
Definition model_sums {B} (sum : list B → B) (val : record_call → B)
    (calls : list record_call) (ms : list pystr) : list B :=
  (λ m, sum (val <$> calls_of m calls)) <$> ms.

Definition summed_column {B} (sum : list B → B) (val : record_call → B)
    (calls : list record_call) (ms : list pystr) : list (Pandas.cell B) :=
  (Pandas.Val <$> model_sums sum val calls ms)
  ++ [Pandas.Val (sum (model_sums sum val calls ms))].

(** The arguments of one [insert_message_exchange], with the two clock
    readings. *)
Record insert_call := InsertCall {
  ic_create_time : Z;
  ic_now : Z;
  ic_chat_model : pystr;
  ic_exchange : exchange;
  ic_embedding : option (list Z)
}.

Definition insert_call_on (self_embedding_model : pystr) (db : database)
    (c : insert_call) : result database :=
  insert_message_exchange self_embedding_model (ic_create_time c)
    (ic_now c) db (ic_chat_model c) (ic_exchange c) (ic_embedding c).

Fixpoint insert_all (self_embedding_model : pystr) (db : database)
    (calls : list insert_call) : result database :=
  match calls with
  | [] => Ok db
  | c :: cs =>
      and_then (insert_call_on self_embedding_model db c)
        (λ db', insert_all self_embedding_model db' cs)
  end.

(** What a client can do to an open store: open it once more, insert
    through the class, or hand a statement to SQLite. *)
Inductive action :=
| Create
| Insert (self_embedding_model : pystr) (c : insert_call)
| Execute (s : statement).

Definition step (db : database) (a : action) : database :=
  match a with
  | Create => create db
  | Insert m c => state_of (insert_call_on m db c)
  | Execute s => state_of (execute db s)
  end.

Definition run (db : database) (actions : list action) : database :=
  foldl step db actions.


(** The row an insert writes. *)
Definition message_of (c : insert_call) : message :=
  Message (ic_now c) (ic_chat_model c) (Json.dumps_exchange (ic_exchange c))
    (Json.dumps_embedding (ic_embedding c)).

(** A store the class has opened on a new file has the triggers of
    [create] and no other. *)
Definition opened (db : database) : Prop :=
  triggers db = triggers new_store.

End Runs.

(** ** Concrete stores *)

Module Scenario.
Import EmbeddingsDatabase Runs.

Definition ada : pystr := lit "text-embedding-ada-002".
Definition gpt4 : pystr := lit "gpt-4".

Definition turn (q a : string) : exchange :=
  [ [(lit "role", lit "user"); (lit "content", lit q)];
    [(lit "role", lit "assistant"); (lit "content", lit a)] ].

Definition at_ (t : Z) (e : exchange) (v : list Z) : insert_call :=
  InsertCall t t gpt4 e (Some v).

(** Six exchanges, one every ten seconds.  Against the query [[1, 0]]
    their cosines are -1, 0, 3/5, 4/5, 12/13 and 1: the oldest exchange
    is the least similar one. *)
Definition oldest_least_similar : list insert_call :=
  [ at_ 10 (turn "q0" "a0") [-1; 0]%Z;
    at_ 20 (turn "q1" "a1") [0; 1]%Z;
    at_ 30 (turn "q2" "a2") [3; 4]%Z;
    at_ 40 (turn "q3" "a3") [4; 3]%Z;
    at_ 50 (turn "q4" "a4") [12; 5]%Z;
    at_ 60 (turn "q5" "a5") [1; 0]%Z ].

(** Six exchanges whose cosines against [[1, 0]] are 4/5, 0, 3/5,
    12/13, -1 and 1: the last exchange is the most similar one and the
    one before it the least similar one. *)
Definition last_but_one_least_similar : list insert_call :=
  [ at_ 10 (turn "q0" "a0") [4; 3]%Z;
    at_ 20 (turn "q1" "a1") [0; 1]%Z;
    at_ 30 (turn "q2" "a2") [3; 4]%Z;
    at_ 40 (turn "q3" "a3") [12; 5]%Z;
    at_ 50 (turn "q4" "a4") [-1; 0]%Z;
    at_ 60 (turn "q5" "a5") [1; 0]%Z ].

Definition store_of (calls : list insert_call) : database :=
  state_of (insert_all ada new_store calls).

Definition query : list Z := [1; 0]%Z.

(** The ledger scenario: 100 and 50 tokens of gpt-4, then 10 and 5. *)
Definition two_calls : list record_call :=
  [ RecordCall 1700000000 gpt4 100 50;
    RecordCall 1700000060 gpt4 10 5 ].

(** The selector of the embedding-based context, run with the exact
    cosine on the query [[1, 0]]. *)
Definition strategy_B (db : database) : option (list msg) :=
  ChatContext.select_relevant_history Exact.similarity Exact.score_leb
    ChatContext.EmbeddingBasedChatContext db query.

(** A store that holds one exchange. *)
Definition one_exchange : database :=
  store_of [at_ 10 (turn "hello" "hi") [1; 0]%Z].

(** One exchange whose user message is the character U+1F600. *)
Definition grin : exchange :=
  [ [(lit "role", lit "user"); (lit "content", [128512%N])];
    [(lit "role", lit "assistant"); (lit "content", lit "hi")] ].

End Scenario.

(** ** Loops that may raise *)

Module Loops.

(** [for x in l: s = f(s, x)], where [f] may raise ([None]). *)
Fixpoint for_each {S A} (f : S → A → option S) (s : S) (l : list A)
  : option S :=
  match l with
  | [] => Some s
  | x :: l' => s' ← f s x; for_each f s' l'
  end.

End Loops.

(** ** Counting tokens: [get_n_tokens_from_msgs] of [pyrobbot/tokens.py] *)

Module TokenCount.
Import Loops.

Section Tiktoken.
(** The library [tiktoken]: [encoding_for_model] raises KeyError for a
    model it does not know ([None]); [cl100k_base] is
    [tiktoken.get_encoding("cl100k_base")]; [encode] gives the tokens of
    a text, or raises ([None]). *)
Context {Encoding : Type}.
Context (encoding_for_model : pystr → option Encoding).
Context (cl100k_base : Encoding).
Context (encode : Encoding → pystr → option (list N)).

(** The body of the inner loop, for one item of a message. *)
Definition count_item (encoding : Encoding) (num_tokens : Z)
    (kv : pystr * pystr) : option Z :=
  tokens ← encode encoding kv.2;
  let num_tokens := (num_tokens + Z.of_nat (length tokens))%Z in
  Some (if decide (kv.1 = lit "name") then (num_tokens + -1)%Z
        else num_tokens).

(** The body of the outer loop, for one message. *)
Definition count_message (encoding : Encoding) (num_tokens : Z)
    (message : msg) : option Z :=
  for_each (count_item encoding) (num_tokens + 4)%Z message.

Definition get_n_tokens_from_msgs (messages : list msg) (model : pystr)
  : option Z :=
  let encoding :=
    match encoding_for_model model with
    | Some encoding => encoding
    | None => cl100k_base
    end in
  num_tokens ← for_each (count_message encoding) 0%Z messages;
  Some (num_tokens + 2)%Z.

End Tiktoken.
End TokenCount.

(** ** Runs of the ledger of [gpt_buddy_bot] *)

Module GptBuddyBotRuns.
Import GptBuddyBot.

(** A call [insert_data(model, n_input_tokens, n_output_tokens)] with
    the clock reading it sees. *)
Record record_call := RecordCall {
  rc_now : Qc;
  rc_model : pystr;
  rc_input : Z;
  rc_output : Z
}.

Fixpoint record_all (db : list row) (calls : list record_call)
  : result (list row) :=
  match calls with
  | [] => Ok db
  | c :: cs =>
      and_then
        (insert_data (rc_now c) db (Some (rc_model c))
           (rc_input c) (rc_output c))
        (λ db', record_all db' cs)
  end.

(** The row a call writes. *)
Definition recorded (c : record_call) : row :=
  match dict_get token_price (rc_model c) with
  | Some p =>
      Row (rc_now c) (rc_model c) (rc_input c) (rc_output c)
        (Tokens.of_int (rc_input c) * Tokens.input p)%Qc
        (Tokens.of_int (rc_output c) * Tokens.output p)%Qc
  | None =>
      Row (rc_now c) (rc_model c) (rc_input c) (rc_output c)
        (Q2Qc 0) (Q2Qc 0)
  end.

(** The calls after which no other call reads the same clock value. *)
Fixpoint last_per_clock (calls : list record_call) : list record_call :=
  match calls with
  | [] => []
  | c :: cs =>
      if decide (rc_now c ∈ rc_now <$> cs) then last_per_clock cs
      else c :: last_per_clock cs
  end.

End GptBuddyBotRuns.

(** ** Computations that return or raise *)

Module Raising.

Inductive outcome (A : Type) :=
| Return (a : A)
| Throw (e : exn).
Global Arguments Return {A} a.
Global Arguments Throw {A} e.

Global Instance outcome_ret : MRet outcome := @Return.
Global Instance outcome_bind : MBind outcome := λ A B k c,
  match c with
  | Return a => k a
  | Throw e => Throw e
  end.

(** [d[k]] *)
Definition getitem {V} (d : list (pystr * V)) (k : pystr) : outcome V :=
  match dict_get d k with
  | Some v => Return v
  | None => Throw KeyError
  end.

(** [[f(x) for x in l]] *)
Fixpoint for_list {A B} (f : A → outcome B) (l : list A)
  : outcome (list B) :=
  match l with
  | [] => Return []
  | x :: l' => y ← f x; ys ← for_list f l'; Return (y :: ys)
  end.

End Raising.

(** ** The report of the current chat: [gpt_buddy_bot/tokens.py] *)

Module GptBuddyBotReport.
Import Pandas Raising.

(** [price[k]] for one of the dicts of [self.token_price], which have
    the keys [input] and [output]. *)
Definition price_item (p : Tokens.price) (k : pystr) : outcome Qc :=
  if decide (k = lit "input") then Return (Tokens.input p)
  else if decide (k = lit "output") then Return (Tokens.output p)
  else Throw KeyError.

(** [{k: v * self.token_price[model][k] for k, v in
    token_usage.items()}] *)
Definition costs_of (model : pystr) (token_usage : list (pystr * Z))
  : outcome (list (pystr * Qc)) :=
  for_list
    (λ kv, price ← getitem GptBuddyBot.token_price model;
           x ← price_item price kv.1;
           Return (kv.1, (Tokens.of_int kv.2 * x)%Qc))
    token_usage.

(** A row of the frame; the model is the index. *)
Record chat_usage := ChatUsage {
  Tokens_Input : Z;
  Tokens_Output : Z;
  Tokens_Total : Z;
  Cost_Input : Qc;
  Cost_Output : Qc;
  Cost_Total : Qc
}.

Definition df_row (model : pystr) (token_usage : list (pystr * Z))
  : outcome (pystr * chat_usage) :=
  costs ← costs_of model token_usage;
  tokens_input ← getitem token_usage (lit "input");
  tokens_output ← getitem token_usage (lit "output");
  cost_input ← getitem costs (lit "input");
  cost_output ← getitem costs (lit "output");
  Return (model,
          ChatUsage tokens_input tokens_output (Zsum token_usage.*2)
            cost_input cost_output (Qcsum costs.*2)).

(** The loop over [token_usage_per_model.items()]; a key may be
    [None]. *)
Fixpoint df_rows
    (token_usage_per_model : list (option pystr * list (pystr * Z)))
  : outcome (list (pystr * chat_usage)) :=
  match token_usage_per_model with
  | [] => Return []
  | (None, _) :: rest => df_rows rest
  | (Some model, token_usage) :: rest =>
      r ← df_row model token_usage;
      rs ← df_rows rest;
      Return (r :: rs)
  end.

(** [df.set_index("Model")] *)
Definition set_index (rows : list (pystr * chat_usage))
  : list (label * chat_usage) :=
  prod_map Name id <$> rows.

(** [df.sum(numeric_only=True)]: all six columns are numeric. *)
Definition sums (df : list (label * chat_usage)) : chat_usage :=
  ChatUsage (Zsum (Tokens_Input ∘ snd <$> df))
    (Zsum (Tokens_Output ∘ snd <$> df))
    (Zsum (Tokens_Total ∘ snd <$> df))
    (Qcsum (Cost_Input ∘ snd <$> df))
    (Qcsum (Cost_Output ∘ snd <$> df))
    (Qcsum (Cost_Total ∘ snd <$> df)).

(** [df.loc[i] = a]: the rows labelled [i] are overwritten; when there
    is none, the row goes below the frame. *)
Definition loc_set {A} (i : label) (a : A) (df : list (label * A))
  : list (label * A) :=
  if decide (i ∈ df.*1)
  then (λ r, if decide (r.1 = i) then (i, a) else r) <$> df
  else df ++ [(i, a)].

Definition _add_totals_row (accounting_df : list (label * chat_usage))
  : list (label * chat_usage) :=
  loc_set (Name (lit "Total")) (sums accounting_df) accounting_df.

Definition _group_columns_by_prefix (df : list (label * chat_usage))
  : list (label * chat_usage) := df.

Definition get_current_chat_usage_dataframe
    (token_usage_per_model : list (option pystr * list (pystr * Z)))
  : outcome (list (label * chat_usage)) :=
  rows ← df_rows token_usage_per_model;
  Return
    match rows with
    | [] => []
    | _ => _add_totals_row (_group_columns_by_prefix (set_index rows))
    end.




End GptBuddyBotReport.

(** ** Sessions: the calls of the class on one file *)

Module Sessions.
Import EmbeddingsDatabase Runs.

(** An action of the class itself, as opposed to a statement handed to
    SQLite. *)
Definition class_call (a : action) : bool :=
  match a with
  | Execute _ => false
  | _ => true
  end.

(** The inserts of a session, each with the model its store object is
    configured with. *)
Definition inserts (actions : list action) : list (pystr * insert_call) :=
  omap (λ a, match a with
             | Insert m c => Some (m, c)
             | _ => None
             end) actions.

(** The inserts made under the model [A]. *)
Definition inserts_under (A : pystr) (actions : list action)
  : list insert_call :=
  (filter (λ x, x.1 = A) (inserts actions)).*2.

End Sessions.

(** ** Python strings: [strip] and [split] *)

Module Str.

(** [str.isspace], for one character (Python 3.11). *)
Definition isspace (c : N) : bool :=
  bool_decide
    (c ∈ [9; 10; 11; 12; 13; 28; 29; 30; 31; 32; 133; 160; 5760;
          8192; 8193; 8194; 8195; 8196; 8197; 8198; 8199; 8200; 8201;
          8202; 8232; 8233; 8239; 8287; 12288]%N).

Fixpoint lstrip (s : pystr) : pystr :=
  match s with
  | [] => []
  | c :: s' => if isspace c then lstrip s' else s
  end.

Definition rstrip (s : pystr) : pystr := reverse (lstrip (reverse s)).

(** [s.strip()] *)
Definition strip (s : pystr) : pystr := rstrip (lstrip s).

(** [s.split()]: the words of [s], which runs of whitespace separate.
    [cur] is the word being read, last character first. *)
Fixpoint split_from (cur : pystr) (s : pystr) : list pystr :=
  match s with
  | [] => match cur with [] => [] | _ => [reverse cur] end
  | c :: s' =>
      if isspace c then
        match cur with
        | [] => split_from [] s'
        | _ => reverse cur :: split_from [] s'
        end
      else split_from (c :: cur) s'
  end.

Definition split (s : pystr) : list pystr := split_from [] s.

End Str.

(** ** The calls of a chat on its context: [pyrobbot/chat_context.py]

    [add_to_history], [request_embedding] and the full
    [select_relevant_history], which ask the embedding provider and write
    to the two ledgers of the chat. *)

Module ChatCalls.
Import EmbeddingsDatabase ChatContext Str.

(** What the context reads from its parent chat. *)
Record parent_chat := ParentChat {
  model : pystr;
  context_model : pystr;
  system_name : pystr
}.

(** The files of a chat: the two ledgers and the exchange store. *)
Record files := Files {
  general_token_usage_db : list Tokens.row;
  token_usage_db : list Tokens.row;
  database : EmbeddingsDatabase.database
}.

(** A call returns a value and leaves the files in a state, or raises
    and leaves the files in a state. *)
Inductive returned (A : Type) :=
| Returns (a : A) (fs : files)
| Raises (e : exn) (fs : files).
Global Arguments Returns {A} a fs.
Global Arguments Raises {A} e fs.

Definition files_of {A} (r : returned A) : files :=
  match r with
  | Returns _ fs => fs
  | Raises _ fs => fs
  end.

(** The answer of [openai.Embedding.create]: the embedding of the one
    input and the usage. *)
Record answer := Answer {
  data_0_embedding : list Z;
  usage_prompt_tokens : Z;
  usage_total_tokens : Z
}.

(** The value [request_embedding_from_openai] returns: the embedding
    and the dict [tokens_usage], whose keys are [input] and [output], in
    this order. *)
Record usage_dict := UsageDict {
  usage_input : Z;
  usage_output : Z
}.

Record embedding_request := EmbeddingRequest {
  request_embedding_ : list Z;
  tokens_usage : usage_dict
}.

Section Provider.
(** [Embedding_create text model] is the answer of the provider to
    [openai.Embedding.create(input=[text], model=model)]. *)
Context (Embedding_create : pystr → pystr → answer).

Definition request_embedding_from_openai (text model : pystr)
  : embedding_request :=
  let text := strip text in
  let embedding_request := Embedding_create text model in
  let embedding := data_0_embedding embedding_request in
  let input_tokens := usage_prompt_tokens embedding_request in
  let output_tokens :=
    (usage_total_tokens embedding_request - input_tokens)%Z in
  EmbeddingRequest embedding (UsageDict input_tokens output_tokens).

(** The inner loop of [request_embedding_for_text] on one ledger, over
    the items of [tokens_usage]: the ledger is called with
    [n_input_tokens] alone and then with [n_output_tokens] alone, the other
    count being 0 by default.  The two calls read the clock at [now] and at
    [now']. *)
Definition insert_usage (now now' : Z) (db : list Tokens.row)
    (model : pystr) (tokens_usage : usage_dict) : result (list Tokens.row) :=
  and_then
    (Tokens.insert_data now db (Some model) (usage_input tokens_usage) 0)
    (λ db', Tokens.insert_data now' db' (Some model) 0
              (usage_output tokens_usage)).

(** [request_embedding_for_text(text)]; [clock k] is the reading of the
    k-th call of [insert_data]. *)
Definition request_embedding_for_text (self : parent_chat)
    (clock : nat → Z) (fs : files) (text : pystr) : returned (list Z) :=
  let embedding_request :=
    request_embedding_from_openai text (context_model self) in
  match insert_usage (clock 0) (clock 1) (general_token_usage_db fs)
          (context_model self) (tokens_usage embedding_request) with
  | Raise e general =>
      Raises e (Files general (token_usage_db fs) (database fs))
  | Ok general =>
      match insert_usage (clock 2) (clock 3) (token_usage_db fs)
              (context_model self) (tokens_usage embedding_request) with
      | Raise e chat => Raises e (Files general chat (database fs))
      | Ok chat =>
          Returns (request_embedding_ embedding_request)
            (Files general chat (database fs))
      end
  end.

(** [f"{msg['role'].strip()}: {msg['content'].strip()}"]; [None] is the
    KeyError of a message without the key. *)
Definition line_of (msg : Py.msg) : option pystr :=
  role ← dict_get msg (lit "role");
  content ← dict_get msg (lit "content");
  Some (strip role ++ lit ": " ++ strip content).

(** [request_embedding(msg_list)] of the two kinds of context *)
Definition request_embedding (kind : context) (self : parent_chat)
    (clock : nat → Z) (fs : files) (msg_list : list Py.msg)
  : returned (option (list Z)) :=
  match kind with
  | FullHistoryChatContext => Returns None fs
  | EmbeddingBasedChatContext =>
      match mapM line_of msg_list with
      | None => Raises KeyError fs
      | Some lines =>
          match request_embedding_for_text self clock fs
                  (join [10%N] lines) with
          | Returns v fs' => Returns (Some v) fs'
          | Raises e fs' => Raises e fs'
          end
      end
  end.

(** [add_to_history(msg_list)]: the embedding is asked for first; the
    store object is configured with the context model of the chat.  The
    insert reads the clock at [create_time] (when it writes the pin) and at
    [now]. *)
Definition add_to_history (kind : context) (self : parent_chat)
    (clock : nat → Z) (create_time now : Z) (fs : files)
    (msg_list : list Py.msg) : returned unit :=
  match request_embedding kind self clock fs msg_list with
  | Raises e fs' => Raises e fs'
  | Returns embedding fs' =>
      match insert_message_exchange (context_model self) create_time now
              (database fs') (model self) msg_list embedding with
      | Ok db =>
          Returns ()
            (Files (general_token_usage_db fs') (token_usage_db fs') db)
      | Raise e db =>
          Raises e
            (Files (general_token_usage_db fs') (token_usage_db fs') db)
      end
  end.

Section Similarity.
Context {Score : Type}.
Context (similarity : pystr → list Z → option Score).
Context (score_leb : Score → Score → bool).

(** [select_relevant_history(msg)] of the two kinds of context: the
    frame is read, then the embedding of [msg["content"]] is asked for.
    The value is [None] when the selection raises. *)
Definition select_relevant_history (kind : context) (self : parent_chat)
    (clock : nat → Z) (fs : files) (msg : Py.msg)
  : returned (option (list Py.msg)) :=
  match kind with
  | FullHistoryChatContext => Returns (load_history (database fs)) fs
  | EmbeddingBasedChatContext =>
      let history_df := get_messages_dataframe (database fs) in
      match dict_get msg (lit "content") with
      | None => Raises KeyError fs
      | Some text =>
          match request_embedding_for_text self clock fs text with
          | Raises e fs' => Raises e fs'
          | Returns embedding fs' =>
              Returns
                (_select_relevant_history similarity score_leb history_df
                   embedding 5 2) fs'
          end
      end
  end.

(** [get_context(msg)] *)
Definition get_context (kind : context) (self : parent_chat)
    (clock : nat → Z) (fs : files) (msg : Py.msg)
  : returned (option (list Py.msg)) :=
  match select_relevant_history kind self clock fs msg with
  | Raises e fs' => Raises e fs'
  | Returns history fs' =>
      Returns
        ((λ history,
            _make_list_of_context_msgs history (system_name self))
           <$> history) fs'
  end.

End Similarity.
End Provider.

(** The two rows an embedding request adds to a ledger. *)
Definition usage_rows (now now' : Z) (model : pystr) (p : Tokens.price)
    (a : answer) : list Tokens.row :=
  [ Tokens.Row now model (usage_prompt_tokens a) 0
      (Tokens.of_int (usage_prompt_tokens a) * Tokens.input p)%Qc
      (Tokens.of_int 0 * Tokens.output p)%Qc;
    Tokens.Row now' model 0
      (usage_total_tokens a - usage_prompt_tokens a)
      (Tokens.of_int 0 * Tokens.input p)%Qc
      (Tokens.of_int (usage_total_tokens a - usage_prompt_tokens a)
       * Tokens.output p)%Qc ].

End ChatCalls.

(** ** Searching the web: [pyrobbot/internet_search.py] *)

Module InternetSearch.
Import Str.

Section Library.
(** What the libraries give: [is_word c] says whether the regular
    expression [\w] matches the character [c]; [lower] is [str.lower];
    [unidecode] is the function of that name. *)
Context (is_word : N → bool).
Context (lower : pystr → pystr).
Context (unidecode : pystr → pystr).

(** [\b] matches between two characters, or between a character and an
    end of the string ([None]), when one of the two is a word character
    and the other is not. *)
Definition word_char (c : option N) : bool :=
  match c with
  | Some c => is_word c
  | None => false
  end.

Definition boundary (before after : option N) : bool :=
  xorb (word_char before) (word_char after).

(** Whether the pattern matches at the start of [s], the character
    before being [prev]: a boundary, the substring itself (escaped, so
    matched as it is), a boundary. *)
Definition matches_here (prev : option N) (s my_substring : list N)
  : bool :=
  boundary prev (s !! 0)
  && bool_decide (take (length my_substring) s = my_substring)
  && boundary
       match last my_substring with
       | Some c => Some c
       | None => prev
       end
       (s !! length my_substring).

(** [pattern.search]: the first position, from the left, where the
    pattern matches; [i] is the position of the start of [s]. *)
Fixpoint search (prev : option N) (s my_substring : pystr) (i : Z) : Z :=
  if matches_here prev s my_substring then i
  else
    match s with
    | [] => -1
    | c :: s' => search (Some c) s' my_substring (i + 1)
    end.

Definition find_whole_word_index (my_string my_substring : pystr) : Z :=
  search None my_string my_substring 0.

(** A result of [raw_websearch] and a result of [websearch]; the key
    [detailed] is in the first and may lack in the second. *)
Context {Relevance : Type} (relevance_leb : Relevance → Relevance → bool).

Record raw_result := RawResult {
  href : pystr;
  summary : pystr;
  detailed : pystr;
  relevance : Relevance
}.

Record result := Result {
  result_href : pystr;
  result_summary : pystr;
  result_detailed : option pystr;
  result_relevance : Relevance
}.

(** [sorted(raw_results, key=lambda x: x["relevance"], reverse=True)];
    the sort is stable. *)
Definition sorted (raw_results : list raw_result) : list raw_result :=
  stable_sort (λ a b, relevance_leb (relevance b) (relevance a)) raw_results.

(** The loop over the words of the query; [None] is [np.inf]. *)
Definition index_first_query_word_to_appear (query html : pystr)
  : option Z :=
  foldl
    (λ (first : option Z) (word : pystr),
       if (length word <? 4)%nat then first
       else
         let index := find_whole_word_index (lower html) (lower word) in
         if (-1 <? index)%Z
            && match first with
               | Some i => (index <? i)%Z
               | None => true
               end
         then Some index
         else first)
    None (split (unidecode query)).

(** The body of the first loop, as far as [selected_words]. *)
Definition selected_words (query : pystr) (r : raw_result) : list pystr :=
  let html := detailed r in
  let html :=
    match index_first_query_word_to_appear query html with
    | Some i => if (-1 <? i)%Z then drop (Z.to_nat i) html else html
    | None => html
    end in
  take 500 (split html).

Definition summary_only (r : raw_result) : result :=
  Result (href r) (summary r) None (relevance r).

(** The two loops, which share the iterator [raw_results]: the first
    one reads results until it has yielded one, the second one reads what
    is left. *)
Fixpoint yield_from (query : pystr) (raw_results : list raw_result)
  : list result :=
  match raw_results with
  | [] => []
  | r :: rest =>
      let words := selected_words query r in
      if (length words <? 40)%nat then yield_from query rest
      else
        Result (href r) (summary r) (Some (join [32%N] words)) (relevance r)
        :: (summary_only <$> rest)
  end.

(** [list(websearch(query))], given [list(raw_websearch(query))] *)
Definition websearch (query : pystr) (raw_results : list raw_result)
  : list result :=
  yield_from query (sorted raw_results).


(** The character before the position [j] of [s]. *)
Definition char_before (s : list N) (j : nat) : option N :=
  match j with
  | O => None
  | S j' => s !! j'
  end.

(** The substring stands at the position [j] of [s] as a whole word:
    it is there, and there is a boundary on either side of it. *)
Definition whole_word_at (s my_substring : list N) (j : nat) : Prop :=
  j ≤ length s
  ∧ take (length my_substring) (drop j s) = my_substring
  ∧ boundary (char_before s j) (s !! j) = true
  ∧ boundary (char_before s (j + length my_substring))
      (s !! (j + length my_substring)) = true.

End Library.

(** The libraries on ASCII text. *)
Definition ascii_is_word (c : N) : bool :=
  ((48 <=? c) && (c <=? 57) || (65 <=? c) && (c <=? 90)
   || (97 <=? c) && (c <=? 122) || (c =? 95))%N.

Definition ascii_lower (s : pystr) : pystr :=
  (λ c, if ((65 <=? c) && (c <=? 90))%N then (c + 32)%N else c) <$> s.

End InternetSearch.

(** ** Concrete chats, usages and sessions *)

Module Examples.
Import EmbeddingsDatabase Runs Scenario.

(** An encoding that makes one token of every character. *)
Definition per_character (_ : unit) (s : pystr) : option (list N) := Some s.
Definition no_model (_ : pystr) : option unit := None.

Definition hello : list msg :=
  [ [(lit "role", lit "user"); (lit "name", lit "Ada");
     (lit "content", lit "hello")] ].

(** Three calls of the ledger of [gpt_buddy_bot]; the first two read the
    same clock value. *)
Definition same_clock : list GptBuddyBotRuns.record_call :=
  [ GptBuddyBotRuns.RecordCall (Q2Qc 1700000000) gpt4 100 50;
    GptBuddyBotRuns.RecordCall (Q2Qc 1700000000) gpt4 10 5;
    GptBuddyBotRuns.RecordCall (Q2Qc 1700000001) ada 7 0 ].


Definition chat_usage_unpriced : list (option pystr * list (pystr * Z)) :=
  [ (Some (lit "gpt-5"), [(lit "input", 100%Z); (lit "output", 50%Z)]) ].

(** A session of three store objects on one file: two configured with
    [ada], one with another model. *)
Definition mixed_session : list action :=
  [ Create;
    Insert ada (at_ 10 (turn "q0" "a0") [1; 0]%Z);
    Create;
    Insert (lit "other-model") (at_ 20 (turn "q1" "a1") [0; 1]%Z);
    Insert ada (at_ 30 (turn "q2" "a2") [3; 4]%Z) ].

(** A chat with gpt-4 whose context is embedding-based, one whose
    context model has no price, and one whose context is the full
    history. *)
Definition rob : ChatCalls.parent_chat :=
  ChatCalls.ParentChat gpt4 ada (lit "Rob").

Definition unpriced : ChatCalls.parent_chat :=
  ChatCalls.ParentChat gpt4 (lit "my-embedder") (lit "Rob").

Definition full : ChatCalls.parent_chat :=
  ChatCalls.ParentChat gpt4 (lit "full-history") (lit "Rob").

(** A provider that answers every request with the vector [[3, 4]] and
    a usage of 7 tokens, all of the prompt. *)
Definition provider (_ _ : pystr) : ChatCalls.answer :=
  ChatCalls.Answer [3; 4]%Z 7 7.

Definition clock (k : nat) : Z := (1700000000 + Z.of_nat k)%Z.

Definition new_files : ChatCalls.files := ChatCalls.Files [] [] new_store.

(** The store after the full-history chat has added one exchange. *)
Definition full_history_store : database :=
  state_of (insert_message_exchange (lit "full-history") 10 10 new_store
              gpt4 (turn "hello" "hi") None).

(** Two pages found for the query [rocq prover]: a short one that ranks
    first, and one of 45 words. *)
Definition short_page : @InternetSearch.raw_result Z :=
  InternetSearch.RawResult (lit "https://a.example") (lit "about rocq")
    (lit "the rocq prover") 9%Z.

Definition long_page : @InternetSearch.raw_result Z :=
  InternetSearch.RawResult (lit "https://b.example") (lit "more about rocq")
    (mjoin (replicate 45 (lit "Prover text "))) 5%Z.

End Examples.

#[local] Set Warnings "-clear-no-such-hyp".
Import Pandas Chronology.

(** Facts about concrete stores are settled by running the embedding. *)
Ltac evaluated := vm_compute; reflexivity.
Ltac decided := apply (bool_decide_unpack _); vm_compute; reflexivity.
Ltac refuted H :=
  apply (bool_decide_eq_true_2 _) in H; vm_compute in H; discriminate.

(** * The ledger *)

Section Ledger.
Import Tokens.

Lemma dict_get_None {V} (d : list (pystr * V)) k :
  dict_get d k = None ↔ k ∉ d.*1.
Proof.
  induction d as [|[k' v] d IH]; simpl.
  - split; [intros _; apply not_elem_of_nil | done].
  - rewrite not_elem_of_cons. destruct (decide (k' = k)) as [->|Hne].
    + split; [done | intros [? _]; done].
    + rewrite IH. split; [|intros [_ ?]; done].
      intros ?. split; [congruence|done].
Qed.

Lemma dict_get_Some_elem {V} (d : list (pystr * V)) k :
  k ∈ d.*1 → is_Some (dict_get d k).
Proof.
  intros Hin. destruct (dict_get d k) eqn:E; [eauto|].
  by apply dict_get_None in E.
Qed.

Lemma token_price_keys : token_price.*1 = PRICE_PER_K_TOKENS.*1.
Proof. reflexivity. Qed.

(** C8.  A call of [insert_data] with a model name that is not in the rate
    table raises KeyError, and the table is what it was before the call. *)
Theorem insert_data_unknown_model now db m n_in n_out :
  m ∉ PRICE_PER_K_TOKENS.*1 →
  insert_data now db (Some m) n_in n_out = Raise KeyError db
  ∧ state_of (insert_data now db (Some m) n_in n_out) = db.
Proof.
  intros Hm. rewrite <- token_price_keys in Hm.
  apply dict_get_None in Hm. unfold insert_data. rewrite Hm. done.
Qed.

Lemma insert_data_unknown_model_witness :
  (lit "gpt-5" ∉ PRICE_PER_K_TOKENS.*1)
  ∧ insert_data 1700000000 [] (Some (lit "gpt-5")) 100 50 = Raise KeyError [].
Proof.
  assert (H : lit "gpt-5" ∉ PRICE_PER_K_TOKENS.*1).
  { decided. }
  split; [exact H|].
  exact (proj1 (insert_data_unknown_model 1700000000 [] (lit "gpt-5")
                  100 50 H)).
Defined.

(** The pyrobbot ledger appends: a call with a model of the rate table
    adds one row at the end and leaves the rows before it alone. *)
Lemma insert_data_appends now db m n_in n_out :
  m ∈ PRICE_PER_K_TOKENS.*1 →
  ∃ r, insert_data now db (Some m) n_in n_out = Ok (db ++ [r])
       ∧ timestamp r = now ∧ model r = m
       ∧ n_input_tokens r = n_in ∧ n_output_tokens r = n_out.
Proof.
  intros Hm. rewrite <- token_price_keys in Hm.
  destruct (dict_get_Some_elem _ _ Hm) as [p Hp].
  unfold insert_data. rewrite Hp. eexists. split; [reflexivity|done].
Qed.

End Ledger.

(** C7.  In the ledger of [gpt_buddy_bot], two calls that read the same
    clock value leave one row: the row of the second call takes the place of
    the row of the first. *)
Theorem gpt_buddy_bot_insert_data_replaces :
  let t := Q2Qc 1700000000 in
  let db1 :=
    state_of (GptBuddyBot.insert_data t [] (Some (lit "gpt-4")) 100 50) in
  let db2 :=
    state_of (GptBuddyBot.insert_data t db1 (Some (lit "gpt-4")) 10 5) in
  length db1 = 1 ∧ length db2 = 1
  ∧ GptBuddyBot.n_input_tokens <$> db1 = [100%Z]
  ∧ GptBuddyBot.n_input_tokens <$> db2 = [10%Z].
Proof. vm_compute. done. Qed.

(** The same two calls on the ledger of [pyrobbot] leave two rows. *)
Example pyrobbot_insert_data_appends :
  let db1 :=
    state_of (Tokens.insert_data 1700000000 [] (Some (lit "gpt-4")) 100 50) in
  let db2 :=
    state_of (Tokens.insert_data 1700000000 db1 (Some (lit "gpt-4")) 10 5) in
  Tokens.n_input_tokens <$> db2 = [100%Z; 10%Z].
Proof. vm_compute. done. Qed.

(** * The exchange store *)

Section Store.
Import EmbeddingsDatabase Runs.

Lemma opened_fires db ev t :
  opened db →
  fires db ev t = bool_decide (ev = UPDATE).
Proof.
  unfold opened, fires. intros ->. by destruct ev, t.
Qed.


Lemma insert_message_opened db r :
  opened db →
  execute db (InsertMessage r)
  = Ok (Database (triggers db) (embedding_model db) (messages db ++ [r])).
Proof. intros Ho. simpl. by rewrite (opened_fires _ _ _ Ho). Qed.

Lemma insert_pin_opened db p :
  opened db → embedding_model db = [] →
  execute db (InsertPin p) = Ok (Database (triggers db) [p] (messages db)).
Proof.
  intros Ho He. unfold execute. rewrite (opened_fires _ _ _ Ho), He.
  simpl bool_decide. cbv iota.
  destruct (decide _) as [Hin|]; [by apply elem_of_nil in Hin|done].
Qed.

(** An insert into a store whose pin is the configured model. *)
Lemma insert_pinned A db c :
  opened db → get_embedding_model db = Some A →
  insert_call_on A db c
  = Ok (Database (triggers db) (embedding_model db)
          (messages db ++ [message_of c])).
Proof.
  intros Ho Hg. unfold insert_call_on, insert_message_exchange.
  rewrite Hg. rewrite decide_False by (intros ?; done). simpl.
  by rewrite (opened_fires _ _ _ Ho).
Qed.

(** The first insert into a store without a pin. *)
Lemma insert_unpinned A db c :
  opened db → embedding_model db = [] →
  insert_call_on A db c
  = Ok (Database (triggers db) [Pin (ic_create_time c) A]
          (messages db ++ [message_of c])).
Proof.
  intros Ho He. unfold insert_call_on, insert_message_exchange, _init_database.
  unfold get_embedding_model. rewrite He.
  rewrite (insert_pin_opened _ _ Ho He). simpl.
  by rewrite (opened_fires (Database _ _ _) INSERT T_messages Ho).
Qed.

Lemma insert_all_pinned A cs : ∀ db,
  opened db → get_embedding_model db = Some A →
  insert_all A db cs
  = Ok (Database (triggers db) (embedding_model db)
          (messages db ++ (message_of <$> cs))).
Proof.
  induction cs as [|c cs IH]; intros db Ho Hg; simpl.
  - rewrite app_nil_r. by destruct db.
  - rewrite (insert_pinned _ _ _ Ho Hg). simpl.
    rewrite IH by done. simpl. by rewrite <- app_assoc.
Qed.

(** C4.  (1) With a pin A in the store and a configured model B other than A,
    [insert_message_exchange] raises ValueError and the file is what it was:
    no record is appended.  (2) With the configured model equal to the pin,
    an insert succeeds, appends its record and leaves the pin table alone.
    (3) Consecutive inserts under one model A into a new store all succeed;
    the pin table then holds one row, written by the first insert, and
    [get_embedding_model] returns A. *)
Theorem insert_message_exchange_pin :
  (∀ A B create_time now db chat_model message_exchange embedding,
     get_embedding_model db = Some A → A ≠ B →
     insert_message_exchange B create_time now db chat_model
       message_exchange embedding = Raise ValueError db)
  ∧ (∀ A db c,
       opened db → get_embedding_model db = Some A →
       ∃ db', insert_call_on A db c = Ok db'
              ∧ embedding_model db' = embedding_model db
              ∧ get_embedding_model db' = Some A
              ∧ messages db' = messages db ++ [message_of c])
  ∧ (∀ A c cs,
       ∃ db', insert_all A new_store (c :: cs) = Ok db'
              ∧ embedding_model db' = [Pin (ic_create_time c) A]
              ∧ get_embedding_model db' = Some A
              ∧ messages db' = message_of <$> (c :: cs)).
Proof.
  split; [|split].
  - intros A B ct now db cm ex emb Hg Hne.
    unfold insert_message_exchange. rewrite Hg.
    by rewrite decide_True.
  - intros A db c Ho Hg. eexists. split; [by apply insert_pinned|].
    simpl. done.
  - intros A c cs. eexists.
    change (insert_all A new_store (c :: cs))
      with (and_then (insert_call_on A new_store c)
              (λ db', insert_all A db' cs)).
    rewrite (insert_unpinned A new_store c) by done. simpl and_then.
    rewrite insert_all_pinned by done. simpl. done.
Qed.

Lemma insert_message_exchange_pin_witness :
  let db := Scenario.one_exchange in
  let c := Scenario.at_ 20 (Scenario.turn "again" "yes") [0; 1]%Z in
  get_embedding_model db = Some Scenario.ada
  ∧ Scenario.ada ≠ lit "other-model"
  ∧ insert_message_exchange (lit "other-model") 20 20 db Scenario.gpt4
      (Scenario.turn "again" "yes") (Some [0; 1]%Z) = Raise ValueError db
  ∧ opened db
  ∧ ∃ db', insert_call_on Scenario.ada db c = Ok db'
           ∧ embedding_model db' = embedding_model db
           ∧ get_embedding_model db' = Some Scenario.ada
           ∧ messages db' = messages db ++ [message_of c].
Proof.
  intros db c.
  assert (Hg : get_embedding_model db = Some Scenario.ada) by reflexivity.
  assert (Hne : Scenario.ada ≠ lit "other-model").
  { intros H. apply (f_equal length) in H. vm_compute in H. lia. }
  assert (Ho : opened db) by reflexivity.
  split; [exact Hg|]. split; [exact Hne|]. split.
  - exact (proj1 insert_message_exchange_pin Scenario.ada
             (lit "other-model") 20%Z 20%Z db Scenario.gpt4
             (Scenario.turn "again" "yes") (Some [0; 1]%Z) Hg Hne).
  - split; [exact Ho|].
    exact (proj1 (proj2 insert_message_exchange_pin) Scenario.ada db c Ho Hg).
Defined.
End Store.

Section Immutability.
Import EmbeddingsDatabase Runs.

Lemma create_opened db : opened db → create db = db.
Proof.
  unfold opened. intros Ho. destruct db as [gs ps ms]. simpl in Ho.
  subst gs. reflexivity.
Qed.








Lemma read_sql_query_lookup {A} (rows : list A) i r :
  rows !! i = Some r → read_sql_query rows !! i = Some (Pos i, r).
Proof. intros H. unfold read_sql_query. by rewrite list_lookup_imap, H. Qed.




(** Nor is INSERT OR REPLACE: on the same store, the statement that names
    the rowid of the stored exchange writes another row in its place, and
    the statement that names the pinned model writes the pin anew.  The
    triggers of [create] stay silent. *)
Example replace_is_not_blocked :
  let r := Message 0 (lit "gpt-4") (lit "[]") (lit "null") in
  opened Scenario.one_exchange
  ∧ (∃ db', execute Scenario.one_exchange (ReplaceMessage 0 r) = Ok db'
            ∧ get_messages_dataframe db' = [(Pos 0, r)])
  ∧ embedding_model Scenario.one_exchange = [Pin 10 Scenario.ada]
  ∧ ∃ db', execute Scenario.one_exchange (ReplacePin (Pin 99 Scenario.ada))
           = Ok db'
           ∧ embedding_model db' = [Pin 99 Scenario.ada].
Proof.
  split; [reflexivity|]. split.
  - eexists. split; [reflexivity|]. reflexivity.
  - split; [reflexivity|]. eexists. split; [reflexivity|]. evaluated.
Qed.
End Immutability.


Import EmbeddingsDatabase ChatContext.

(** * Sorting, windows and duplicates *)

Section SortFacts.
Context {A : Type} (leb : A → A → bool).

Lemma insert_sorted_perm x l : insert_sorted leb x l ≡ₚ x :: l.
Proof.
  induction l as [|y l IH]; simpl; [done|].
  destruct (leb x y); [done|]. rewrite IH. apply perm_swap.
Qed.

Lemma stable_sort_perm l : stable_sort leb l ≡ₚ l.
Proof.
  induction l as [|x l IH]; [done|].
  change (stable_sort leb (x :: l))
    with (insert_sorted leb x (stable_sort leb l)).
  rewrite insert_sorted_perm. by f_equiv.
Qed.

Context (total : ∀ x y, leb x y = true ∨ leb y x = true).
Context (trans : ∀ x y z,
           leb x y = true → leb y z = true → leb x z = true).

Lemma insert_sorted_sorted x l :
  StronglySorted (λ a b, leb a b = true) l →
  StronglySorted (λ a b, leb a b = true) (insert_sorted leb x l).
Proof.
  induction 1 as [|y l Hs IH Hy]; simpl.
  - repeat constructor.
  - destruct (leb x y) eqn:E.
    + constructor; [by constructor|]. constructor; [done|].
      eapply Forall_impl; [exact Hy|]. intros z Hz. by eapply trans.
    + constructor; [done|]. apply Forall_forall. intros z Hz.
      rewrite insert_sorted_perm in Hz. apply elem_of_cons in Hz as [->|Hz].
      * destruct (total x y); congruence.
      * by eapply Forall_forall in Hy.
Qed.

Lemma stable_sort_sorted l :
  StronglySorted (λ a b, leb a b = true) (stable_sort leb l).
Proof.
  induction l as [|x l IH]; [constructor|].
  by apply insert_sorted_sorted.
Qed.
End SortFacts.


Lemma elem_of_concat {A} (x : A) (ls : list (list A)) :
  x ∈ concat ls ↔ ∃ l, x ∈ l ∧ l ∈ ls.
Proof.
  induction ls as [|l ls IH]; simpl.
  - split; [by intros ?%elem_of_nil|by intros (? & _ & ?%elem_of_nil)].
  - rewrite elem_of_app, IH. split.
    + intros [?|(l' & ? & ?)]; [exists l|exists l']; split; try done;
        [by left|by right].
    + intros (l' & ? & [->|?]%elem_of_cons); [by left|right; eauto].
Qed.



Section PandasFacts.
Context {A : Type}.
Implicit Types df : list A.

Lemma head_all n df : (Z.of_nat (length df) ≤ n)%Z → head n df = df.
Proof.
  intros Hn. unfold head. rewrite (proj2 (Z.leb_le 0 n)) by lia.
  apply take_ge. lia.
Qed.

Lemma tail_all n df : (Z.of_nat (length df) ≤ n)%Z → tail n df = df.
Proof.
  intros Hn. unfold tail. destruct (n =? 0)%Z eqn:E0.
  - apply Z.eqb_eq in E0. destruct df; [done|simpl in Hn; lia].
  - apply Z.eqb_neq in E0. rewrite (proj2 (Z.ltb_lt 0 n)) by lia.
    replace (length df - Z.to_nat n) with 0 by lia. done.
Qed.

Lemma head_sublist n df : head n df `sublist_of` df.
Proof. unfold head. destruct (0 <=? n)%Z; apply sublist_take. Qed.

Lemma tail_sublist n df : tail n df `sublist_of` df.
Proof.
  unfold tail. destruct (n =? 0)%Z; [apply sublist_nil_l|].
  destruct (0 <? n)%Z; apply sublist_drop.
Qed.

Lemma sort_values_perm {K} (leb : K → K → bool) (col : A → K) asc
    (f : list (label * A)) :
  sort_values leb col asc f ≡ₚ f.
Proof. unfold sort_values. destruct asc; apply stable_sort_perm. Qed.

Lemma read_sql_query_values (rows : list A) : (read_sql_query rows).*2 = rows.
Proof.
  unfold read_sql_query. rewrite fmap_imap.
  induction rows as [|r rows IH] using rev_ind; [done|].
  rewrite imap_app, IH. simpl. done.
Qed.
End PandasFacts.

Section Duplicates.
Context {V K : Type} `{EqDecision K} (key : V → K).
Implicit Types (s : list (label * V)) (seen : list K).

Lemma dd_ext seen seen' s :
  (∀ k, k ∈ seen ↔ k ∈ seen') →
  drop_duplicates_from key seen s = drop_duplicates_from key seen' s.
Proof.
  revert seen seen'.
  induction s as [|[i v] s IH]; intros seen seen' H; simpl; [done|].
  destruct (decide (key v ∈ seen)) as [Hin|Hin],
    (decide (key v ∈ seen')) as [Hin'|Hin'].
  - by apply IH.
  - by apply H in Hin.
  - by apply H in Hin'.
  - f_equal. apply IH. intros w. rewrite !elem_of_cons, H. done.
Qed.

Lemma dd_app seen s1 s2 :
  drop_duplicates_from key seen (s1 ++ s2)
  = drop_duplicates_from key seen s1
    ++ drop_duplicates_from key ((key <$> s1.*2) ++ seen) s2.
Proof.
  revert seen. induction s1 as [|[i v] s1 IH]; intros seen; simpl; [done|].
  destruct (decide (key v ∈ seen)) as [Hin|Hin].
  - rewrite IH. f_equal. apply dd_ext. intros w.
    rewrite elem_of_cons, !elem_of_app. naive_solver.
  - simpl. f_equal. rewrite IH. f_equal. apply dd_ext. intros w.
    rewrite !elem_of_cons, !elem_of_app, elem_of_cons. naive_solver.
Qed.


Lemma dd_keys seen s k :
  k ∈ key <$> (drop_duplicates_from key seen s).*2
  ↔ k ∈ key <$> s.*2 ∧ k ∉ seen.
Proof.
  revert seen. induction s as [|[i w] s IH]; intros seen; simpl.
  - rewrite elem_of_nil. naive_solver.
  - destruct (decide (key w ∈ seen)) as [Hin|Hin]; simpl.
    + rewrite IH, elem_of_cons. naive_solver.
    + rewrite !elem_of_cons, IH, elem_of_cons.
      destruct (decide (k = key w)); naive_solver.
Qed.

Lemma dd_NoDup seen s : NoDup (key <$> (drop_duplicates_from key seen s).*2).
Proof.
  revert seen. induction s as [|[i w] s IH]; intros seen; simpl; [constructor|].
  destruct (decide (key w ∈ seen)); simpl; [done|].
  constructor; [|done]. rewrite dd_keys, elem_of_cons. naive_solver.
Qed.

Lemma dd_sublist seen s : drop_duplicates_from key seen s `sublist_of` s.
Proof.
  revert seen. induction s as [|[i w] s IH]; intros seen; simpl; [done|].
  destruct (decide (key w ∈ seen)); by constructor.
Qed.

Lemma filter_key_absent (l : list (label * V)) k :
  k ∉ key <$> l.*2 → filter (λ x, key x.2 = k) l = [].
Proof.
  induction l as [|[i w] l IH]; simpl; [done|].
  rewrite not_elem_of_cons. intros [Hne Hl].
  rewrite filter_cons_False by (simpl; congruence). by apply IH.
Qed.

(** A value of the series is in the result once. *)
Lemma drop_duplicates_once s k :
  k ∈ key <$> s.*2 →
  length (filter (λ x, key x.2 = k) (drop_duplicates key s)) = 1.
Proof.
  intros Hv. unfold drop_duplicates.
  assert (Hin : k ∈ key <$> (drop_duplicates_from key [] s).*2).
  { apply dd_keys. split; [done|apply not_elem_of_nil]. }
  pose proof (dd_NoDup [] s) as Hnd.
  induction (drop_duplicates_from key [] s) as [|[i w] l IH]; simpl in *.
  - by apply elem_of_nil in Hin.
  - apply NoDup_cons in Hnd as [Hw Hnd].
    destruct (decide (key w = k)) as [<-|Hne].
    + rewrite filter_cons_True by done. simpl.
      by rewrite filter_key_absent.
    + rewrite filter_cons_False by done.
      apply IH; [|done]. apply elem_of_cons in Hin as [?|?]; [congruence|done].
Qed.

(** The first row that holds a value stays, right behind what the rows
    before it leave. *)
Lemma drop_duplicates_first (l1 l2 : list (label * V)) i v :
  key v ∉ key <$> l1.*2 →
  ∃ rest, drop_duplicates key (l1 ++ (i, v) :: l2)
          = drop_duplicates key l1 ++ (i, v) :: rest
          ∧ key v ∉ key <$> rest.*2.
Proof.
  intros Hv. unfold drop_duplicates. rewrite dd_app. simpl.
  rewrite app_nil_r. rewrite decide_False by done.
  eexists. split; [done|]. rewrite dd_keys, elem_of_cons. naive_solver.
Qed.
End Duplicates.

(** * The selector *)

Section SelectorFacts.
Context {Query Score : Type}.
Context (similarity : pystr → Query → option Score).
Context (score_leb : Score → Score → bool).
Implicit Types (df : list (label * @scored Score)).

Lemma parsed_eq df : parsed df = mapM parse_row df.
Proof. done. Qed.

Lemma mapM_app_Some {A B} (f : A → option B) l1 l2 k1 k2 :
  mapM f l1 = Some k1 → mapM f l2 = Some k2 →
  mapM f (l1 ++ l2) = Some (k1 ++ k2).
Proof.
  rewrite !mapM_Some. apply Forall2_app.
Qed.

Lemma mapM_sublist {A B} (f : A → option B) l l' k :
  mapM f l = Some k → l' `sublist_of` l → is_Some (mapM f l').
Proof.
  intros Hk Hsub. apply mapM_is_Some.
  assert (Hall : Forall (is_Some ∘ f) l) by (apply mapM_is_Some; eauto).
  apply Forall_forall. intros x Hx. eapply Forall_forall in Hall; [done|].
  by eapply elem_of_sublist.
Qed.

Lemma mapM_perm {A B} (f : A → option B) l l' k :
  mapM f l = Some k → l' ≡ₚ l → is_Some (mapM f l').
Proof.
  intros Hk Hp. apply mapM_is_Some.
  assert (Hall : Forall (is_Some ∘ f) l) by (apply mapM_is_Some; eauto).
  by rewrite Hp.
Qed.

Lemma similar_sub df k : df_similar_chats score_leb df k ⊆ df.
Proof.
  unfold df_similar_chats. intros x. rewrite sort_values_perm.
  intros Hx.
  pose proof (elem_of_sublist _ _ _ Hx
                (head_sublist k (sort_values score_leb row_similarity false df))) as Hs.
  by rewrite sort_values_perm in Hs.
Qed.

Lemma last_sub df k : df_last_n_chats df k ⊆ df.
Proof. intros x Hx. eapply elem_of_sublist; [done|apply tail_sublist]. Qed.

Lemma parsed_subseteq df df' all :
  parsed df = Some all → df' ⊆ df → is_Some (parsed df').
Proof.
  intros Hall Hsub. apply mapM_is_Some.
  assert (Hf : Forall (is_Some ∘ parse_row) df) by (apply mapM_is_Some; eauto).
  apply Forall_forall. intros x Hx. eapply Forall_forall in Hf; [done|]. by apply Hsub.
Qed.

Lemma parsed_values df s e :
  parsed df = Some s →
  e ∈ s.*2
  ↔ ∃ r, r ∈ df ∧ Ast.literal_eval (message_exchange (row r.2)) = Some e.
Proof.
  rewrite parsed_eq, mapM_Some. induction 1 as [|r p df s Hr HF IH]; simpl.
  - split; [by intros ?%elem_of_nil|by intros (? & ?%elem_of_nil & _)].
  - unfold parse_row in Hr.
    destruct (Ast.literal_eval _) as [e'|] eqn:He; simplify_eq/=.
    rewrite elem_of_cons, IH. split.
    + intros [->|(r' & ? & ?)].
      * exists r. split; [by left|done].
      * exists r'. split; [by right|done].
    + intros (r' & [->|?]%elem_of_cons & Hr').
      * left. congruence.
      * right. eauto.
Qed.

Lemma parsed_labels df s : parsed df = Some s → s.*1 = df.*1.
Proof.
  rewrite parsed_eq, mapM_Some. induction 1 as [|r p df s Hr HF IH]; simpl; [done|].
  unfold parse_row in Hr.
  destruct (Ast.literal_eval _) as [e'|] eqn:He; simplify_eq/=. by f_equal.
Qed.

Lemma parsed_app df1 df2 s1 s2 :
  parsed df1 = Some s1 → parsed df2 = Some s2 →
  parsed (df1 ++ df2) = Some (s1 ++ s2).
Proof. apply mapM_app_Some. Qed.

(** What the selector returns, once the rows of the context are read. *)
Lemma selected_series_eq df k_sim k_recent S T :
  parsed (df_similar_chats score_leb df k_sim) = Some S →
  parsed (df_last_n_chats df k_recent) = Some T →
  selected_series score_leb df k_sim k_recent
  = Some (drop_duplicates exchange_key (S ++ T)).
Proof.
  intros HS HT. unfold selected_series, df_context.
  by rewrite (parsed_app _ _ _ _ HS HT).
Qed.

Lemma add_similarity_length history_df embedding df :
  add_similarity similarity history_df embedding = Some df →
  length df = length history_df.
Proof. intros H. symmetry. by eapply length_mapM. Qed.


Lemma add_similarity_rows history_df embedding df :
  add_similarity similarity history_df embedding = Some df →
  (row ∘ snd) <$> df = history_df.*2.
Proof.
  unfold add_similarity. rewrite mapM_Some.
  induction 1 as [|r p ?? Hr HF IH]; simpl; [done|].
  destruct (similarity _ _); simplify_eq/=. by f_equal.
Qed.

Lemma select_eq history_df embedding k_sim k_recent df s :
  add_similarity similarity history_df embedding = Some df →
  selected_series score_leb df k_sim k_recent = Some s →
  _select_relevant_history similarity score_leb history_df embedding
    k_sim k_recent = Some (concat (tolist s)).
Proof.
  intros Hdf Hs. unfold _select_relevant_history. rewrite Hdf. simpl.
  rewrite Hs. done.
Qed.

(** C2.  An exchange that is both among the [k_sim] most similar ones and
    among the last [k_recent] ones is in the list the selector returns
    exactly once, at the place of its first row: the returned list is the
    messages of what is left of the rows before that row, then the messages
    of the exchange, then the messages of exchanges that are all other than
    it. *)
Theorem selected_once history_df embedding df k_sim k_recent S T e :
  add_similarity similarity history_df embedding = Some df →
  parsed (df_similar_chats score_leb df k_sim) = Some S →
  parsed (df_last_n_chats df k_recent) = Some T →
  e ∈ S.*2 → e ∈ T.*2 →
  ∃ s, selected_series score_leb df k_sim k_recent = Some s
       ∧ _select_relevant_history similarity score_leb history_df embedding
           k_sim k_recent = Some (concat (tolist s))
       ∧ length (filter (λ x, exchange_key x.2 = exchange_key e) s) = 1
       ∧ ∃ before i e' after rest,
           S ++ T = before ++ (i, e') :: after
           ∧ exchange_key e' = exchange_key e
           ∧ (exchange_key e ∉ exchange_key <$> before.*2)
           ∧ s = drop_duplicates exchange_key before ++ (i, e') :: rest
           ∧ (exchange_key e ∉ exchange_key <$> rest.*2)
           ∧ _select_relevant_history similarity score_leb history_df
               embedding k_sim k_recent
             = Some (concat (drop_duplicates exchange_key before).*2
                     ++ e' ++ concat rest.*2).
Proof.
  intros Hdf HS HT HeS HeT.
  pose proof (selected_series_eq _ _ _ _ _ HS HT) as Hs.
  assert (He : exchange_key e ∈ exchange_key <$> (S ++ T).*2).
  { apply list_elem_of_fmap_2. rewrite fmap_app, elem_of_app. by left. }
  eexists. split; [exact Hs|]. split; [by eapply select_eq|]. split.
  - by apply drop_duplicates_once.
  - destruct (list_elem_of_split_l _ _ He) as (k1 & k2 & Hsplit & Hnot).
    apply fmap_app_inv in Hsplit as (v1 & v2 & -> & Hk2 & Hsplit).
    apply fmap_app_inv in Hsplit as (before & after' & -> & Hv2 & Heq).
    destruct after' as [|[i e'] after]; [by subst v2|].
    assert (exchange_key e' = exchange_key e) as Hee.
    { simpl in Hv2. subst v2. simpl in Hk2. congruence. }
    rewrite <- Hee in Hnot.
    destruct (drop_duplicates_first exchange_key before after i e' Hnot)
      as (rest & Hrest & Hr).
    exists before, i, e', after, rest. rewrite Heq, <- Hee.
    split; [done|]. split; [done|]. split; [done|]. split; [done|].
    split; [done|].
    rewrite (select_eq _ _ _ _ _ _ Hdf Hs), Heq, Hrest. unfold tolist.
    by rewrite fmap_app, concat_app, fmap_cons.
Qed.

Lemma similar_perm_small df k :
  (Z.of_nat (length df) ≤ k)%Z → df_similar_chats score_leb df k ≡ₚ df.
Proof.
  intros Hk. unfold df_similar_chats. rewrite sort_values_perm.
  rewrite head_all; [apply sort_values_perm|].
  by rewrite sort_values_perm.
Qed.

(** C1, as the code has it.  When the stored history has at most [k_sim]
    rows, or at most [k_recent] rows, and its rows can be read, the
    selector returns every stored exchange: each one is among the selected
    exchanges and each of its messages is in the returned list. *)
Theorem selected_all_when_small history_df embedding k_sim k_recent df all :
  add_similarity similarity history_df embedding = Some df →
  parsed df = Some all →
  (Z.of_nat (length history_df) ≤ k_sim
   ∨ Z.of_nat (length history_df) ≤ k_recent)%Z →
  ∃ s, selected_series score_leb df k_sim k_recent = Some s
       ∧ _select_relevant_history similarity score_leb history_df embedding
           k_sim k_recent = Some (concat (tolist s))
       ∧ (∀ e, e ∈ all.*2 →
            exchange_key e ∈ exchange_key <$> tolist s)
       ∧ (∀ e m, e ∈ all.*2 → m ∈ e →
            msg_key m ∈ msg_key <$> concat (tolist s)).
Proof.
  intros Hdf Hall Hlen.
  rewrite <- (add_similarity_length _ _ _ Hdf) in Hlen.
  destruct (parsed_subseteq _ _ _ Hall (similar_sub df k_sim)) as [S HS].
  destruct (parsed_subseteq _ _ _ Hall (last_sub df k_recent)) as [T HT].
  exists (drop_duplicates exchange_key (S ++ T)).
  pose proof (selected_series_eq _ _ _ _ _ HS HT) as Hs.
  assert (Hcover : ∀ e, e ∈ all.*2 →
            exchange_key e
            ∈ exchange_key <$> tolist (drop_duplicates exchange_key (S ++ T))).
  { intros e He. unfold tolist, drop_duplicates. apply dd_keys.
    split; [|apply not_elem_of_nil]. apply list_elem_of_fmap_2.
    apply (parsed_values _ _ _ Hall) in He as (r & Hr & Hre).
    rewrite fmap_app, elem_of_app. destruct Hlen as [Hk|Hk].
    - left. apply (parsed_values _ _ _ HS). exists r. split; [|done].
      by rewrite similar_perm_small.
    - right. apply (parsed_values _ _ _ HT). exists r. split; [|done].
      unfold df_last_n_chats. by rewrite tail_all. }
  split; [done|]. split; [by eapply select_eq|]. split; [done|].
  intros e m He Hm.
  apply Hcover, list_elem_of_fmap in He as (e' & Hee & He').
  assert (Hm' : msg_key m ∈ msg_key <$> e').
  { change (msg_key <$> e') with (exchange_key e'). rewrite <- Hee.
    by apply list_elem_of_fmap_2. }
  apply list_elem_of_fmap in Hm' as (m' & -> & Hm').
  apply list_elem_of_fmap_2, elem_of_concat. eauto.
Qed.


End SelectorFacts.

Section SelectorRuns.
Import Scenario.

(** C1, as the claim has it, fails.  The store holds six exchanges, all
    different, and six is at most 5 + 2; the five most similar ones are the
    last five and the last two are among them, so the oldest exchange is not
    returned. *)
Lemma small_history_not_covered :
  let db := store_of oldest_least_similar in
  length (messages db) = 6
  ∧ (∃ exs,
       mapM Ast.literal_eval (message_exchange <$> messages db) = Some exs
       ∧ NoDup (exchange_key <$> exs) ∧ turn "q0" "a0" ∈ exs)
  ∧ ∃ out, strategy_B db = Some out
           ∧ (msg_key [(lit "role", lit "user"); (lit "content", lit "q0")]
              ∉ msg_key <$> out)
           ∧ (msg_key [(lit "role", lit "assistant"); (lit "content", lit "a0")]
              ∉ msg_key <$> out).
Proof.
  split; [reflexivity|]. split.
  - eexists. split; [evaluated|].
    split; decided.
  - eexists. split; [evaluated|].
    split; decided.
Qed.


Lemma selected_once_witness :
  let history_df := get_messages_dataframe (store_of oldest_least_similar) in
  ∃ df S T,
    add_similarity Exact.similarity history_df query = Some df
    ∧ parsed (df_similar_chats Exact.score_leb df 1) = Some S
    ∧ parsed (df_last_n_chats df 1) = Some T
    ∧ turn "q5" "a5" ∈ S.*2
    ∧ turn "q5" "a5" ∈ T.*2
    ∧ ∃ s, selected_series Exact.score_leb df 1 1 = Some s
           ∧ _select_relevant_history Exact.similarity Exact.score_leb
               history_df query 1 1 = Some (concat (tolist s))
           ∧ length (filter (λ x, exchange_key x.2
                                  = exchange_key (turn "q5" "a5")) s) = 1
           ∧ ∃ before i e' after rest,
               S ++ T = before ++ (i, e') :: after
               ∧ exchange_key e' = exchange_key (turn "q5" "a5")
               ∧ (exchange_key (turn "q5" "a5") ∉ exchange_key <$> before.*2)
               ∧ s = drop_duplicates exchange_key before ++ (i, e') :: rest
               ∧ (exchange_key (turn "q5" "a5") ∉ exchange_key <$> rest.*2)
               ∧ _select_relevant_history Exact.similarity Exact.score_leb
                   history_df query 1 1
                 = Some (concat (drop_duplicates exchange_key before).*2
                         ++ e' ++ concat rest.*2).
Proof.
  intros history_df. eexists _, _, _.
  split; [evaluated|].
  split; [evaluated|].
  split; [evaluated|].
  split; [decided|].
  split; [decided|].
  apply (selected_once Exact.similarity Exact.score_leb history_df query).
  - evaluated.
  - evaluated.
  - evaluated.
  - decided.
  - decided.
Defined.

Lemma selected_all_when_small_witness :
  let history_df :=
    get_messages_dataframe (store_of (take 3 oldest_least_similar)) in
  ∃ df all,
    add_similarity Exact.similarity history_df query = Some df
    ∧ parsed df = Some all
    ∧ (Z.of_nat (length history_df) ≤ 5 ∨ Z.of_nat (length history_df) ≤ 2)%Z
    ∧ ∃ s, selected_series Exact.score_leb df 5 2 = Some s
           ∧ _select_relevant_history Exact.similarity Exact.score_leb
               history_df query 5 2 = Some (concat (tolist s))
           ∧ (∀ e, e ∈ all.*2 →
                exchange_key e ∈ exchange_key <$> tolist s)
           ∧ (∀ e m, e ∈ all.*2 → m ∈ e →
                msg_key m ∈ msg_key <$> concat (tolist s)).
Proof.
  intros history_df. eexists _, _.
  split; [evaluated|].
  split; [evaluated|].
  split; [left; vm_compute; discriminate|].
  eapply (selected_all_when_small Exact.similarity Exact.score_leb history_df
            query).
  - evaluated.
  - evaluated.
  - left; vm_compute; discriminate.
Defined.


(** The two runs of that store: rows 0, 1, 2, 3 and 5 are the five most
    similar ones, rows 4 and 5 the last two; row 5 is listed in the first
    run, and the second run is row 4 alone. *)
Example selected_two_runs_example :
  let rows := messages (store_of last_but_one_least_similar) in
  ∃ df S T,
    add_similarity Exact.similarity (read_sql_query rows) query = Some df
    ∧ parsed (df_similar_chats Exact.score_leb df 5) = Some S
    ∧ parsed (df_last_n_chats df 2) = Some T
    ∧ (drop_duplicates exchange_key S).*1
      = [Pos 0; Pos 1; Pos 2; Pos 3; Pos 5]
    ∧ T.*1 = [Pos 4; Pos 5]
    ∧ (filter (λ x, exchange_key x.2 ∉ exchange_key <$> S.*2)
         (drop_duplicates exchange_key T)).*1 = [Pos 4].
Proof.
  intros rows. eexists _, _, _.
  split; [evaluated|]. split; [evaluated|]. split; [evaluated|].
  split; [evaluated|]. split; evaluated.
Qed.
End SelectorRuns.

(** * Sums over the groups of a partition *)

Section GroupSums.
Context {A K C : Type} `{EqDecision K}.
Context (add : A → A → A) (zero : A).
Context (add_assoc : ∀ x y z, add x (add y z) = add (add x y) z).
Context (add_comm : ∀ x y, add x y = add y x).
Context (add_zero : ∀ x, add zero x = x).
Context (key : C → K) (val : C → A).

Lemma total_perm (l k : list A) :
  l ≡ₚ k → foldr add zero l = foldr add zero k.
Proof.
  induction 1 as [|x l k _ IH|x y l|l k j _ IH1 _ IH2]; simpl;
    [done|by rewrite IH|..].
  - by rewrite !add_assoc, (add_comm y x).
  - by rewrite IH1.
Qed.

Lemma total_add (f g : K → A) (ms : list K) :
  foldr add zero ((λ m, add (f m) (g m)) <$> ms)
  = add (foldr add zero (f <$> ms)) (foldr add zero (g <$> ms)).
Proof.
  induction ms as [|m ms IH]; [simpl; by rewrite add_zero|].
  rewrite !fmap_cons. cbn [foldr]. rewrite IH, !add_assoc. f_equal.
  rewrite <- !add_assoc. f_equal. apply add_comm.
Qed.

Lemma total_indicator (k : K) x (ms : list K) :
  NoDup ms → k ∈ ms →
  foldr add zero ((λ m, if decide (k = m) then x else zero) <$> ms) = x.
Proof.
  induction 1 as [|m ms Hm Hnd IH]; [by intros ?%elem_of_nil|].
  rewrite fmap_cons. cbn [foldr]. intros [->|Hin]%elem_of_cons.
  - rewrite decide_True by done.
    assert (Hz : foldr add zero
                   ((λ m0, if decide (m = m0) then x else zero) <$> ms)
                 = zero).
    { clear IH Hnd. induction ms as [|m' ms IH']; [done|].
      apply not_elem_of_cons in Hm as [??].
      rewrite fmap_cons. cbn [foldr].
      rewrite decide_False by done. rewrite add_zero. by apply IH'. }
    by rewrite Hz, add_comm, add_zero.
  - rewrite decide_False by (intros ->; done). rewrite add_zero. by apply IH.
Qed.

(** The sums of the groups add up to the sum of the whole. *)
Lemma total_groups (ms : list K) (cs : list C) :
  NoDup ms → (∀ c, c ∈ cs → key c ∈ ms) →
  foldr add zero
    ((λ m, foldr add zero (val <$> filter (λ c, key c = m) cs)) <$> ms)
  = foldr add zero (val <$> cs).
Proof.
  intros Hnd. induction cs as [|c cs IH]; intros Hin.
  - clear Hin. induction ms as [|m ms IHm]; [done|].
    rewrite fmap_cons. cbn [foldr]. rewrite filter_nil, fmap_nil. cbn [foldr].
    rewrite add_zero. apply IHm. by eapply NoDup_cons_1_2.
  - rewrite fmap_cons. cbn [foldr].
    rewrite <- IH by (intros; apply Hin; by right).
    rewrite <- (total_indicator (key c) (val c) ms Hnd) at 1
      by (apply Hin; by left).
    rewrite <- total_add. f_equal. apply list_fmap_ext. intros _ m _.
    rewrite filter_cons. destruct (decide (key c = m)).
    + by rewrite fmap_cons.
    + by rewrite add_zero.
Qed.
End GroupSums.

Section LedgerTotals.
Import Tokens Runs.

Lemma record_all_ok calls : ∀ db,
  Forall (λ c, rc_model c ∈ PRICE_PER_K_TOKENS.*1) calls →
  record_all db calls = Ok (db ++ (recorded <$> calls)).
Proof.
  induction calls as [|c calls IH]; intros db Hin.
  - simpl. by rewrite app_nil_r.
  - inversion_clear Hin as [|?? Hc Hcalls].
    rewrite <- token_price_keys in Hc.
    destruct (dict_get_Some_elem _ _ Hc) as [p Hp].
    change (record_all db (c :: calls))
      with (and_then (insert_data (rc_now c) db (Some (rc_model c))
                        (rc_input c) (rc_output c))
              (λ db', record_all db' calls)).
    unfold insert_data. rewrite Hp. unfold and_then.
    rewrite IH by done. rewrite <- app_assoc.
    change (recorded <$> c :: calls) with (recorded c :: (recorded <$> calls)).
    unfold recorded at 2, cost_input, cost_output. by rewrite Hp.
Qed.

Lemma distinct_elem seen l m : m ∈ distinct seen l ↔ m ∈ l ∧ m ∉ seen.
Proof.
  revert seen. induction l as [|x l IH]; intros seen; simpl.
  - rewrite elem_of_nil. naive_solver.
  - destruct (decide (x ∈ seen)) as [Hin|Hin].
    + rewrite IH, elem_of_cons. naive_solver.
    + rewrite !elem_of_cons, IH, elem_of_cons.
      destruct (decide (m = x)); naive_solver.
Qed.

Lemma distinct_NoDup seen l : NoDup (distinct seen l).
Proof.
  revert seen. induction l as [|x l IH]; intros seen; simpl; [constructor|].
  destruct (decide (x ∈ seen)); [done|].
  constructor; [|done]. rewrite distinct_elem, elem_of_cons. naive_solver.
Qed.

Lemma group_recorded m calls :
  group (recorded <$> calls) m = recorded <$> calls_of m calls.
Proof.
  unfold group, calls_of. induction calls as [|c calls IH]; [done|].
  rewrite fmap_cons, !filter_cons.
  change (model (recorded c)) with (rc_model c).
  destruct (decide (rc_model c = m)); by rewrite ?fmap_cons, IH.
Qed.

Lemma aggregate_Some m g u :
  aggregate m g = Some u →
  Model u = m
  ∧ Tokens_In u = Zsum (n_input_tokens <$> g)
  ∧ Tokens_Out u = Zsum (n_output_tokens <$> g)
  ∧ Tokens_Tot u = Zsum ((λ r, n_input_tokens r + n_output_tokens r)%Z <$> g)
  ∧ Cost_In u = Qcsum (cost_input_tokens <$> g)
  ∧ Cost_Out u = Qcsum (cost_output_tokens <$> g)
  ∧ Cost_Tot u
    = Qcsum ((λ r, cost_input_tokens r + cost_output_tokens r)%Qc <$> g).
Proof. destruct g; [done|]. by intros [= <-]. Qed.

(** The aggregates of the model [m] over the rows of the calls. *)
Lemma aggregate_recorded m calls u :
  aggregate m (group (recorded <$> calls) m) = Some u →
  Model u = m
  ∧ Tokens_In u = Zsum (rc_input <$> calls_of m calls)
  ∧ Tokens_Out u = Zsum (rc_output <$> calls_of m calls)
  ∧ Tokens_Tot u
    = Zsum ((λ c, rc_input c + rc_output c)%Z <$> calls_of m calls)
  ∧ Cost_In u = Qcsum (cost_input <$> calls_of m calls)
  ∧ Cost_Out u = Qcsum (cost_output <$> calls_of m calls)
  ∧ Cost_Tot u
    = Qcsum ((λ c, cost_input c + cost_output c)%Qc <$> calls_of m calls).
Proof.
  rewrite group_recorded. intros Hu.
  apply aggregate_Some in Hu as (? & ? & ? & ? & ? & ? & ?).
  rewrite <- !list_fmap_compose in *. done.
Qed.

Lemma aggregate_is_Some m db :
  m ∈ model <$> db → is_Some (aggregate m (group db m)).
Proof.
  intros (r & -> & Hr)%list_elem_of_fmap. unfold aggregate, group.
  destruct (filter _ db) as [|r' g] eqn:E; [|eauto].
  assert (r ∈ filter (λ r0, model r0 = model r) db) as Hin
    by by apply list_elem_of_filter.
  rewrite E in Hin. by apply elem_of_nil in Hin.
Qed.

Lemma omap_column {B} (f : pystr → option usage) (col : usage → B)
    (h : pystr → B) (ms : list pystr) :
  (∀ m, m ∈ ms → ∃ u, f m = Some u ∧ col u = h m) →
  col <$> omap f ms = h <$> ms.
Proof.
  induction ms as [|m ms IH]; intros H; simpl; [done|].
  destruct (H m) as (u & Hu & Hm); [by left|]. rewrite Hu. simpl.
  rewrite Hm. f_equal. apply IH. intros m' Hm'. apply H. by right.
Qed.

Lemma query_perm db :
  query db
  ≡ₚ omap (λ m, aggregate m (group db m)) (distinct [] (model <$> db)).
Proof. apply stable_sort_perm. Qed.

Lemma query_models calls :
  Model <$> query (recorded <$> calls)
  ≡ₚ distinct [] (rc_model <$> calls).
Proof.
  rewrite query_perm.
  replace (model <$> (recorded <$> calls)) with (rc_model <$> calls)
    by (by rewrite <- list_fmap_compose).
  rewrite (omap_column _ Model id), list_fmap_id; [done|].
  intros m [Hm _]%distinct_elem.
  destruct (aggregate_is_Some m (recorded <$> calls)) as [u Hu].
  { by rewrite <- list_fmap_compose. }
  exists u. split; [done|]. by apply aggregate_recorded in Hu as [? _].
Qed.

Lemma Zsum_groups (val : record_call → Z) calls :
  Zsum ((λ m, Zsum (val <$> calls_of m calls))
          <$> distinct [] (rc_model <$> calls))
  = Zsum (val <$> calls).
Proof.
  apply (total_groups Z.add 0%Z Z.add_assoc Z.add_comm Z.add_0_l rc_model val).
  - apply distinct_NoDup.
  - intros c Hc. apply distinct_elem. split; [|apply not_elem_of_nil].
    by apply list_elem_of_fmap_2.
Qed.

(** The sums of the token columns of the query are the sums over all
    calls. *)
Lemma query_grand_totals calls :
  let ms := Model <$> query (recorded <$> calls) in
  Zsum (model_sums Zsum rc_input calls ms) = Zsum (rc_input <$> calls)
  ∧ Zsum (model_sums Zsum rc_output calls ms) = Zsum (rc_output <$> calls).
Proof.
  simpl. unfold model_sums. split.
  - rewrite <- Zsum_groups.
    apply (total_perm Z.add 0%Z Z.add_assoc Z.add_comm).
    by rewrite query_models.
  - rewrite <- Zsum_groups.
    apply (total_perm Z.add 0%Z Z.add_assoc Z.add_comm).
    by rewrite query_models.
Qed.

Lemma read_sql_query_col {A B} (col : A → B) (rows : list A) :
  col ∘ snd <$> read_sql_query rows = col <$> rows.
Proof.
  rewrite list_fmap_compose. f_equal.
  unfold read_sql_query. rewrite fmap_imap.
  induction rows as [|r rows IH] using rev_ind; [done|].
  rewrite imap_app, IH. simpl. done.
Qed.

Lemma read_sql_query_index {A} (rows : list A) :
  (read_sql_query rows).*1 = Pos <$> seq 0 (length rows).
Proof.
  unfold read_sql_query. rewrite fmap_imap.
  assert (H : ∀ n, imap (λ i _, Pos (n + i)) rows
                   = Pos <$> seq n (length rows)).
  { induction rows as [|x l IH]; intros n; [done|]. simpl.
    rewrite Nat.add_0_r. f_equal. rewrite <- IH. apply imap_ext.
    intros i y _. simpl. f_equal. lia. }
  apply (H 0).
Qed.

Lemma query_not_empty calls : calls ≠ [] → query (recorded <$> calls) ≠ [].
Proof.
  destruct calls as [|c calls]; [done|]. intros _ Hq.
  assert (Hc : rc_model c ∈ Model <$> query (recorded <$> c :: calls)).
  { rewrite query_models. apply distinct_elem.
    split; [by left|apply not_elem_of_nil]. }
  rewrite Hq in Hc. by apply elem_of_nil in Hc.
Qed.

(** A numeric column of the frame, read off the frame: the cells of the
    models and the cell of the row of totals. *)
Lemma usage_column {B} (col : usage → B) (cell_of : report → cell B)
    (sum : list B → B) (val : record_call → B) calls :
  (∀ u, cell_of (report_of u) = Val (col u)) →
  (∀ df, cell_of (sums df) = column_total sum (col ∘ snd <$> df)) →
  (∀ m u, aggregate m (group (recorded <$> calls) m) = Some u →
          col u = sum (val <$> calls_of m calls)) →
  calls ≠ [] →
  cell_of ∘ snd <$> get_usage_balance_dataframe (recorded <$> calls)
  = summed_column sum val calls (Model <$> query (recorded <$> calls)).
Proof.
  intros Hcell Hsums Hcol Hne.
  assert (Hq : col <$> query (recorded <$> calls)
               = model_sums sum val calls
                   (Model <$> query (recorded <$> calls))).
  { unfold model_sums. rewrite <- list_fmap_compose.
    apply list_fmap_ext. intros i u Hu. simpl.
    apply list_elem_of_lookup_2 in Hu. rewrite query_perm in Hu.
    apply list_elem_of_omap in Hu as (m & _ & Hu).
    pose proof (aggregate_recorded _ _ _ Hu) as [<- _]. by apply Hcol. }
  unfold get_usage_balance_dataframe, _group_columns_by_prefix,
    _add_totals_row, summed_column.
  rewrite fmap_app. f_equal.
  - rewrite <- Hq, <- !list_fmap_compose.
    rewrite <- (read_sql_query_col (Val ∘ col)).
    apply list_fmap_ext. intros i [l u] _. simpl. apply Hcell.
  - simpl. rewrite Hsums, read_sql_query_col, <- Hq.
    pose proof (query_not_empty calls Hne) as Hn.
    destruct (query (recorded <$> calls)); done.
Qed.

(** C6, as the code has it.  After one call or more of [insert_data], all
    with models of the rate table, the table holds the rows of the calls,
    and the frame of [get_usage_balance_dataframe] has one row for each
    model that was recorded, labelled 0, 1, 2, ..., and below them the row
    labelled Total.  In each numeric column the cell of a model is the sum
    of the values recorded for that model, call by call, and the cell of the
    Total row is the sum of the cells of the models.  For the tokens that is
    the sum over all calls. *)
Theorem usage_balance_totals calls :
  calls ≠ [] →
  Forall (λ c, rc_model c ∈ PRICE_PER_K_TOKENS.*1) calls →
  ∃ ms,
    record_all [] calls = Ok (recorded <$> calls)
    ∧ NoDup ms
    ∧ (∀ m, m ∈ ms ↔ m ∈ rc_model <$> calls)
    ∧ let df := get_usage_balance_dataframe (recorded <$> calls) in
      df.*1 = (Pos <$> seq 0 (length ms)) ++ [Name (lit "Total")]
      ∧ r_Model ∘ snd <$> df = (Val <$> ms) ++ [Blank]
      ∧ r_Tokens_In ∘ snd <$> df = summed_column Zsum rc_input calls ms
      ∧ r_Tokens_Out ∘ snd <$> df = summed_column Zsum rc_output calls ms
      ∧ r_Tokens_Tot ∘ snd <$> df
        = summed_column Zsum (λ c, rc_input c + rc_output c)%Z calls ms
      ∧ r_Cost_In ∘ snd <$> df = summed_column Qcsum cost_input calls ms
      ∧ r_Cost_Out ∘ snd <$> df = summed_column Qcsum cost_output calls ms
      ∧ r_Cost_Tot ∘ snd <$> df
        = summed_column Qcsum (λ c, cost_input c + cost_output c)%Qc
            calls ms
      ∧ Zsum (model_sums Zsum rc_input calls ms) = Zsum (rc_input <$> calls)
      ∧ Zsum (model_sums Zsum rc_output calls ms)
        = Zsum (rc_output <$> calls).
Proof.
  intros Hne Hin. exists (Model <$> query (recorded <$> calls)).
  split; [by rewrite record_all_ok|]. split.
  { rewrite query_models. apply distinct_NoDup. }
  split.
  { intros m. rewrite query_models, distinct_elem.
    split; [by intros [? _]|]. intros ?. split; [done|apply not_elem_of_nil]. }
  cbn zeta. split.
  { unfold get_usage_balance_dataframe, _group_columns_by_prefix,
      _add_totals_row.
    rewrite fmap_app, <- list_fmap_compose, length_fmap. f_equal.
    apply read_sql_query_index. }
  split.
  { unfold get_usage_balance_dataframe, _group_columns_by_prefix,
      _add_totals_row.
    rewrite fmap_app, <- !list_fmap_compose. f_equal.
    by rewrite <- (read_sql_query_col (Val ∘ Model)). }
  split.
  { apply (usage_column Tokens_In r_Tokens_In); [done|done| |done].
    intros m u Hu. by apply aggregate_recorded in Hu as (_ & ? & _). }
  split.
  { apply (usage_column Tokens_Out r_Tokens_Out); [done|done| |done].
    intros m u Hu. by apply aggregate_recorded in Hu as (_ & _ & ? & _). }
  split.
  { apply (usage_column Tokens_Tot r_Tokens_Tot); [done|done| |done].
    intros m u Hu.
    by apply aggregate_recorded in Hu as (_ & _ & _ & ? & _). }
  split.
  { apply (usage_column Cost_In r_Cost_In); [done|done| |done].
    intros m u Hu.
    by apply aggregate_recorded in Hu as (_ & _ & _ & _ & ? & _). }
  split.
  { apply (usage_column Cost_Out r_Cost_Out); [done|done| |done].
    intros m u Hu.
    by apply aggregate_recorded in Hu as (_ & _ & _ & _ & _ & ? & _). }
  split.
  { apply (usage_column Cost_Tot r_Cost_Tot); [done|done| |done].
    intros m u Hu.
    by apply aggregate_recorded in Hu as (_ & _ & _ & _ & _ & _ & ?). }
  apply query_grand_totals.
Qed.

Lemma usage_balance_totals_witness :
  let calls := Scenario.two_calls in
  calls ≠ []
  ∧ Forall (λ c, rc_model c ∈ PRICE_PER_K_TOKENS.*1) calls
  ∧ ∃ ms,
      record_all [] calls = Ok (recorded <$> calls)
      ∧ NoDup ms
      ∧ (∀ m, m ∈ ms ↔ m ∈ rc_model <$> calls)
      ∧ let df := get_usage_balance_dataframe (recorded <$> calls) in
        df.*1 = (Pos <$> seq 0 (length ms)) ++ [Name (lit "Total")]
        ∧ r_Model ∘ snd <$> df = (Val <$> ms) ++ [Blank]
        ∧ r_Tokens_In ∘ snd <$> df = summed_column Zsum rc_input calls ms
        ∧ r_Tokens_Out ∘ snd <$> df = summed_column Zsum rc_output calls ms
        ∧ r_Tokens_Tot ∘ snd <$> df
          = summed_column Zsum (λ c, rc_input c + rc_output c)%Z calls ms
        ∧ r_Cost_In ∘ snd <$> df = summed_column Qcsum cost_input calls ms
        ∧ r_Cost_Out ∘ snd <$> df = summed_column Qcsum cost_output calls ms
        ∧ r_Cost_Tot ∘ snd <$> df
          = summed_column Qcsum (λ c, cost_input c + cost_output c)%Qc
              calls ms
        ∧ Zsum (model_sums Zsum rc_input calls ms)
          = Zsum (rc_input <$> calls)
        ∧ Zsum (model_sums Zsum rc_output calls ms)
          = Zsum (rc_output <$> calls).
Proof.
  intros calls.
  assert (Hne : calls ≠ []) by done.
  assert (H : Forall (λ c, rc_model c ∈ PRICE_PER_K_TOKENS.*1) calls).
  { repeat constructor; decided. }
  split; [exact Hne|]. split; [exact H|].
  exact (usage_balance_totals calls Hne H).
Defined.

(** C6, as the claim has it, fails for the sequence of no call.  The query
    has no row then, [read_sql_query] gives columns of no numeric type, and
    the sums of pandas cover none of them: the frame is the Total row alone
    and [fillna] has made every cell of it a blank, where the sum of a
    column without rows would be 0. *)
Lemma usage_balance_total_blank :
  let calls : list record_call := [] in
  let df := get_usage_balance_dataframe (state_of (record_all [] calls)) in
  Forall (λ c, rc_model c ∈ PRICE_PER_K_TOKENS.*1) calls
  ∧ df = [ (Name (lit "Total"),
            Report Blank Blank Blank Blank Blank Blank Blank Blank) ]
  ∧ r_Tokens_In ∘ snd <$> df = [Blank]
  ∧ summed_column Zsum rc_input calls [] = [Val 0%Z]
  ∧ r_Tokens_In ∘ snd <$> df ≠ summed_column Zsum rc_input calls [].
Proof.
  split; [constructor|]. split; [reflexivity|]. split; [reflexivity|].
  split; [reflexivity|]. discriminate.
Qed.

(** The scenario of the specification, evaluated: [record("gpt-4", 100,
    50)] and then [record("gpt-4", 10, 5)] give one row for gpt-4 with 110
    and 55 tokens, and the Total row below it. *)
Example usage_balance_two_calls :
  let df := get_usage_balance_dataframe
              (state_of (record_all [] Scenario.two_calls)) in
  df.*1 = [Pos 0; Name (lit "Total")]
  ∧ r_Model ∘ snd <$> df = [Val (lit "gpt-4"); Blank]
  ∧ r_Tokens_In ∘ snd <$> df = [Val 110%Z; Val 110%Z]
  ∧ r_Tokens_Out ∘ snd <$> df = [Val 55%Z; Val 55%Z]
  ∧ r_Tokens_Tot ∘ snd <$> df = [Val 165%Z; Val 165%Z].
Proof.
  split; [evaluated|]. split; [evaluated|].
  split; [evaluated|]. split; evaluated.
Qed.

(** With nothing recorded the frame is the Total row alone, with blank
    cells. *)
Example usage_balance_empty :
  get_usage_balance_dataframe []
  = [ (Name (lit "Total"),
       Report Blank Blank Blank Blank Blank Blank Blank Blank) ].
Proof. reflexivity. Qed.
End LedgerTotals.

(** * Writing and reading an exchange *)

Section RoundTrip.
Import Json Ast Scenario.
Local Open Scope N_scope.

Lemma lex_run_app st s1 s2 :
  lex_run st (s1 ++ s2) = st' ← lex_run st s1; lex_run st' s2.
Proof.
  revert st. induction s1 as [|c s1 IH]; intros st; simpl; [done|].
  destruct (lex_step st c); simpl; [apply IH|done].
Qed.

Lemma hex_value_digit d : d < 16 → hex_value (hex_digit d) = Some d.
Proof.
  intros Hd.
  assert (H : Exists (eq d) [0;1;2;3;4;5;6;7;8;9;10;11;12;13;14;15]).
  { apply Exists_exists. exists d. split; [|done].
    repeat (rewrite elem_of_cons). lia. }
  repeat (apply Exists_cons in H as [->|H]; [reflexivity|]).
  by apply Exists_nil in H.
Qed.

Lemma nibble_lt x : N.land x 15 < 16.
Proof.
  change 15 with (N.ones 4). rewrite N.land_ones.
  apply N.mod_lt. done.
Qed.

Lemma nibbles c :
  c < 65536 →
  16 * (16 * (16 * (16 * 0 + N.land (N.shiftr c 12) 15)
              + N.land (N.shiftr c 8) 15)
        + N.land (N.shiftr c 4) 15)
  + N.land c 15 = c.
Proof.
  intros Hc. change 15 with (N.ones 4).
  rewrite !N.land_ones, !N.shiftr_div_pow2.
  change (2 ^ 4) with 16. change (2 ^ 8) with 256. change (2 ^ 12) with 4096.
  zify. Z.to_euclidean_division_equations. lia.
Qed.

Lemma lex_u_escape c acc out :
  c < 65536 →
  lex_run (LStr 34 acc, out) (u_escape c) = Some (LStr 34 (c :: acc), out).
Proof.
  intros Hc. unfold u_escape.
  cbn [lex_run lex_step]. change (92 =? 34) with false.
  change (92 =? 92) with true. cbn [mbind option_bind lex_step].
  change (117 =? 117) with true. cbn [mbind option_bind lex_run lex_step].
  repeat (rewrite hex_value_digit by apply nibble_lt;
          cbn [mbind option_bind lex_run lex_step]).
  by rewrite nibbles.
Qed.

Lemma lex_encode_char c acc out :
  c < 65536 →
  lex_run (LStr 34 acc, out) (encode_char c) = Some (LStr 34 (c :: acc), out).
Proof.
  intros Hc. unfold encode_char.
  destruct (c =? 92) eqn:E92; [apply N.eqb_eq in E92 as ->; reflexivity|].
  destruct (c =? 34) eqn:E34; [apply N.eqb_eq in E34 as ->; reflexivity|].
  destruct (c =? 8) eqn:E8; [apply N.eqb_eq in E8 as ->; reflexivity|].
  destruct (c =? 12) eqn:E12; [apply N.eqb_eq in E12 as ->; reflexivity|].
  destruct (c =? 10) eqn:E10; [apply N.eqb_eq in E10 as ->; reflexivity|].
  destruct (c =? 13) eqn:E13; [apply N.eqb_eq in E13 as ->; reflexivity|].
  destruct (c =? 9) eqn:E9; [apply N.eqb_eq in E9 as ->; reflexivity|].
  destruct ((32 <=? c) && (c <=? 126)) eqn:Ep.
  - cbn [lex_run lex_step]. by rewrite E34, E92, E10, E13.
  - rewrite (proj2 (N.ltb_lt c 65536) Hc). by apply lex_u_escape.
Qed.

Lemma lex_chars s : ∀ acc out,
  basic_plane s →
  lex_run (LStr 34 acc, out) (mjoin (encode_char <$> s))
  = Some (LStr 34 (reverse s ++ acc), out).
Proof.
  induction s as [|c s IH]; intros acc out Hs; [done|].
  apply Forall_cons in Hs as [Hc Hs].
  rewrite fmap_cons. change (mjoin (encode_char c :: (encode_char <$> s)))
    with (encode_char c ++ mjoin (encode_char <$> s)).
  rewrite lex_run_app, lex_encode_char by done. cbn [mbind option_bind].
  rewrite IH by done. by rewrite reverse_cons, <- app_assoc.
Qed.

Lemma lex_string s out :
  basic_plane s →
  lex_run (LOut, out) (py_encode_basestring_ascii s)
  = Some (LOut, TStr s :: out).
Proof.
  intros Hs. unfold py_encode_basestring_ascii.
  change ([34] ++ mjoin (encode_char <$> s) ++ [34])
    with (34 :: (mjoin (encode_char <$> s) ++ [34])).
  cbn [lex_run]. change (lex_step (LOut, out) 34) with (Some (LStr 34 [], out)).
  cbn [mbind option_bind]. rewrite lex_run_app, lex_chars by done.
  cbn [mbind option_bind lex_run lex_step]. change (34 =? 34) with true.
  cbn [mbind option_bind]. by rewrite app_nil_r, reverse_involutive.
Qed.

Lemma lex_item kv out :
  basic_plane kv.1 → basic_plane kv.2 →
  lex_run (LOut, out) (dumps_item kv)
  = Some (LOut, reverse (tokens_of_item kv) ++ out).
Proof.
  intros H1 H2. unfold dumps_item.
  rewrite lex_run_app, lex_string by done. cbn [mbind option_bind].
  rewrite lex_run_app. change (lit ": ") with [58; 32].
  change (lex_run (LOut, TStr kv.1 :: out) [58; 32])
    with (Some (LOut, TColon :: TStr kv.1 :: out)).
  cbn [mbind option_bind]. by rewrite lex_string.
Qed.

(** Texts joined by a comma and a blank give their tokens joined by a
    comma. *)
Lemma lex_join parts toks :
  Forall2 (λ p t, ∀ out, lex_run (LOut, out) p
                         = Some (LOut, reverse t ++ out)) parts toks →
  ∀ out, lex_run (LOut, out) (join (lit ", ") parts)
         = Some (LOut, reverse (join [TComma] toks) ++ out).
Proof.
  induction 1 as [|p t parts toks Hp HF IH]; intros out; [done|].
  destruct HF as [|p' t' parts toks Hp' HF].
  - simpl. apply Hp.
  - change (join (lit ", ") (p :: p' :: parts))
      with (p ++ lit ", " ++ join (lit ", ") (p' :: parts)).
    change (join [TComma] (t :: t' :: toks))
      with (t ++ [TComma] ++ join [TComma] (t' :: toks)).
    rewrite lex_run_app, Hp. cbn [mbind option_bind].
    rewrite lex_run_app. change (lit ", ") with [44; 32].
    change (lex_run (LOut, reverse t ++ out) [44; 32])
      with (Some (LOut, TComma :: reverse t ++ out)).
    cbn [mbind option_bind]. rewrite IH.
    rewrite !reverse_app. simpl. by rewrite <- !app_assoc.
Qed.

Lemma lex_msg m out :
  Forall (λ kv, basic_plane kv.1 ∧ basic_plane kv.2) m →
  lex_run (LOut, out) (dumps_msg m)
  = Some (LOut, reverse (tokens_of_msg m) ++ out).
Proof.
  intros Hm. unfold dumps_msg, tokens_of_msg.
  change ([123] ++ join (lit ", ") (dumps_item <$> m) ++ [125])
    with (123 :: (join (lit ", ") (dumps_item <$> m) ++ [125])).
  cbn [lex_run]. change (lex_step (LOut, out) 123) with (Some (LOut, TLBrace :: out)).
  cbn [mbind option_bind]. rewrite lex_run_app.
  rewrite (lex_join _ (tokens_of_item <$> m)).
  - cbn [mbind option_bind lex_run].
    change (lex_step (LOut, ?o) 125) with (Some (LOut, TRBrace :: o)).
    cbn [mbind option_bind]. rewrite !reverse_app. simpl.
    by rewrite <- !app_assoc.
  - apply Forall2_fmap, Forall_Forall2_diag.
    eapply Forall_impl; [exact Hm|]. intros kv [??] o. by apply lex_item.
Qed.

Lemma lex_exchange e out :
  Forall basic_msg e →
  lex_run (LOut, out) (dumps_exchange e)
  = Some (LOut, reverse (tokens_of_exchange e) ++ out).
Proof.
  intros He. unfold dumps_exchange, tokens_of_exchange.
  change ([91] ++ join (lit ", ") (dumps_msg <$> e) ++ [93])
    with (91 :: (join (lit ", ") (dumps_msg <$> e) ++ [93])).
  cbn [lex_run]. change (lex_step (LOut, out) 91) with (Some (LOut, TLBrack :: out)).
  cbn [mbind option_bind]. rewrite lex_run_app.
  rewrite (lex_join _ (tokens_of_msg <$> e)).
  - cbn [mbind option_bind lex_run].
    change (lex_step (LOut, ?o) 93) with (Some (LOut, TRBrack :: o)).
    cbn [mbind option_bind]. rewrite !reverse_app. simpl.
    by rewrite <- !app_assoc.
  - apply Forall2_fmap, Forall_Forall2_diag.
    eapply Forall_impl; [exact He|]. intros m [_ Hm] o. by apply lex_msg.
Qed.

Lemma tokenize_exchange e :
  Forall basic_msg e →
  tokenize (dumps_exchange e) = Some (tokens_of_exchange e).
Proof.
  intros He. unfold tokenize. rewrite lex_exchange by done.
  cbn [mbind option_bind lex_end]. by rewrite app_nil_r, reverse_involutive.
Qed.

Lemma parse_run_app st ts1 ts2 :
  parse_run st (ts1 ++ ts2) = st' ← parse_run st ts1; parse_run st' ts2.
Proof.
  revert st. induction ts1 as [|t ts1 IH]; intros st; simpl; [done|].
  destruct (parse_step st t); simpl; [apply IH|done].
Qed.

Lemma dict_set_fresh (cur : msg) k v :
  k ∉ cur.*1 → dict_set cur k v = cur ++ [(k, v)].
Proof.
  induction cur as [|[k' v'] cur IH]; simpl; [done|].
  rewrite not_elem_of_cons. intros [Hne Hk].
  rewrite decide_False by done. by rewrite IH.
Qed.

Lemma parse_items m : ∀ ds cur comma,
  m ≠ [] → NoDup (cur.*1 ++ m.*1) →
  parse_run (PDict ds cur comma) (join [TComma] (tokens_of_item <$> m))
  = Some (PValue ds (cur ++ m)).
Proof.
  induction m as [|[k v] m IH]; intros ds cur comma Hne Hnd; [done|].
  assert (Hk : k ∉ cur.*1).
  { apply NoDup_app in Hnd as (_ & Hd & _). intros Hin.
    apply (Hd _ Hin). by left. }
  destruct m as [|kv' m].
  - simpl. by rewrite dict_set_fresh.
  - change (join [TComma] (tokens_of_item <$> (k, v) :: kv' :: m))
      with ([TStr k; TColon; TStr v; TComma]
              ++ join [TComma] (tokens_of_item <$> kv' :: m)).
    rewrite parse_run_app. simpl parse_run at 2. rewrite dict_set_fresh by done.
    cbn [mbind option_bind]. rewrite IH; [by rewrite <- app_assoc|done|].
    rewrite fmap_app, <- app_assoc. done.
Qed.

Lemma parse_msg m ds comma :
  NoDup m.*1 →
  parse_run (PList ds comma) (tokens_of_msg m) = Some (PClosed (m ::  ds)).
Proof.
  intros Hnd. unfold tokens_of_msg. destruct m as [|kv m].
  - by destruct comma.
  - change ([TLBrace] ++ ?x) with (TLBrace :: x).
    cbn [parse_run]. replace (parse_step (PList ds comma) TLBrace)
      with (Some (PDict ds [] false)) by by destruct comma.
    cbn [mbind option_bind]. rewrite parse_run_app, parse_items by done.
    done.
Qed.

Lemma parse_msgs e : ∀ ds comma,
  e ≠ [] → Forall (λ m, NoDup m.*1) e →
  parse_run (PList ds comma) (join [TComma] (tokens_of_msg <$> e))
  = Some (PClosed (reverse e ++ ds)).
Proof.
  induction e as [|m e IH]; intros ds comma Hne He; [done|].
  apply Forall_cons in He as [Hm He]. destruct e as [|m' e].
  - simpl join. by rewrite parse_msg.
  - change (join [TComma] (tokens_of_msg <$> m :: m' :: e))
      with (tokens_of_msg m ++ [TComma]
              ++ join [TComma] (tokens_of_msg <$> m' :: e)).
    rewrite parse_run_app, parse_msg by done. cbn [mbind option_bind].
    rewrite parse_run_app. cbn [parse_run parse_step mbind option_bind].
    rewrite IH by done. rewrite (reverse_cons _ m), <- app_assoc. done.
Qed.

Lemma parse_exchange e :
  Forall (λ m, NoDup m.*1) e →
  parse_run PStart (tokens_of_exchange e) = Some (PEnd (reverse e)).
Proof.
  intros He. unfold tokens_of_exchange. destruct e as [|m e]; [done|].
  change ([TLBrack] ++ ?x) with (TLBrack :: x).
  cbn [parse_run parse_step mbind option_bind].
  rewrite parse_run_app, parse_msgs by done.
  cbn [mbind option_bind]. by rewrite app_nil_r.
Qed.

(** Reading back what was written: for an exchange of the basic plane,
    [ast.literal_eval(json.dumps(e))] is [e]. *)
Lemma literal_eval_dumps e :
  Forall basic_msg e → literal_eval (dumps_exchange e) = Some e.
Proof.
  intros He. unfold literal_eval. rewrite tokenize_exchange by done.
  cbn [mbind option_bind]. rewrite parse_exchange.
  - cbn [mbind option_bind parse_end]. by rewrite reverse_involutive.
  - eapply Forall_impl; [exact He|]. by intros m [? _].
Qed.

Lemma mapM_snd {A B} (g : A → option B) (l : list (label * A)) :
  mapM (λ r, g r.2) l = mapM g l.*2.
Proof.
  induction l as [|[i a] l IH]; [done|]. simpl. by rewrite IH.
Qed.

(** Exchanges of the basic plane come back from a new store as they went
    in, one after the other. *)
Lemma load_history_basic_plane A calls :
  Forall (λ c, Forall basic_msg (Runs.ic_exchange c)) calls →
  load_history (state_of (Runs.insert_all A new_store calls))
  = Some (concat (Runs.ic_exchange <$> calls)).
Proof.
  intros Hc.
  assert (Hm : messages (state_of (Runs.insert_all A new_store calls))
               = Runs.message_of <$> calls).
  { destruct calls as [|c cs]; [done|].
    change (Runs.insert_all A new_store (c :: cs))
      with (and_then (Runs.insert_call_on A new_store c)
              (λ db', Runs.insert_all A db' cs)).
    rewrite (insert_unpinned A new_store c) by done. cbn [and_then].
    rewrite insert_all_pinned by done. done. }
  unfold load_history, get_messages_dataframe. rewrite Hm.
  rewrite (mapM_snd (λ r, literal_eval (message_exchange r))).
  rewrite read_sql_query_values.
  assert (Hp : mapM (λ r, literal_eval (message_exchange r))
                 (Runs.message_of <$> calls)
               = Some (Runs.ic_exchange <$> calls)).
  { apply mapM_Some, Forall2_fmap, Forall_Forall2_diag.
    eapply Forall_impl; [exact Hc|]. intros c Hx. simpl.
    by apply literal_eval_dumps. }
  by rewrite Hp.
Qed.
End RoundTrip.

(** The scenario of the specification: one exchange, hello and hi, with
    the embedding [[1, 0]], goes into an empty store; the pin is the
    configured model and the history is that exchange. *)
Example one_exchange_end_to_end :
  get_embedding_model new_store = None
  ∧ get_embedding_model Scenario.one_exchange = Some Scenario.ada
  ∧ length (messages Scenario.one_exchange) = 1
  ∧ load_history Scenario.one_exchange = Some (Scenario.turn "hello" "hi").
Proof. vm_compute. done. Qed.

Section History.
Import EmbeddingsDatabase Runs ChatContext.

(** C10.  The exchange whose user message is U+1F600 does not come back
    from the store: [json.dumps] writes the character as a surrogate pair,
    and [ast.literal_eval] reads the pair as two characters. *)
Theorem load_history_astral :
  let db := state_of (insert_message_exchange Scenario.ada 10 10 new_store
                        Scenario.gpt4 Scenario.grin None) in
  message_exchange <$> messages db
    = [ jlit "[{'role': 'user', 'content': '\ud83d\ude00'}, "
          ++ jlit "{'role': 'assistant', 'content': 'hi'}]" ]
  ∧ load_history db
    = Some [ [(lit "role", lit "user"); (lit "content", [55357%N; 56832%N])];
             [(lit "role", lit "assistant"); (lit "content", lit "hi")] ]
  ∧ load_history db ≠ Some Scenario.grin
  ∧ ((λ h : list msg, msg_key <$> h) <$> load_history db)
    ≠ Some (msg_key <$> Scenario.grin).
Proof.
  split; [evaluated|]. split; [evaluated|].
  split; [vm_compute; intros [=]|].
  intros H. refuted H.
Qed.

(** C9.  [_make_list_of_context_msgs] returns the history it is given
    followed by one message of role system, named after the assistant,
    whose content is the directive; and [get_context] is this function on
    what the selector returns. *)
Theorem get_context_appends_directive :
  (∀ history system_name,
     _make_list_of_context_msgs history system_name
     = history ++ [ [ (lit "role", lit "system");
                      (lit "name", system_name);
                      (lit "content",
                       lit "Considering the previous messages, answer the next message:") ] ])
  ∧ (∀ (Query Score : Type) (similarity : pystr → Query → option Score)
       score_leb self db embedding system_name,
       get_context similarity score_leb self db embedding system_name
       = (λ history, _make_list_of_context_msgs history system_name)
           <$> select_relevant_history similarity score_leb self db embedding).
Proof.
  split; [done|]. intros. unfold get_context.
  by destruct (select_relevant_history _ _ _ _ _).
Qed.
End History.

(** * Further properties of the code *)

Section LedgerReport.
Import Tokens Runs.

Lemma Zsum_add {A} (f g : A → Z) (l : list A) :
  Zsum ((λ x, f x + g x)%Z <$> l) = (Zsum (f <$> l) + Zsum (g <$> l))%Z.
Proof.
  induction l as [|x l IH]; [done|].
  rewrite !fmap_cons. unfold Zsum in *. cbn [foldr]. rewrite IH. lia.
Qed.

Lemma query_elem db u :
  u ∈ query db ↔
  ∃ m, m ∈ model <$> db ∧ aggregate m (group db m) = Some u.
Proof.
  rewrite query_perm, list_elem_of_omap. split.
  - intros (m & [Hm _]%distinct_elem & Hu). eauto.
  - intros (m & Hm & Hu). exists m. split; [|done].
    apply distinct_elem. split; [done|apply not_elem_of_nil].
Qed.

Lemma query_row_totals db u :
  u ∈ query db →
  Tokens_Tot u = (Tokens_In u + Tokens_Out u)%Z.
Proof.
  intros (m & _ & Hu)%query_elem.
  apply aggregate_Some in Hu as (_ & -> & -> & -> & _).
  by rewrite Zsum_add.
Qed.

Lemma column_total_add {B U} (sum : list B → B) (add : B → B → B)
    (f g h : U → B) (us : list U) x y :
  (∀ l : list U, sum (h <$> l) = add (sum (f <$> l)) (sum (g <$> l))) →
  column_total sum (f <$> us) = Val x →
  column_total sum (g <$> us) = Val y →
  column_total sum (h <$> us) = Val (add x y).
Proof.
  intros Hadd. destruct us as [|u us]; [done|].
  rewrite !fmap_cons. simpl. intros [= <-] [= <-].
  by rewrite <- !fmap_cons, Hadd.
Qed.

Lemma Forall_eq_fmap {A B} (f g : A → B) (l : list A) :
  Forall (λ x, f x = g x) l → f <$> l = g <$> l.
Proof. induction 1; [done|]. rewrite !fmap_cons. congruence. Qed.

(** X1.  In every row of the frame of [get_usage_balance_dataframe], the
    row of totals included, the total of the tokens is the tokens in plus
    the tokens out. *)
Theorem usage_balance_row_totals db i r :
  (i, r) ∈ get_usage_balance_dataframe db →
  ∀ x y, r_Tokens_In r = Val x → r_Tokens_Out r = Val y →
         r_Tokens_Tot r = Val (x + y)%Z.
Proof.
  unfold get_usage_balance_dataframe, _group_columns_by_prefix,
    _add_totals_row.
  intros [Hin|Hin]%elem_of_app.
  - apply list_elem_of_fmap in Hin as ([j u] & [= -> ->] & Hu).
    assert (Hq : u ∈ query db).
    { rewrite <- (read_sql_query_values (query db)).
      apply list_elem_of_fmap. by exists (j, u). }
    apply query_row_totals in Hq as Ht. simpl.
    intros x y [= <-] [= <-]. congruence.
  - apply list_elem_of_singleton in Hin as [= -> ->].
    unfold sums. rewrite !read_sql_query_col. simpl.
    assert (Ht : Tokens_Tot <$> query db
                 = (λ u, Tokens_In u + Tokens_Out u)%Z <$> query db).
    { apply Forall_eq_fmap, Forall_forall. intros u Hu.
      by apply query_row_totals in Hu. }
    rewrite Ht. intros x y.
    apply (column_total_add Zsum Z.add). intros l. apply Zsum_add.
Qed.

Lemma usage_balance_row_totals_witness :
  let db := state_of (record_all [] Scenario.two_calls) in
  ∃ r, (Name (lit "Total"), r) ∈ get_usage_balance_dataframe db
       ∧ r_Tokens_In r = Val 110%Z ∧ r_Tokens_Out r = Val 55%Z
       ∧ r_Tokens_Tot r = Val (110 + 55)%Z.
Proof.
  intros db.
  assert (H : ∃ r, (Name (lit "Total"), r) ∈ get_usage_balance_dataframe db
                   ∧ r_Tokens_In r = Val 110%Z ∧ r_Tokens_Out r = Val 55%Z).
  { eexists. split; [|split].
    - apply list_elem_of_lookup. exists 1. reflexivity.
    - evaluated.
    - evaluated. }
  destruct H as (r & Hin & H1 & H2). exists r.
  split; [exact Hin|]. split; [exact H1|]. split; [exact H2|].
  exact (usage_balance_row_totals db _ r Hin _ _ H1 H2).
Defined.

Lemma imap_seq_const {A B} (g : nat → B) (l : list A) :
  imap (λ i _, g i) l = g <$> seq 0 (length l).
Proof.
  assert (H : ∀ n, imap (λ i _, g (n + i)) l = g <$> seq n (length l)).
  { induction l as [|x l IH]; intros n; [done|]. simpl.
    rewrite Nat.add_0_r. f_equal. rewrite <- IH. apply imap_ext.
    intros i y _. simpl. f_equal. lia. }
  apply (H 0).
Qed.

(** X2.  The rows of the models come in the order of their total tokens,
    largest first, labelled 0, 1, 2, ...; the row of totals is below
    them. *)
Theorem usage_balance_order db :
  let df := get_usage_balance_dataframe db in
  let n := length (query db) in
  df.*1 = (Pos <$> seq 0 n) ++ [Name (lit "Total")]
  ∧ take n (r_Tokens_Tot ∘ snd <$> df) = Val <$> (Tokens_Tot <$> query db)
  ∧ StronglySorted (λ a b, (b ≤ a)%Z) (Tokens_Tot <$> query db).
Proof.
  simpl. unfold get_usage_balance_dataframe, _group_columns_by_prefix,
    _add_totals_row. split; [|split].
  - rewrite fmap_app, <- list_fmap_compose. f_equal.
    unfold read_sql_query. generalize (query db). intros l.
    rewrite fmap_imap. apply (imap_seq_const Pos).
  - rewrite fmap_app, <- list_fmap_compose.
    rewrite take_app_length'.
    + rewrite <- (read_sql_query_col Tokens_Tot), <- list_fmap_compose. done.
    + rewrite !length_fmap. unfold read_sql_query. by rewrite length_imap.
  - unfold query. eapply StronglySorted_fmap; [|apply stable_sort_sorted].
    + intros x y Hxy. by apply Z.leb_le.
    + intros x y. destruct (Z.le_ge_cases (Tokens_Tot x) (Tokens_Tot y));
        [right|left]; by apply Z.leb_le.
    + intros x y z ?%Z.leb_le ?%Z.leb_le. apply Z.leb_le. lia.
Qed.




End LedgerReport.

Section TokenCountFacts.
Import Loops TokenCount.
Context {Encoding : Type}.
Context (encoding_for_model : pystr → option Encoding).
Context (cl100k_base : Encoding).
Context (encode : Encoding → pystr → option (list N)).

Lemma for_each_app {S A} (f : S → A → option S) s l1 l2 :
  for_each f s (l1 ++ l2) = s' ← for_each f s l1; for_each f s' l2.
Proof.
  revert s. induction l1 as [|x l1 IH]; intros s; simpl; [done|].
  destruct (f s x); simpl; [apply IH|done].
Qed.

(** A loop that only adds to its counter can start from any value. *)
Lemma for_each_shift {A} (f : Z → A → option Z) (l : list A) :
  (∀ n d x, f (n + d)%Z x = (λ r, (r + d)%Z) <$> f n x) →
  ∀ n d, for_each f (n + d)%Z l = (λ r, (r + d)%Z) <$> for_each f n l.
Proof.
  intros Hf. induction l as [|x l IH]; intros n d; simpl; [done|].
  rewrite Hf. destruct (f n x) as [r|]; simpl; [apply IH|done].
Qed.

Lemma count_item_shift enc n d kv :
  count_item encode enc (n + d)%Z kv
  = (λ r, (r + d)%Z) <$> count_item encode enc n kv.
Proof.
  unfold count_item. destruct (encode enc kv.2) as [ts|]; simpl; [|done].
  destruct (decide (kv.1 = lit "name")); simpl; f_equal; lia.
Qed.

Lemma count_message_shift enc n d m :
  count_message encode enc (n + d)%Z m
  = (λ r, (r + d)%Z) <$> count_message encode enc n m.
Proof.
  unfold count_message.
  replace (n + d + 4)%Z with (n + 4 + d)%Z by lia.
  apply for_each_shift. intros. apply count_item_shift.
Qed.

(** X4.  The estimate of no message is 2, and the estimate of two lists
    of messages put together is the sum of their estimates less 2: every
    message counts on its own, and the 2 tokens that prime the reply count
    once.  The call raises when one of the parts does. *)
Theorem get_n_tokens_from_msgs_app (ms1 ms2 : list msg) model :
  get_n_tokens_from_msgs encoding_for_model cl100k_base encode [] model
  = Some 2%Z
  ∧ get_n_tokens_from_msgs encoding_for_model cl100k_base encode
      (ms1 ++ ms2) model
    = (n1 ← get_n_tokens_from_msgs encoding_for_model cl100k_base encode
              ms1 model;
       n2 ← get_n_tokens_from_msgs encoding_for_model cl100k_base encode
              ms2 model;
       Some (n1 + n2 - 2)%Z).
Proof.
  split; [done|]. unfold get_n_tokens_from_msgs.
  set (enc := match encoding_for_model model with
              | Some e => e | None => cl100k_base end).
  rewrite for_each_app.
  destruct (for_each (count_message encode enc) 0%Z ms1) as [a|]; [|done].
  cbn [mbind option_bind].
  replace a with (0 + a)%Z at 1 by lia.
  rewrite (for_each_shift (count_message encode enc) ms2
             (count_message_shift enc) 0%Z a).
  destruct (for_each (count_message encode enc) 0%Z ms2) as [b|]; [|done].
  simpl. f_equal. lia.
Qed.

Lemma count_items_bound enc (m : list (pystr * pystr)) : ∀ n r,
  for_each (count_item encode enc) n m = Some r →
  (n - Z.of_nat (length (filter (λ kv, kv.1 = lit "name") m)) ≤ r)%Z.
Proof.
  induction m as [|kv m IH]; intros n r; cbn [for_each].
  - intros [= ->]. simpl. lia.
  - destruct (count_item encode enc n kv) as [s'|] eqn:E;
      cbn [mbind option_bind]; [|done].
    intros Hr%IH. unfold count_item in E.
    destruct (encode enc kv.2) as [ts|]; cbn [mbind option_bind] in E;
      [|done].
    injection E as <-. rewrite filter_cons.
    destruct (decide (kv.1 = lit "name")); rewrite ?length_cons; lia.
Qed.

Lemma filter_fst_absent {K V} `{EqDecision K} (d : list (K * V)) k :
  k ∉ d.*1 → filter (λ kv, kv.1 = k) d = [].
Proof.
  induction d as [|kv d IH]; [done|]. rewrite fmap_cons, not_elem_of_cons.
  intros [Hne Hd]. rewrite filter_cons_False by (simpl; congruence).
  by apply IH.
Qed.

(** A dict has the key [name] at most once. *)
Lemma name_once (m : list (pystr * pystr)) :
  NoDup m.*1 → length (filter (λ kv, kv.1 = lit "name") m) ≤ 1.
Proof.
  induction m as [|kv m IH]; [simpl; lia|]. rewrite fmap_cons.
  intros [Hk Hm]%NoDup_cons. rewrite filter_cons.
  destruct (decide (kv.1 = lit "name")) as [E|]; [|by apply IH].
  rewrite length_cons, filter_fst_absent; [simpl; lia|]. by rewrite <- E.
Qed.

Lemma count_messages_bound enc (ms : list msg) : ∀ n r,
  Forall (λ m : msg, NoDup m.*1) ms →
  for_each (count_message encode enc) n ms = Some r →
  (n + 3 * Z.of_nat (length ms) ≤ r)%Z.
Proof.
  induction ms as [|m ms IH]; intros n r Hms; cbn [for_each].
  - intros [= ->]. simpl. lia.
  - apply Forall_cons in Hms as [Hm Hms].
    destruct (count_message encode enc n m) as [s'|] eqn:E;
      cbn [mbind option_bind]; [|done].
    intros Hr. apply IH in Hr; [|done].
    apply count_items_bound in E. pose proof (name_once m Hm).
    rewrite length_cons. lia.
Qed.

(** X5.  Every message adds at least 3 to the estimate, and the reply 2:
    the key [name], which takes one token off, is in a dict once at
    most. *)
Theorem get_n_tokens_from_msgs_bound (messages : list msg) model n :
  Forall (λ m : msg, NoDup m.*1) messages →
  get_n_tokens_from_msgs encoding_for_model cl100k_base encode
    messages model = Some n →
  (2 + 3 * Z.of_nat (length messages) ≤ n)%Z.
Proof.
  intros Hms. unfold get_n_tokens_from_msgs.
  destruct (for_each _ _ _) as [r|] eqn:E; cbn [mbind option_bind]; [|done].
  intros [= <-]. apply count_messages_bound in E; [lia|done].
Qed.

End TokenCountFacts.

Section GptLedger.
Import GptBuddyBot GptBuddyBotRuns.

Lemma gpt_recorded_timestamp c : timestamp (recorded c) = rc_now c.
Proof. unfold recorded. by destruct (dict_get _ _). Qed.

Lemma gpt_insert_data_known db c :
  rc_model c ∈ Tokens.PRICE_PER_K_TOKENS.*1 →
  insert_data (rc_now c) db (Some (rc_model c)) (rc_input c) (rc_output c)
  = Ok (filter (λ r, timestamp r ≠ rc_now c) db ++ [recorded c]).
Proof.
  intros Hm. rewrite <- token_price_keys in Hm.
  destruct (dict_get_Some_elem _ _ Hm) as [p Hp].
  unfold insert_data, recorded, token_price, insert_or_replace. rewrite Hp.
  done.
Qed.

Lemma last_per_clock_elem calls c :
  c ∈ last_per_clock calls → c ∈ calls.
Proof.
  induction calls as [|c' cs IH]; simpl; [done|].
  destruct (decide _).
  - intros ?%IH. by right.
  - intros [->|?%IH]%elem_of_cons; [by left|by right].
Qed.

Lemma filter_all {A} (P : A → Prop) `{∀ x, Decision (P x)} (l : list A) :
  Forall P l → filter P l = l.
Proof.
  induction 1 as [|x l Hx Hl IH]; [done|].
  by rewrite filter_cons_True, IH.
Qed.

Lemma gpt_record_all_from calls : ∀ db,
  Forall (λ c, rc_model c ∈ Tokens.PRICE_PER_K_TOKENS.*1) calls →
  record_all db calls
  = Ok (filter (λ r, timestamp r ∉ rc_now <$> calls) db
          ++ (recorded <$> last_per_clock calls)).
Proof.
  induction calls as [|c cs IH]; intros db Hk.
  - simpl. rewrite app_nil_r, filter_all; [done|].
    apply Forall_forall. intros r _. apply not_elem_of_nil.
  - apply Forall_cons in Hk as [Hc Hcs].
    change (record_all db (c :: cs))
      with (and_then (insert_data (rc_now c) db (Some (rc_model c))
                        (rc_input c) (rc_output c))
              (λ db', record_all db' cs)).
    rewrite (gpt_insert_data_known db c Hc). cbn [and_then].
    rewrite (IH _ Hcs), filter_app, list_filter_filter, <- app_assoc.
    f_equal. f_equal.
    + apply list_filter_iff. intros r. rewrite fmap_cons.
      rewrite not_elem_of_cons. tauto.
    + rewrite filter_cons, filter_nil, gpt_recorded_timestamp.
      cbn [last_per_clock].
      destruct (decide (rc_now c ∈ rc_now <$> cs)) as [Hin|Hin];
        [rewrite decide_False by tauto|rewrite decide_True by done]; done.
Qed.

Lemma last_per_clock_NoDup calls :
  NoDup (rc_now <$> last_per_clock calls).
Proof.
  induction calls as [|c cs IH]; simpl; [constructor|].
  destruct (decide _) as [Hin|Hin]; [done|]. rewrite fmap_cons.
  constructor; [|done]. intros (c' & Hc' & Hl)%list_elem_of_fmap.
  apply Hin. rewrite Hc'. apply list_elem_of_fmap_2.
  by apply last_per_clock_elem.
Qed.

Lemma last_per_clock_all calls :
  NoDup (rc_now <$> calls) → last_per_clock calls = calls.
Proof.
  induction calls as [|c cs IH]; [done|]. rewrite fmap_cons.
  intros [Hc Hcs]%NoDup_cons. simpl. rewrite decide_False by done.
  by rewrite IH.
Qed.

Lemma last_per_clock_readings calls t :
  t ∈ rc_now <$> last_per_clock calls ↔ t ∈ rc_now <$> calls.
Proof.
  induction calls as [|c cs IH]; [done|]. cbn [last_per_clock].
  destruct (decide _) as [Hin|Hin].
  - rewrite IH, fmap_cons, elem_of_cons. split; [by right|].
    intros [->|?]; done.
  - by rewrite !fmap_cons, !elem_of_cons, IH.
Qed.

(** X6.  The ledger of [gpt_buddy_bot] keeps one row for every clock
    reading: after any calls with models of the rate table, the table holds
    the rows of the calls that were the last to read their clock value, in
    the order of the calls.  No two rows have the same timestamp; every
    clock reading has its row; and when the readings are all different,
    every call has its row. *)
Theorem gpt_buddy_bot_ledger_last_per_clock calls :
  Forall (λ c, rc_model c ∈ Tokens.PRICE_PER_K_TOKENS.*1) calls →
  ∃ db, record_all [] calls = Ok db
        ∧ db = recorded <$> last_per_clock calls
        ∧ NoDup (timestamp <$> db)
        ∧ (∀ t, t ∈ timestamp <$> db ↔ t ∈ rc_now <$> calls)
        ∧ (NoDup (rc_now <$> calls) → db = recorded <$> calls).
Proof.
  intros Hk. eexists. split; [by rewrite gpt_record_all_from|].
  rewrite filter_nil, app_nil_l. split; [done|].
  assert (Hts : timestamp <$> (recorded <$> last_per_clock calls)
                = rc_now <$> last_per_clock calls).
  { rewrite <- list_fmap_compose. apply list_fmap_ext.
    intros _ c _. apply gpt_recorded_timestamp. }
  rewrite Hts. split; [apply last_per_clock_NoDup|]. split.
  - apply last_per_clock_readings.
  - intros Hnd. by rewrite last_per_clock_all.
Qed.

End GptLedger.

Section GptReport.
Import Raising GptBuddyBotReport.


Lemma for_list_throw {A B} (f : A → outcome B) (l : list A) x :
  (∀ y e, f y = Throw e → e = KeyError) →
  x ∈ l → f x = Throw KeyError → for_list f l = Throw KeyError.
Proof.
  intros Hf Hx Hfx. induction l as [|y l IH]; [by apply elem_of_nil in Hx|].
  cbn [for_list]. destruct (f y) as [b|e] eqn:E.
  - cbn [mbind outcome_bind].
    apply elem_of_cons in Hx as [->|Hx]; [congruence|].
    by rewrite (IH Hx).
  - cbn [mbind outcome_bind]. by rewrite (Hf _ _ E).
Qed.

Lemma for_list_only_KeyError {A B} (f : A → outcome B) (l : list A) e :
  (∀ y e, f y = Throw e → e = KeyError) →
  for_list f l = Throw e → e = KeyError.
Proof.
  intros Hf. induction l as [|y l IH]; [done|]. cbn [for_list].
  destruct (f y) as [b|e'] eqn:E; cbn [mbind outcome_bind].
  - destruct (for_list f l) as [bs|e'']; cbn [mbind outcome_bind]; [done|].
    intros [= <-]. by apply IH.
  - intros [= <-]. by apply (Hf _ _ E).
Qed.

Lemma getitem_only_KeyError {V} (d : list (pystr * V)) k e :
  getitem d k = Throw e → e = KeyError.
Proof. unfold getitem. destruct (dict_get d k); [done|]. by intros [= <-]. Qed.

Lemma getitem_absent {V} (d : list (pystr * V)) k :
  k ∉ d.*1 → getitem d k = Throw KeyError.
Proof. intros H%dict_get_None. unfold getitem. by rewrite H. Qed.

Lemma cost_item_only_KeyError model (kv : pystr * Z) e :
  (price ← getitem GptBuddyBot.token_price model;
   x ← price_item price kv.1;
   Return (kv.1, (Tokens.of_int kv.2 * x)%Qc)) = Throw e →
  e = KeyError.
Proof.
  destruct (getitem _ model) as [p|e'] eqn:E; cbn [mbind outcome_bind].
  - unfold price_item. repeat case_match; cbn [mbind outcome_bind]; try done.
    by intros [= <-].
  - intros [= <-]. by apply getitem_only_KeyError in E.
Qed.

Lemma df_row_only_KeyError model u e :
  df_row model u = Throw e → e = KeyError.
Proof.
  unfold df_row.
  destruct (costs_of model u) as [cs|e'] eqn:E; cbn [mbind outcome_bind].
  - repeat (match goal with
            | |- context [getitem ?d ?k] =>
                let E' := fresh in
                destruct (getitem d k) eqn:E'; cbn [mbind outcome_bind];
                [|intros [= <-]; by apply getitem_only_KeyError in E']
            end).
    done.
  - intros [= <-]. eapply for_list_only_KeyError; [|exact E].
    intros y e0 Hy. exact (cost_item_only_KeyError model y e0 Hy).
Qed.

Lemma df_rows_only_KeyError items e :
  df_rows items = Throw e → e = KeyError.
Proof.
  induction items as [|[[model|] u] items IH]; cbn [df_rows]; [done| |done].
  destruct (df_row model u) as [r|e'] eqn:E; cbn [mbind outcome_bind].
  - destruct (df_rows items) as [rs|e'']; cbn [mbind outcome_bind]; [done|].
    intros [= <-]. by apply IH.
  - intros [= <-]. by apply df_row_only_KeyError in E.
Qed.

(** The row of a model that is not in the rate table, or of a usage
    that is not made of the keys [input] and [output], raises. *)
Lemma df_row_raises model (u : list (pystr * Z)) :
  model ∉ Tokens.PRICE_PER_K_TOKENS.*1
  ∨ lit "input" ∉ u.*1
  ∨ lit "output" ∉ u.*1
  ∨ (∃ k, k ∈ u.*1 ∧ k ≠ lit "input" ∧ k ≠ lit "output") →
  df_row model u = Throw KeyError.
Proof.
  intros Hbad.
  destruct (df_row model u) as [r|e] eqn:E;
    [|by rewrite (df_row_only_KeyError _ _ _ E)].
  exfalso. unfold df_row in E.
  destruct (costs_of model u) as [cs|] eqn:Ec; cbn [mbind outcome_bind] in E;
    [|done].
  destruct (getitem u (lit "input")) as [ti|] eqn:Ei;
    cbn [mbind outcome_bind] in E; [|done].
  destruct (getitem u (lit "output")) as [to|] eqn:Eo;
    cbn [mbind outcome_bind] in E; [|done].
  assert (Hi : lit "input" ∈ u.*1).
  { destruct (decide (lit "input" ∈ u.*1)) as [|Hn]; [done|].
    by rewrite (getitem_absent _ _ Hn) in Ei. }
  assert (Ho : lit "output" ∈ u.*1).
  { destruct (decide (lit "output" ∈ u.*1)) as [|Hn]; [done|].
    by rewrite (getitem_absent _ _ Hn) in Eo. }
  destruct Hbad as [Hm|[?|[?|(k & Hk & Hki & Hko)]]]; try done.
  - apply list_elem_of_fmap in Hi as (kv & _ & Hkv).
    unfold costs_of in Ec.
    erewrite for_list_throw in Ec; [done| |exact Hkv|].
    + intros y e0 Hy. exact (cost_item_only_KeyError model y e0 Hy).
    + rewrite getitem_absent; [done|]. exact Hm.
  - apply list_elem_of_fmap in Hk as (kv & -> & Hkv).
    unfold costs_of in Ec.
    erewrite for_list_throw in Ec; [done| |exact Hkv|].
    + intros y e0 Hy. exact (cost_item_only_KeyError model y e0 Hy).
    + destruct (getitem _ model) as [p|e] eqn:Eg; cbn [mbind outcome_bind].
      * unfold price_item. by rewrite !decide_False.
      * by rewrite (getitem_only_KeyError _ _ _ Eg).
Qed.

(** X7.  [get_current_chat_usage_dataframe] raises KeyError when the
    usage of the chat names a model that is not in the rate table, or when
    the usage of a model lacks the key [input] or the key [output], or has
    a key other than these two. *)
Theorem current_chat_usage_raises items model (u : list (pystr * Z)) :
  (Some model, u) ∈ items →
  model ∉ Tokens.PRICE_PER_K_TOKENS.*1
  ∨ lit "input" ∉ u.*1
  ∨ lit "output" ∉ u.*1
  ∨ (∃ k, k ∈ u.*1 ∧ k ≠ lit "input" ∧ k ≠ lit "output") →
  get_current_chat_usage_dataframe items = Throw KeyError.
Proof.
  intros Hin Hbad. unfold get_current_chat_usage_dataframe.
  assert (H : df_rows items = Throw KeyError); [|by rewrite H].
  induction items as [|[[model'|] u'] items IH]; cbn [df_rows].
  - by apply elem_of_nil in Hin.
  - apply elem_of_cons in Hin as [[= <- <-]|Hin].
    + by rewrite (df_row_raises _ _ Hbad).
    + destruct (df_row model' u') as [r|e] eqn:E; cbn [mbind outcome_bind].
      * by rewrite (IH Hin).
      * by rewrite (df_row_only_KeyError _ _ _ E).
  - apply elem_of_cons in Hin as [[=]|Hin]. by apply IH.
Qed.




End GptReport.

Section StoreSessions.
Import EmbeddingsDatabase Runs Sessions.

Lemma create_trigger_names g gs :
  trigger_name g ∈ trigger_name <$> create_trigger g gs.
Proof.
  unfold create_trigger. destruct (decide _) as [Hin|Hin]; [done|].
  rewrite fmap_app, elem_of_app. right. by left.
Qed.

Lemma create_trigger_keeps g gs x : x ∈ gs → x ∈ create_trigger g gs.
Proof.
  unfold create_trigger. destruct (decide _); [done|].
  intros ?. apply elem_of_app. by left.
Qed.

Lemma create_trigger_present g gs :
  trigger_name g ∈ trigger_name <$> gs → create_trigger g gs = gs.
Proof. intros Hin. unfold create_trigger. by rewrite decide_True. Qed.

(** X9.  [create], which runs every time a store object is made, can be
    run again at will: what it gives on a file it has already been run on
    is that file.  It adds triggers and never removes one, and it
    leaves the rows of both tables alone. *)
Theorem create_idempotent db :
  create (create db) = create db
  ∧ embedding_model (create db) = embedding_model db
  ∧ messages (create db) = messages db
  ∧ (∀ g, g ∈ triggers db → g ∈ triggers (create db))
  ∧ (lit "prevent_embedding_model_modification"
       ∈ trigger_name <$> triggers (create db))
  ∧ (lit "prevent_messages_modification"
       ∈ trigger_name <$> triggers (create db)).
Proof.
  assert (H1 : lit "prevent_embedding_model_modification"
               ∈ trigger_name <$> triggers (create db)).
  { unfold create. cbn [triggers]. apply list_elem_of_fmap.
    pose proof (create_trigger_names prevent_embedding_model_modification
                  (triggers db)) as H.
    apply list_elem_of_fmap in H as (g & Hg & Hin). exists g.
    split; [done|]. by apply create_trigger_keeps. }
  assert (H2 : lit "prevent_messages_modification"
               ∈ trigger_name <$> triggers (create db)).
  { unfold create. cbn [triggers].
    apply (create_trigger_names prevent_messages_modification). }
  split; [|split; [done|split; [done|split; [|done]]]].
  - unfold create at 1. cbn [embedding_model messages].
    rewrite (create_trigger_present prevent_embedding_model_modification)
      by exact H1.
    rewrite (create_trigger_present prevent_messages_modification)
      by exact H2.
    by destruct db.
  - intros g Hg. unfold create. cbn [triggers].
    by do 2 apply create_trigger_keeps.
Qed.

Lemma state_of_Ok {S} (s : S) : state_of (Ok s) = s.
Proof. done. Qed.

Lemma inserts_Insert m c actions :
  inserts (Insert m c :: actions) = (m, c) :: inserts actions.
Proof. done. Qed.

Lemma inserts_Create actions : inserts (Create :: actions) = inserts actions.
Proof. done. Qed.

(** A session on a store that has its pin. *)
Lemma run_pinned actions : ∀ db t A,
  Forall (λ a, class_call a = true) actions →
  opened db → embedding_model db = [Pin t A] →
  embedding_model (run db actions) = [Pin t A]
  ∧ messages (run db actions)
    = messages db ++ (message_of <$> inserts_under A actions).
Proof.
  induction actions as [|a actions IH]; intros db t A Hc Ho Hp.
  - simpl. by rewrite app_nil_r.
  - apply Forall_cons in Hc as [Ha Hc].
    assert (Hg : get_embedding_model db = Some A).
    { unfold get_embedding_model. by rewrite Hp. }
    change (run db (a :: actions)) with (run (step db a) actions).
    destruct a as [|m c|s]; [| |done].
    + change (step db Create) with (create db).
      rewrite (create_opened db Ho). unfold inserts_under.
      rewrite inserts_Create. by apply IH.
    + change (step db (Insert m c)) with (state_of (insert_call_on m db c)).
      unfold inserts_under. rewrite inserts_Insert, filter_cons.
      cbn [fst]. destruct (decide (m = A)) as [->|Hne].
      * rewrite (insert_pinned A db c Ho Hg), state_of_Ok.
        destruct (IH (Database (triggers db) (embedding_model db)
                        (messages db ++ [message_of c])) t A Hc)
          as [IH1 IH2]; [done|done|].
        split; [done|]. rewrite IH2. cbn [messages].
        rewrite fmap_cons, fmap_cons. cbn [snd].
        by rewrite <- app_assoc.
      * assert (Hr : insert_call_on m db c = Raise ValueError db).
        { unfold insert_call_on, insert_message_exchange. rewrite Hg.
          by rewrite decide_True by congruence. }
        rewrite Hr. by apply IH.
Qed.

(** X10.  Whatever store objects, configured with whatever models, open a
    new file and insert into it, the pin is written once, by the first
    insert, with the model of that insert; from then on it never changes.
    The inserts made under that model are stored, in their order; those
    made under another model raise and leave no row. *)
Theorem pin_is_first_model actions :
  Forall (λ a, class_call a = true) actions →
  let db := run new_store actions in
  match inserts actions with
  | [] => embedding_model db = [] ∧ messages db = []
  | (A, c0) :: _ =>
      embedding_model db = [Pin (ic_create_time c0) A]
      ∧ get_embedding_model db = Some A
      ∧ messages db = message_of <$> inserts_under A actions
  end.
Proof.
  intros Hc. simpl.
  assert (H : ∀ db, opened db → embedding_model db = [] → messages db = [] →
              match inserts actions with
              | [] => embedding_model (run db actions) = []
                      ∧ messages (run db actions) = []
              | (A, c0) :: _ =>
                  embedding_model (run db actions)
                  = [Pin (ic_create_time c0) A]
                  ∧ get_embedding_model (run db actions) = Some A
                  ∧ messages (run db actions)
                    = message_of <$> inserts_under A actions
              end); [|by apply H].
  induction actions as [|a actions IH]; intros db Ho Hp Hm; [done|].
  apply Forall_cons in Hc as [Ha Hc].
  change (run db (a :: actions)) with (run (step db a) actions).
  destruct a as [|m c|s]; [| |done].
  - change (step db Create) with (create db).
    rewrite (create_opened db Ho). exact (IH Hc db Ho Hp Hm).
  - change (step db (Insert m c)) with (state_of (insert_call_on m db c)).
    rewrite (insert_unpinned m db c Ho Hp), state_of_Ok.
    rewrite inserts_Insert.
    destruct (run_pinned actions
                (Database (triggers db) [Pin (ic_create_time c) m]
                   (messages db ++ [message_of c]))
                (ic_create_time c) m Hc) as [H1 H2]; [done|done|].
    split; [done|]. split.
    + unfold get_embedding_model. by rewrite H1.
    + rewrite H2. cbn [messages]. rewrite Hm. unfold inserts_under.
      rewrite inserts_Insert, filter_cons_True by done.
      by rewrite !fmap_cons.
Qed.

End StoreSessions.

Section SelectorBounds.
Context {Query Score : Type}.
Context (similarity : pystr → Query → option Score).
Context (score_leb : Score → Score → bool).
Implicit Types (df : list (label * @scored Score)).

Lemma select_inv history_df embedding k_sim k_recent out :
  _select_relevant_history similarity score_leb history_df embedding
    k_sim k_recent = Some out →
  ∃ df S T,
    add_similarity similarity history_df embedding = Some df
    ∧ parsed (df_similar_chats score_leb df k_sim) = Some S
    ∧ parsed (df_last_n_chats df k_recent) = Some T
    ∧ selected_series score_leb df k_sim k_recent
      = Some (drop_duplicates exchange_key (S ++ T))
    ∧ out = concat (tolist (drop_duplicates exchange_key (S ++ T))).
Proof.
  unfold _select_relevant_history.
  destruct (add_similarity _ _ _) as [df|] eqn:Hdf;
    cbn [mbind option_bind]; [|done].
  destruct (selected_series _ _ _ _) as [s|] eqn:Hs;
    cbn [mbind option_bind]; [|done].
  intros [= <-]. unfold selected_series, df_context in Hs.
  destruct (parsed (_ ++ _)) as [p|] eqn:Hp; cbn [mbind option_bind] in Hs;
    [|done].
  injection Hs as <-.
  assert (H1 : is_Some (parsed (df_similar_chats score_leb df k_sim))).
  { eapply (mapM_sublist _ _ _ _ Hp). apply sublist_inserts_r. done. }
  assert (H2 : is_Some (parsed (df_last_n_chats df k_recent))).
  { eapply (mapM_sublist _ _ _ _ Hp). apply sublist_inserts_l. done. }
  destruct H1 as [S HS], H2 as [T HT].
  pose proof (parsed_app _ _ _ _ HS HT) as Hp'. rewrite Hp in Hp'.
  injection Hp' as ->. exists df, S, T.
  split; [done|]. split; [done|]. split; [done|]. split; [|done].
  by apply selected_series_eq.
Qed.

Lemma add_similarity_elem history_df embedding df d :
  add_similarity similarity history_df embedding = Some df →
  d ∈ df → (d.1, row d.2) ∈ history_df.
Proof.
  unfold add_similarity. rewrite mapM_Some. intros HF [i Hi]%list_elem_of_lookup_1.
  destruct (Forall2_lookup_r _ _ _ _ _ HF Hi) as (r & Hr & Hf).
  destruct (similarity _ _) as [x|]; simplify_eq/=.
  apply list_elem_of_lookup_2 in Hr. by destruct r.
Qed.

(** X12.  The selector returns stored messages only: every message of
    its result is a message of an exchange read from a row of the
    history. *)
Theorem selected_from_history history_df embedding k_sim k_recent out m :
  _select_relevant_history similarity score_leb history_df embedding
    k_sim k_recent = Some out →
  m ∈ out →
  ∃ r e, r ∈ history_df
         ∧ Ast.literal_eval (message_exchange r.2) = Some e
         ∧ m ∈ e.
Proof.
  intros (df & S & T & Hdf & HS & HT & _ & ->)%select_inv Hm.
  apply elem_of_concat in Hm as (e & Hme & He).
  unfold tolist in He.
  assert (He' : e ∈ (S ++ T).*2).
  { apply list_elem_of_fmap in He as (x & -> & Hx).
    apply list_elem_of_fmap_2.
    eapply elem_of_sublist; [exact Hx|apply dd_sublist]. }
  rewrite fmap_app, elem_of_app in He'.
  assert (Hd : ∃ d, d ∈ df
                 ∧ Ast.literal_eval (message_exchange (row d.2)) = Some e).
  { destruct He' as [He'|He'].
    - apply (parsed_values _ _ _ HS) in He' as (d & Hd & Hde).
      exists d. split; [by apply (similar_sub score_leb df k_sim)|done].
    - apply (parsed_values _ _ _ HT) in He' as (d & Hd & Hde).
      exists d. split; [by apply (last_sub df k_recent)|done]. }
  destruct Hd as (d & Hd & Hde).
  exists (d.1, row d.2), e. split; [|done].
  by eapply add_similarity_elem.
Qed.

Lemma head_length {A} (n : Z) (l : list A) :
  (0 ≤ n)%Z → length (head n l) ≤ Z.to_nat n.
Proof.
  intros Hn. unfold head. rewrite (proj2 (Z.leb_le 0 n)) by done.
  rewrite length_take. lia.
Qed.

Lemma tail_length {A} (n : Z) (l : list A) :
  (0 ≤ n)%Z → length (tail n l) ≤ Z.to_nat n.
Proof.
  intros Hn. unfold tail. destruct (n =? 0)%Z eqn:E0; [simpl; lia|].
  apply Z.eqb_neq in E0. rewrite (proj2 (Z.ltb_lt 0 n)) by lia.
  rewrite length_drop. lia.
Qed.

(** X13.  With window sizes that are not negative, the selector returns
    at most [k_sim + k_recent] exchanges, 7 with the defaults, however long
    the history is. *)
Theorem selected_at_most history_df embedding k_sim k_recent df s :
  (0 ≤ k_sim)%Z → (0 ≤ k_recent)%Z →
  add_similarity similarity history_df embedding = Some df →
  selected_series score_leb df k_sim k_recent = Some s →
  _select_relevant_history similarity score_leb history_df embedding
    k_sim k_recent = Some (concat (tolist s))
  ∧ (Z.of_nat (length s) ≤ k_sim + k_recent)%Z.
Proof.
  intros H1 H2 Hdf Hs. split; [by eapply select_eq|].
  unfold selected_series, df_context in Hs.
  destruct (parsed (_ ++ _)) as [p|] eqn:Hp; cbn [mbind option_bind] in Hs;
    [|done].
  injection Hs as <-.
  pose proof (sublist_length _ _ (dd_sublist exchange_key [] p)) as Hl.
  unfold drop_duplicates.
  apply length_mapM in Hp. rewrite length_app in Hp.
  assert (length (df_similar_chats score_leb df k_sim) ≤ Z.to_nat k_sim).
  { unfold df_similar_chats. rewrite sort_values_perm. by apply head_length. }
  assert (length (df_last_n_chats df k_recent) ≤ Z.to_nat k_recent).
  { by apply tail_length. }
  lia.
Qed.

Lemma add_similarity_fmap history_df embedding df :
  add_similarity similarity history_df embedding = Some df →
  (λ d, (d.1, row d.2)) <$> df = history_df.
Proof.
  unfold add_similarity. rewrite mapM_Some.
  induction 1 as [|r p ?? Hr HF IH]; [done|].
  destruct (similarity _ _); simplify_eq/=. by destruct r.
Qed.

Lemma tail_fmap {A B} (f : A → B) (n : Z) (l : list A) :
  tail n (f <$> l) = f <$> tail n l.
Proof.
  unfold tail. rewrite length_fmap.
  repeat case_match; by rewrite ?fmap_drop.
Qed.

Lemma key_in_selected (S T : list (label * exchange)) e :
  e ∈ (S ++ T).*2 →
  ∀ m, m ∈ e →
    msg_key m
    ∈ msg_key <$> concat (tolist (drop_duplicates exchange_key (S ++ T))).
Proof.
  intros He m Hm.
  assert (Hk : exchange_key e
               ∈ exchange_key
                   <$> (drop_duplicates exchange_key (S ++ T)).*2).
  { apply dd_keys. split; [by apply list_elem_of_fmap_2|].
    apply not_elem_of_nil. }
  apply list_elem_of_fmap in Hk as (e' & Hee & He').
  assert (Hm' : msg_key m ∈ msg_key <$> e').
  { change (msg_key <$> e') with (exchange_key e'). rewrite <- Hee.
    by apply list_elem_of_fmap_2. }
  apply list_elem_of_fmap in Hm' as (m' & -> & Hm').
  apply list_elem_of_fmap_2, elem_of_concat. eauto.
Qed.

(** X14.  The last [k_recent] exchanges of the history are always in the
    context: when the selector returns, every message of each of them is
    in the result. *)
Theorem last_exchanges_selected history_df embedding k_sim k_recent out
    r e m :
  _select_relevant_history similarity score_leb history_df embedding
    k_sim k_recent = Some out →
  r ∈ tail k_recent history_df →
  Ast.literal_eval (message_exchange r.2) = Some e →
  m ∈ e →
  msg_key m ∈ msg_key <$> out.
Proof.
  intros (df & S & T & Hdf & HS & HT & _ & ->)%select_inv Hr He Hm.
  apply key_in_selected with e; [|done].
  rewrite fmap_app, elem_of_app. right.
  apply (parsed_values _ _ _ HT).
  rewrite <- (add_similarity_fmap _ _ _ Hdf), tail_fmap in Hr.
  apply list_elem_of_fmap in Hr as (d & -> & Hd).
  exists d. split; [done|]. exact He.
Qed.

(** Rows in the order of their timestamps, no two of which are equal,
    are put back in their order by a sort on the timestamp. *)
Lemma sort_by_timestamp_back df df' :
  df' ≡ₚ df →
  StronglySorted Z.lt ((λ d, timestamp (row d.2)) <$> df) →
  sort_values Z.leb (timestamp ∘ row) true df' = df.
Proof.
  intros Hp Hs. unfold sort_values.
  set (R := λ a b : label * @scored Score,
              Z.leb ((timestamp ∘ row) a.2) ((timestamp ∘ row) b.2) = true).
  assert (Hsorted : StronglySorted R df).
  { clear -Hs. induction df as [|d df IH]; [constructor|].
    rewrite fmap_cons in Hs. apply StronglySorted_cons in Hs as [Hd Hs].
    constructor; [by apply IH|]. apply Forall_forall. intros x Hx.
    rewrite Forall_forall in Hd.
    unfold R. simpl. apply Z.leb_le.
    assert (timestamp (row d.2) < timestamp (row x.2))%Z; [|lia].
    apply Hd. by apply (list_elem_of_fmap_2 (λ d, timestamp (row d.2))). }
  apply (StronglySorted_unique_strong R); [| |done|].
  - intros x1 x2 Hx1 Hx2 H12 H21. unfold R in *. simpl in *.
    apply Z.leb_le in H12, H21.
    assert (Heq : timestamp (row x1.2) = timestamp (row x2.2)) by lia.
    rewrite stable_sort_perm, Hp in Hx1. clear -Hs Hx1 Hx2 Heq.
    induction df as [|d df IH]; [by apply elem_of_nil in Hx1|].
    rewrite fmap_cons in Hs. apply StronglySorted_cons in Hs as [Hd Hs].
    rewrite Forall_forall in Hd.
    apply elem_of_cons in Hx1 as [->|Hx1], Hx2 as [->|Hx2]; [done|..].
    + apply (list_elem_of_fmap_2 (λ d, timestamp (row d.2))) in Hx2.
      apply Hd in Hx2. lia.
    + apply (list_elem_of_fmap_2 (λ d, timestamp (row d.2))) in Hx1.
      apply Hd in Hx1. lia.
    + by apply IH.
  - apply stable_sort_sorted.
    + intros x y. unfold R.
      destruct (Z.le_ge_cases (timestamp (row x.2)) (timestamp (row y.2)));
        [left|right]; by apply Z.leb_le.
    + intros x y z ?%Z.leb_le ?%Z.leb_le. apply Z.leb_le. simpl in *. lia.
  - by rewrite stable_sort_perm.
Qed.

Lemma dd_all_seen {V K} `{EqDecision K} (key : V → K) seen
    (s : list (label * V)) :
  (∀ x, x ∈ s → key x.2 ∈ seen) → drop_duplicates_from key seen s = [].
Proof.
  induction s as [|[i v] s IH]; intros Hs; [done|]. simpl.
  rewrite decide_True by (apply (Hs (i, v)); by left).
  apply IH. intros x Hx. apply Hs. by right.
Qed.

Lemma dd_NoDup_id {V K} `{EqDecision K} (key : V → K) seen
    (s : list (label * V)) :
  NoDup (key <$> s.*2) → (∀ x, x ∈ s → key x.2 ∉ seen) →
  drop_duplicates_from key seen s = s.
Proof.
  revert seen. induction s as [|[i v] s IH]; intros seen Hnd Hs; [done|].
  simpl in *. apply NoDup_cons in Hnd as [Hv Hnd].
  rewrite decide_False by (apply (Hs (i, v)); by left).
  f_equal. apply IH; [done|]. intros x Hx.
  rewrite not_elem_of_cons. split; [|apply Hs; by right].
  intros Heq. apply Hv. rewrite <- Heq.
  apply list_elem_of_fmap_2. by apply list_elem_of_fmap_2.
Qed.

(** X15.  On a history of at most [k_sim] rows, stored at clock readings
    that grow from row to row and holding no exchange twice, the selector
    of the embedding-based context returns what the full-history context
    returns: every stored message, in storage order. *)
Theorem selected_is_full_history db embedding k_sim k_recent df all :
  add_similarity similarity (get_messages_dataframe db) embedding = Some df →
  parsed df = Some all →
  (Z.of_nat (length (messages db)) ≤ k_sim)%Z →
  StronglySorted Z.lt (timestamp <$> messages db) →
  NoDup (exchange_key <$> all.*2) →
  _select_relevant_history similarity score_leb (get_messages_dataframe db)
    embedding k_sim k_recent = Some (concat all.*2)
  ∧ load_history db = Some (concat all.*2).
Proof.
  intros Hdf Hall Hlen Hts Hnd.
  assert (Hrows : (row ∘ snd) <$> df = messages db).
  { rewrite (add_similarity_rows _ _ _ _ Hdf).
    apply read_sql_query_values. }
  assert (Hts' : StronglySorted Z.lt ((λ d, timestamp (row d.2)) <$> df)).
  { rewrite <- Hrows, <- list_fmap_compose in Hts. exact Hts. }
  assert (HS : df_similar_chats score_leb df k_sim = df).
  { unfold df_similar_chats. apply sort_by_timestamp_back; [|done].
    rewrite head_all; [apply sort_values_perm|].
    rewrite sort_values_perm, (add_similarity_length _ _ _ _ Hdf).
    unfold get_messages_dataframe, read_sql_query. by rewrite length_imap. }
  destruct (parsed_subseteq _ _ _ Hall (last_sub df k_recent)) as [T HT].
  assert (Hsel : selected_series score_leb df k_sim k_recent = Some all).
  { rewrite (selected_series_eq score_leb df k_sim k_recent all T);
      [|by rewrite HS|done].
    f_equal. unfold drop_duplicates. rewrite dd_app.
    rewrite dd_NoDup_id; [|done|intros; apply not_elem_of_nil].
    rewrite dd_all_seen; [by rewrite app_nil_r|].
    intros x Hx. rewrite app_nil_r. apply list_elem_of_fmap_2.
    assert (Hx2 : x.2 ∈ T.*2) by by apply list_elem_of_fmap_2.
    apply (parsed_values _ _ _ HT) in Hx2 as (d & Hd & Hde).
    apply (parsed_values _ _ _ Hall). exists d.
    split; [by apply (last_sub df k_recent)|done]. }
  split; [by rewrite (select_eq _ _ _ _ _ _ _ _ Hdf Hsel)|].
  unfold load_history.
  match goal with
  | |- (?x ≫= _) = _ => assert (Hm : x = Some all.*2)
  end.
  { rewrite (mapM_snd (λ r, Ast.literal_eval (message_exchange r))).
    unfold get_messages_dataframe. rewrite read_sql_query_values, <- Hrows.
    apply mapM_Some. rewrite parsed_eq, mapM_Some in Hall.
    clear -Hall. induction Hall as [|d p df all Hd HF IH]; [constructor|].
    rewrite !fmap_cons. constructor; [|done]. unfold parse_row in Hd.
    simpl. destruct (Ast.literal_eval _); simplify_eq/=. done. }
  by rewrite Hm.
Qed.

End SelectorBounds.

Section ChatCallsFacts.
Import EmbeddingsDatabase ChatContext Str ChatCalls.
Context (Embedding_create : pystr → pystr → answer).

Lemma insert_usage_known now now' db model p a :
  dict_get Tokens.token_price model = Some p →
  insert_usage now now' db model
    (UsageDict (usage_prompt_tokens a)
       (usage_total_tokens a - usage_prompt_tokens a))
  = Ok (db ++ usage_rows now now' model p a).
Proof.
  intros Hp. unfold insert_usage, Tokens.insert_data.
  rewrite Hp. cbn [and_then]. by rewrite <- app_assoc.
Qed.

Lemma request_embedding_for_text_known self clock fs text :
  context_model self ∈ Tokens.PRICE_PER_K_TOKENS.*1 →
  let a := Embedding_create (strip text) (context_model self) in
  ∃ p, dict_get Tokens.token_price (context_model self) = Some p
       ∧ request_embedding_for_text Embedding_create self clock fs text
         = Returns (data_0_embedding a)
             (Files
                (general_token_usage_db fs
                 ++ usage_rows (clock 0) (clock 1) (context_model self) p a)
                (token_usage_db fs
                 ++ usage_rows (clock 2) (clock 3) (context_model self) p a)
                (database fs)).
Proof.
  intros Hm. simpl. rewrite <- token_price_keys in Hm.
  destruct (dict_get_Some_elem _ _ Hm) as [p Hp]. exists p.
  split; [done|]. unfold request_embedding_for_text.
  unfold request_embedding_from_openai. cbn [tokens_usage request_embedding_].
  by rewrite !(insert_usage_known _ _ _ _ p).
Qed.

(** X16.  A request for an embedding under a model of the rate table
    returns the vector the provider gives for the stripped text, under the
    context model of the chat, and adds two rows to each of the two ledgers:
    one with the prompt tokens as tokens in, one with the other tokens of
    the request as tokens out, which together are the total tokens of the
    request.  The exchange store is not touched. *)
Theorem request_embedding_for_text_records self clock fs text :
  context_model self ∈ Tokens.PRICE_PER_K_TOKENS.*1 →
  let a := Embedding_create (strip text) (context_model self) in
  ∃ p fs',
    dict_get Tokens.token_price (context_model self) = Some p
    ∧ request_embedding_for_text Embedding_create self clock fs text
      = Returns (data_0_embedding a) fs'
    ∧ general_token_usage_db fs'
      = general_token_usage_db fs
        ++ usage_rows (clock 0) (clock 1) (context_model self) p a
    ∧ token_usage_db fs'
      = token_usage_db fs
        ++ usage_rows (clock 2) (clock 3) (context_model self) p a
    ∧ database fs' = database fs
    ∧ Zsum ((λ r, Tokens.n_input_tokens r + Tokens.n_output_tokens r)%Z
              <$> usage_rows (clock 0) (clock 1) (context_model self) p a)
      = usage_total_tokens a.
Proof.
  intros Hm a.
  destruct (request_embedding_for_text_known self clock fs text Hm)
    as (p & Hp & Hreq).
  eexists p, _. split; [done|]. split; [exact Hreq|].
  cbn [general_token_usage_db token_usage_db database].
  split; [done|]. split; [done|]. split; [done|].
  unfold usage_rows, Zsum. simpl. lia.
Qed.

(** X17.  Under a context model that is not in the rate table the request
    raises KeyError, whatever the provider answers: nothing is written to
    either ledger, and [add_to_history] stores no exchange. *)
Theorem request_embedding_unknown_model self clock fs text
    create_time now msg_list :
  context_model self ∉ Tokens.PRICE_PER_K_TOKENS.*1 →
  request_embedding_for_text Embedding_create self clock fs text
  = Raises KeyError fs
  ∧ files_of (add_to_history Embedding_create EmbeddingBasedChatContext
                self clock create_time now fs msg_list) = fs.
Proof.
  intros Hm. rewrite <- token_price_keys in Hm. apply dict_get_None in Hm.
  assert (H : ∀ text, request_embedding_for_text Embedding_create self
                        clock fs text = Raises KeyError fs).
  { intros t. unfold request_embedding_for_text, request_embedding_from_openai.
    cbn [tokens_usage]. unfold insert_usage, Tokens.insert_data.
    rewrite Hm. cbn [and_then]. by destruct fs. }
  split; [apply H|]. unfold add_to_history, request_embedding.
  destruct (mapM line_of msg_list); [|done]. by rewrite H.
Qed.

Lemma load_history_insert db r h e :
  load_history db = Some h →
  Ast.literal_eval (message_exchange r) = Some e →
  load_history (Database (triggers db) (embedding_model db)
                  (messages db ++ [r])) = Some (h ++ e).
Proof.
  unfold load_history, get_messages_dataframe. cbn [messages].
  rewrite !(mapM_snd (λ r, Ast.literal_eval (message_exchange r))).
  rewrite !read_sql_query_values. intros Hh He.
  destruct (mapM _ (messages db)) as [es|] eqn:Hes;
    cbn [mbind option_bind] in Hh; [|done].
  injection Hh as <-.
  rewrite (mapM_app_Some _ _ [r] es [e] Hes).
  - cbn [mbind option_bind]. rewrite concat_app. simpl.
    by rewrite app_nil_r.
  - simpl. by rewrite He.
Qed.

Lemma insert_message_exchange_opened A create_time now db chat_model
    exchange embedding :
  Runs.opened db →
  get_embedding_model db = None ∨ get_embedding_model db = Some A →
  ∃ pins,
    insert_message_exchange A create_time now db chat_model exchange
      embedding
    = Ok (Database (triggers db) pins
            (messages db
             ++ [Message now chat_model (Json.dumps_exchange exchange)
                   (Json.dumps_embedding embedding)]))
    ∧ get_embedding_model (Database (triggers db) pins (messages db))
      = Some A.
Proof.
  intros Ho [Hg|Hg].
  - assert (He : embedding_model db = []).
    { unfold get_embedding_model in Hg. by destruct (embedding_model db). }
    exists [Pin create_time A]. split; [|done].
    exact (insert_unpinned A db
             (Runs.InsertCall create_time now chat_model exchange
                embedding) Ho He).
  - exists (embedding_model db). split; [|exact Hg].
    exact (insert_pinned A db
             (Runs.InsertCall create_time now chat_model exchange
                embedding) Ho Hg).
Qed.

(** X18.  An exchange added to the history of a full-history context comes
    back at the end of the loaded history: on a store that is new, or
    pinned to the context model, [add_to_history] returns, writes to no
    ledger, and [load_history] then gives the history of before followed by
    the messages of the exchange (for messages of the basic plane). *)
Theorem add_to_history_then_load self clock create_time now fs msg_list h :
  Runs.opened (database fs) →
  get_embedding_model (database fs) = None
  ∨ get_embedding_model (database fs) = Some (context_model self) →
  load_history (database fs) = Some h →
  Forall basic_msg msg_list →
  ∃ fs',
    add_to_history Embedding_create FullHistoryChatContext self clock
      create_time now fs msg_list = Returns () fs'
    ∧ general_token_usage_db fs' = general_token_usage_db fs
    ∧ token_usage_db fs' = token_usage_db fs
    ∧ get_embedding_model (database fs') = Some (context_model self)
    ∧ load_history (database fs') = Some (h ++ msg_list).
Proof.
  intros Ho Hg Hh Hb. unfold add_to_history, request_embedding.
  destruct (insert_message_exchange_opened (context_model self) create_time
              now (database fs) (model self) msg_list None Ho Hg)
    as (pins & -> & Hpin).
  eexists. split; [reflexivity|]. cbn [general_token_usage_db token_usage_db
    database]. split; [done|]. split; [done|]. split; [exact Hpin|].
  pose proof (load_history_insert
                (Database (triggers (database fs)) pins
                   (messages (database fs)))
                (Message now (model self)
                   (Json.dumps_exchange msg_list)
                   (Json.dumps_embedding None)) h msg_list) as Hl.
  cbn [triggers embedding_model messages] in Hl. apply Hl.
  - unfold load_history, get_messages_dataframe in *. exact Hh.
  - cbn [message_exchange]. by apply literal_eval_dumps.
Qed.

Lemma line_of_None (msg : Py.msg) :
  lit "role" ∉ msg.*1 ∨ lit "content" ∉ msg.*1 → line_of msg = None.
Proof.
  unfold line_of. intros [H|H]; apply dict_get_None in H; rewrite H; [done|].
  by destruct (dict_get msg (lit "role")).
Qed.

(** X19.  The embedding-based context needs the keys [role] and [content]
    in every message it embeds, and the key [content] in the message it
    selects for: without them the call raises KeyError, whatever the
    provider would answer, and no file is touched.  The full-history
    context stores the same exchange without looking into it. *)
Theorem embedding_context_needs_keys self clock create_time now fs :
  (∀ msg_list msg,
     msg ∈ msg_list →
     lit "role" ∉ msg.*1 ∨ lit "content" ∉ msg.*1 →
     add_to_history Embedding_create EmbeddingBasedChatContext self clock
       create_time now fs msg_list = Raises KeyError fs)
  ∧ (∀ Score (similarity : pystr → list Z → option Score) score_leb msg,
       lit "content" ∉ msg.*1 →
       get_context Embedding_create similarity score_leb
         EmbeddingBasedChatContext self clock fs msg = Raises KeyError fs)
  ∧ (∀ msg_list,
       Runs.opened (database fs) →
       get_embedding_model (database fs) = None
       ∨ get_embedding_model (database fs) = Some (context_model self) →
       ∃ fs', add_to_history Embedding_create FullHistoryChatContext self
                clock create_time now fs msg_list = Returns () fs'
              ∧ length (messages (database fs'))
                = S (length (messages (database fs)))).
Proof.
  split; [|split].
  - intros msg_list msg Hin Hbad. unfold add_to_history, request_embedding.
    assert (Hn : mapM line_of msg_list = None).
    { apply mapM_None, Exists_exists. exists msg.
      split; [done|by apply line_of_None]. }
    by rewrite Hn.
  - intros Score similarity score_leb msg Hbad.
    unfold get_context, select_relevant_history.
    apply dict_get_None in Hbad. by rewrite Hbad.
  - intros msg_list Ho Hg. unfold add_to_history, request_embedding.
    destruct (insert_message_exchange_opened (context_model self) create_time
                now (database fs) (model self) msg_list None Ho Hg)
      as (pins & -> & Hpin).
    eexists. split; [reflexivity|]. cbn [database messages].
    rewrite length_app. simpl. lia.
Qed.

Lemma lstrip_split s :
  ∃ l, s = l ++ lstrip s ∧ Forall (λ c, isspace c = true) l.
Proof.
  induction s as [|c s (l & Hs & Hl)]; [by exists []|]. simpl.
  destruct (isspace c) eqn:E.
  - exists (c :: l). split; [by rewrite Hs at 1|by constructor].
  - by exists [].
Qed.

Lemma lstrip_head s c : lstrip s !! 0 = Some c → isspace c = false.
Proof.
  induction s as [|c' s IH]; [done|]. simpl.
  destruct (isspace c') eqn:E; [done|]. by intros [= <-].
Qed.

Lemma lstrip_id s :
  (∀ c, s !! 0 = Some c → isspace c = false) → lstrip s = s.
Proof.
  destruct s as [|c s]; [done|]. intros H. simpl.
  by rewrite (H c eq_refl).
Qed.

(** X20.  [strip] takes the whitespace off both ends and nothing else:
    the text is whitespace, then the stripped text, then whitespace, and
    the stripped text neither starts nor ends with a whitespace character.
    So the text that [request_embedding_from_openai] sends to the provider
    has no whitespace at its ends, and a text that has none is sent as it
    is. *)
Theorem strip_ends s :
  (∃ l r, s = l ++ strip s ++ r
          ∧ Forall (λ c, isspace c = true) l
          ∧ Forall (λ c, isspace c = true) r)
  ∧ (∀ c, strip s !! 0 = Some c → isspace c = false)
  ∧ (∀ c, last (strip s) = Some c → isspace c = false)
  ∧ strip (strip s) = strip s
  ∧ ∀ model,
      request_embedding_ (request_embedding_from_openai Embedding_create
                            s model)
      = data_0_embedding (Embedding_create (strip s) model).
Proof.
  destruct (lstrip_split s) as (l & Hl & Hls).
  destruct (lstrip_split (reverse (lstrip s))) as (r & Hr & Hrs).
  assert (Hdec : lstrip s = strip s ++ reverse r).
  { unfold strip, rstrip. rewrite <- reverse_app, <- Hr.
    by rewrite reverse_involutive. }
  assert (Hlast : ∀ c, last (strip s) = Some c → isspace c = false).
  { intros c. unfold strip, rstrip. rewrite last_reverse.
    rewrite head_lookup. apply lstrip_head. }
  assert (Hhead : ∀ c, strip s !! 0 = Some c → isspace c = false).
  { intros c Hc. apply (lstrip_head s).
    rewrite Hdec. by apply lookup_app_l_Some. }
  split; [|split; [done|split; [done|split; [|done]]]].
  - exists l, (reverse r). split; [by rewrite <- Hdec|].
    split; [done|]. by apply Forall_reverse.
  - unfold strip at 1. rewrite (lstrip_id (strip s)) by done.
    unfold rstrip. rewrite lstrip_id; [by rewrite reverse_involutive|].
    intros c Hc. apply Hlast. rewrite <- head_reverse, head_lookup.
    exact Hc.
Qed.

End ChatCallsFacts.

Section ContextEdges.
Import Json.

(** X21.  A store written by the full-history context cannot serve the
    embedding-based one: the full-history context stores [null] for the
    embedding, [ast.literal_eval] does not read [null], and the selector
    raises as soon as the history holds one such row. *)
Theorem null_embedding_not_selectable db r embedding :
  r ∈ messages db →
  EmbeddingsDatabase.embedding r = dumps_embedding None →
  Ast.literal_eval_vector (EmbeddingsDatabase.embedding r) = None
  ∧ select_relevant_history Exact.similarity Exact.score_leb
      EmbeddingBasedChatContext db embedding = None.
Proof.
  intros Hr He.
  assert (Hn : Ast.literal_eval_vector (EmbeddingsDatabase.embedding r)
               = None) by (by rewrite He).
  split; [done|].
  unfold select_relevant_history, _select_relevant_history.
  assert (Ha : add_similarity Exact.similarity (get_messages_dataframe db)
                 embedding = None).
  { apply mapM_None, Exists_exists.
    apply list_elem_of_lookup_1 in Hr as [i Hi].
    exists (Pos i, r). split.
    - apply list_elem_of_lookup_2 with i. by apply read_sql_query_lookup.
    - unfold Exact.similarity. simpl. by rewrite Hn. }
  by rewrite Ha.
Qed.

(** X22.  With nothing stored both kinds of context give an empty
    history, and the context of a message is the directive alone. *)
Theorem context_of_empty_history {Query Score}
    (similarity : pystr → Query → option Score) score_leb self db
    embedding system_name :
  messages db = [] →
  select_relevant_history similarity score_leb self db embedding = Some []
  ∧ get_context similarity score_leb self db embedding system_name
    = Some [ [ (lit "role", lit "system");
               (lit "name", system_name);
               (lit "content", sys_directives) ] ].
Proof.
  intros Hm.
  assert (H : select_relevant_history similarity score_leb self db embedding
              = Some []).
  { destruct self; simpl.
    - unfold load_history, get_messages_dataframe. by rewrite Hm.
    - unfold get_messages_dataframe. by rewrite Hm. }
  split; [done|]. unfold get_context. by rewrite H.
Qed.

End ContextEdges.

Section ChatTurn.
Import Str ChatCalls.
Context (Embedding_create : pystr → pystr → answer).

(** X23.  An exchange added to the history of an embedding-based context,
    under a context model of the rate table and with the keys [role] and
    [content] in every message: the provider is asked for the embedding of
    the lines [role: content], joined by newlines; the usage goes to both
    ledgers; and the store gets one row, stamped with the clock reading
    and written under the chat model, whose exchange reads back as the
    exchange (for messages of the basic plane). *)
Theorem add_to_history_embedding self clock create_time now fs msg_list
    lines :
  context_model self ∈ Tokens.PRICE_PER_K_TOKENS.*1 →
  mapM line_of msg_list = Some lines →
  Runs.opened (database fs) →
  get_embedding_model (database fs) = None
  ∨ get_embedding_model (database fs) = Some (context_model self) →
  let a := Embedding_create (strip (join [10%N] lines))
             (context_model self) in
  ∃ p fs' r,
    dict_get Tokens.token_price (context_model self) = Some p
    ∧ add_to_history Embedding_create EmbeddingBasedChatContext self clock
        create_time now fs msg_list = Returns () fs'
    ∧ general_token_usage_db fs'
      = general_token_usage_db fs
        ++ usage_rows (clock 0) (clock 1) (context_model self) p a
    ∧ token_usage_db fs'
      = token_usage_db fs
        ++ usage_rows (clock 2) (clock 3) (context_model self) p a
    ∧ messages (database fs') = messages (database fs) ++ [r]
    ∧ get_embedding_model (database fs') = Some (context_model self)
    ∧ timestamp r = now
    ∧ chat_model r = model self
    ∧ (Forall basic_msg msg_list →
       Ast.literal_eval (message_exchange r) = Some msg_list).
Proof.
  intros Hm Hl Ho Hg a.
  destruct (request_embedding_for_text_known Embedding_create self clock
              fs (join [10%N] lines) Hm) as (p & Hp & Hreq).
  unfold add_to_history, request_embedding. rewrite Hl, Hreq.
  cbn [database general_token_usage_db token_usage_db].
  destruct (insert_message_exchange_opened (context_model self) create_time
              now (database fs) (model self) msg_list
              (Some (data_0_embedding a)) Ho Hg) as (pins & Hins & Hpin).
  fold a. rewrite Hins.
  eexists p, _, _. split; [done|]. split; [reflexivity|].
  cbn [database general_token_usage_db token_usage_db messages].
  split; [done|]. split; [done|]. split; [reflexivity|].
  split; [exact Hpin|]. split; [done|]. split; [done|].
  intros Hb. cbn [message_exchange]. by apply literal_eval_dumps.
Qed.

End ChatTurn.

Section SearchFacts.
Import Str InternetSearch.
Context (is_word : N → bool).
Context (lower : pystr → pystr).
Context (unidecode : pystr → pystr).

Lemma char_before_app (pre s : list N) :
  char_before (pre ++ s) (length pre) = last pre.
Proof.
  destruct pre as [|c pre] using rev_ind; [done|].
  rewrite length_app, Nat.add_1_r. cbn [char_before]. rewrite last_snoc.
  rewrite <- app_assoc. by rewrite lookup_app_r, Nat.sub_diag by done.
Qed.

Lemma last_sub_before (pre s sub : list N) :
  take (length sub) s = sub →
  char_before (pre ++ s) (length pre + length sub)
  = match last sub with
    | Some c => Some c
    | None => last pre
    end.
Proof.
  intros Hs. destruct sub as [|c sub] using rev_ind.
  - rewrite Nat.add_0_r. apply char_before_app.
  - rewrite last_snoc, length_app, Nat.add_1_r, Nat.add_succ_r.
    cbn [char_before]. rewrite lookup_app_r by lia.
    replace (length pre + length sub - length pre) with (length sub) by lia.
    rewrite length_app in Hs. simpl in Hs.
    assert (Hl : take (length sub + 1) s !! length sub = Some c).
    { rewrite Hs. by rewrite lookup_app_r, Nat.sub_diag by done. }
    rewrite lookup_take_lt in Hl by lia. done.
Qed.

(** The test the search makes at a position is the test of a whole
    word at that position. *)
Lemma matches_here_spec (pre s sub : list N) :
  matches_here is_word (last pre) s sub = true
  ↔ whole_word_at is_word (pre ++ s) sub (length pre).
Proof.
  unfold matches_here, whole_word_at.
  rewrite !andb_true_iff, bool_decide_eq_true.
  rewrite drop_app_length, char_before_app.
  rewrite !lookup_app_r by lia.
  replace (length pre - length pre) with 0 by lia.
  replace (length pre + length sub - length pre) with (length sub) by lia.
  split.
  - intros [[H1 H2] H3]. split; [rewrite length_app; lia|].
    split; [done|]. split; [done|]. by rewrite last_sub_before.
  - intros (_ & H2 & H1 & H3). rewrite last_sub_before in H3 by done. done.
Qed.

Lemma search_spec (s sub : list N) : ∀ (pre : list N) (i : Z),
  i = Z.of_nat (length pre) →
  (∀ j, j < length pre → ¬ whole_word_at is_word (pre ++ s) sub j) →
  (search is_word (last pre) s sub i = (-1)%Z
   ∧ ∀ j, ¬ whole_word_at is_word (pre ++ s) sub j)
  ∨ ∃ k, search is_word (last pre) s sub i = Z.of_nat k
         ∧ whole_word_at is_word (pre ++ s) sub k
         ∧ ∀ j, j < k → ¬ whole_word_at is_word (pre ++ s) sub j.
Proof.
  induction s as [|c s IH]; intros pre i Hi Hpre.
  - cbn [search].
    destruct (matches_here is_word (last pre) [] sub) eqn:E.
    + right. exists (length pre). apply matches_here_spec in E. by subst i.
    + left. split; [done|]. intros j Hj.
      destruct (decide (j < length pre)) as [Hlt|Hge]; [by apply (Hpre j)|].
      assert (j = length pre) as ->.
      { destruct Hj as [Hj _]. rewrite length_app in Hj. simpl in Hj. lia. }
      apply matches_here_spec in Hj. congruence.
  - cbn [search].
    destruct (matches_here is_word (last pre) (c :: s) sub) eqn:E.
    + right. exists (length pre). apply matches_here_spec in E. by subst i.
    + assert (Hnot : ¬ whole_word_at is_word (pre ++ c :: s) sub (length pre)).
      { intros H. apply matches_here_spec in H. congruence. }
      specialize (IH (pre ++ [c]) (i + 1)%Z).
      rewrite last_snoc, <- app_assoc in IH. simpl in IH. apply IH.
      * rewrite length_app. simpl. lia.
      * intros j Hj. rewrite length_app in Hj. simpl in Hj.
        destruct (decide (j < length pre)) as [Hlt|Hge]; [by apply Hpre|].
        by replace j with (length pre) by lia.
Qed.

(** X25.  [find_whole_word_index] returns the first position at which the
    substring stands as a whole word, with a word boundary on either side
    of it, and -1 when there is no such position.  A position it returns is
    a position of the string. *)
Theorem find_whole_word_index_first (my_string my_substring : pystr) :
  (find_whole_word_index is_word my_string my_substring = (-1)%Z
   ∧ ∀ j, ¬ whole_word_at is_word my_string my_substring j)
  ∨ ∃ k, find_whole_word_index is_word my_string my_substring = Z.of_nat k
         ∧ k ≤ length my_string
         ∧ take (length my_substring) (drop k my_string) = my_substring
         ∧ whole_word_at is_word my_string my_substring k
         ∧ ∀ j, j < k → ¬ whole_word_at is_word my_string my_substring j.
Proof.
  destruct (search_spec my_string my_substring [] 0%Z eq_refl)
    as [H|(k & Hk & Hw & Hmin)].
  - intros j Hj. simpl in Hj. lia.
  - by left.
  - right. exists k. split; [done|]. pose proof Hw as (H1 & H2 & _). done.
Qed.

Lemma split_from_words (s : pystr) : ∀ cur,
  Forall (λ c, isspace c = false) cur →
  Forall (λ w : pystr, w ≠ [] ∧ Forall (λ c, isspace c = false) w)
    (split_from cur s).
Proof.
  induction s as [|c s IH]; intros cur Hcur; cbn [split_from].
  - destruct cur as [|c' cur]; [constructor|].
    constructor; [|constructor]. split.
    + intros H%(f_equal length). rewrite length_reverse in H. done.
    + by apply Forall_reverse.
  - destruct (isspace c) eqn:E.
    + destruct cur as [|c' cur]; [by apply IH|].
      constructor; [|by apply IH]. split.
      * intros H%(f_equal length). rewrite length_reverse in H. done.
      * by apply Forall_reverse.
    + apply IH. by constructor.
Qed.



Section Results.
Context {Relevance : Type} (relevance_leb : Relevance → Relevance → bool).
Context (total : ∀ x y, relevance_leb x y = true ∨ relevance_leb y x = true).
Context (trans : ∀ x y z, relevance_leb x y = true →
                          relevance_leb y z = true →
                          relevance_leb x z = true).
Implicit Types (r : @raw_result Relevance).

Lemma yield_from_shape query (rs : list (@raw_result Relevance)) :
  (yield_from is_word lower unidecode query rs = []
   ∧ Forall (λ r, length (selected_words is_word lower unidecode query r)
                  < 40) rs)
  ∨ ∃ skipped r rest,
      rs = skipped ++ r :: rest
      ∧ Forall (λ r, length (selected_words is_word lower unidecode query r)
                     < 40) skipped
      ∧ 40 ≤ length (selected_words is_word lower unidecode query r)
      ∧ yield_from is_word lower unidecode query rs
        = Result (href r) (summary r)
            (Some (join [32%N]
                     (selected_words is_word lower unidecode query r)))
            (relevance r)
          :: (summary_only <$> rest).
Proof.
  induction rs as [|r rs IH]; [left; by split|]. cbn [yield_from].
  destruct (length (selected_words is_word lower unidecode query r) <? 40)
    eqn:E.
  - apply Nat.ltb_lt in E.
    destruct IH as [[Hy HF]|(skipped & r' & rest & -> & HF & Hr' & Hy)].
    + left. split; [done|by constructor].
    + right. exists (r :: skipped), r', rest.
      split; [done|]. split; [by constructor|done].
  - apply Nat.ltb_ge in E. right. exists [], r, rs.
    split; [done|]. split; [constructor|done].
Qed.

Lemma selected_words_cut query r :
  ∃ k, selected_words is_word lower unidecode query r
       = take 500 (split (drop k (detailed r))).
Proof.
  unfold selected_words.
  destruct (index_first_query_word_to_appear _ _ _ _ _) as [i|];
    [|by exists 0].
  destruct (-1 <? i)%Z; [by exists (Z.to_nat i)|by exists 0].
Qed.


(** X28.  The text [websearch] gives with its first result is made of
    the first words of the page of that result, or of the page from some
    position on: from 40 to 500 of them, with one blank between two words;
    no word is empty or holds whitespace.  Every result after the first
    has no text, and no more results come out than went in. *)
Theorem websearch_detailed query (raw_results : list (@raw_result Relevance)) :
  let out := websearch is_word lower unidecode relevance_leb query
               raw_results in
  length out ≤ length raw_results
  ∧ Forall (λ x, result_detailed x = None) (drop 1 out)
  ∧ ∀ x, out !! 0 = Some x →
      ∃ r k words,
        r ∈ raw_results
        ∧ result_href x = href r
        ∧ words = take 500 (split (drop k (detailed r)))
        ∧ result_detailed x = Some (join [32%N] words)
        ∧ 40 ≤ length words ≤ 500
        ∧ Forall (λ w : pystr, w ≠ [] ∧ Forall (λ c, isspace c = false) w)
            words.
Proof.
  simpl. unfold websearch.
  pose proof (stable_sort_perm
                (λ a b : @raw_result Relevance,
                   relevance_leb (relevance b) (relevance a))
                raw_results) as Hp.
  apply Permutation_length in Hp. fold (sorted relevance_leb raw_results) in Hp.
  destruct (yield_from_shape query (sorted relevance_leb raw_results))
    as [[Hy HF]|(skipped & r & rest & Hs & HF & Hr & Hy)]; rewrite Hy.
  - split; [simpl; lia|]. split; [constructor|]. done.
  - split.
    { rewrite <- Hp, Hs, length_app. simpl. rewrite length_fmap. lia. }
    split.
    { simpl. rewrite drop_0. apply Forall_fmap, Forall_forall. done. }
    intros x [= <-].
    destruct (selected_words_cut query r) as [k Hk].
    exists r, k, (selected_words is_word lower unidecode query r).
    split.
    { rewrite <- (stable_sort_perm
                    (λ a b : @raw_result Relevance,
                       relevance_leb (relevance b) (relevance a))
                    raw_results).
      fold (sorted relevance_leb raw_results). rewrite Hs.
      apply elem_of_app. right. by left. }
    split; [done|]. split; [done|]. split; [done|]. split.
    + split; [done|]. rewrite Hk, length_take. lia.
    + rewrite Hk. apply Forall_take. unfold split.
      apply split_from_words. constructor.
Qed.
End Results.

End SearchFacts.

Section SearchRuns.
Import Str InternetSearch.


Example websearch_example :
  websearch ascii_is_word ascii_lower id Z.leb (lit "rocq prover")
    [Examples.long_page; Examples.short_page]
  = [ Result (lit "https://b.example") (lit "more about rocq")
        (Some (lit "Prover" ++ mjoin (replicate 44 (lit " text Prover"))
               ++ lit " text"))
        5%Z ].
Proof. vm_compute. reflexivity. Qed.

Example find_whole_word_index_examples :
  find_whole_word_index ascii_is_word (lit "concatenate a cat") (lit "cat")
  = 14%Z
  ∧ find_whole_word_index ascii_is_word (lit "concatenate") (lit "cat")
    = (-1)%Z
  ∧ find_whole_word_index ascii_is_word (lit "a+b") (lit "+") = 1%Z
  ∧ find_whole_word_index ascii_is_word (lit "the cat") (lit "") = 0%Z.
Proof. repeat split; vm_compute; reflexivity. Qed.
End SearchRuns.

(** * The properties above, on concrete inputs *)

Section Witnesses.
Import Tokens.


Lemma get_n_tokens_from_msgs_bound_witness :
  Forall (λ m : msg, NoDup m.*1) Examples.hello
  ∧ TokenCount.get_n_tokens_from_msgs Examples.no_model ()
      Examples.per_character Examples.hello (lit "gpt-4") = Some 17%Z
  ∧ (2 + 3 * Z.of_nat (length Examples.hello) ≤ 17)%Z.
Proof.
  assert (H1 : Forall (λ m : msg, NoDup m.*1) Examples.hello).
  { repeat constructor; decided. }
  assert (H2 : TokenCount.get_n_tokens_from_msgs Examples.no_model ()
                 Examples.per_character Examples.hello (lit "gpt-4")
               = Some 17%Z) by reflexivity.
  split; [exact H1|]. split; [exact H2|].
  exact (get_n_tokens_from_msgs_bound Examples.no_model ()
           Examples.per_character Examples.hello (lit "gpt-4") 17 H1 H2).
Defined.

Lemma gpt_buddy_bot_ledger_last_per_clock_witness :
  Forall (λ c, GptBuddyBotRuns.rc_model c ∈ PRICE_PER_K_TOKENS.*1)
    Examples.same_clock
  ∧ ∃ db, GptBuddyBotRuns.record_all [] Examples.same_clock = Ok db
          ∧ GptBuddyBot.n_input_tokens <$> db = [10%Z; 7%Z]
          ∧ NoDup (GptBuddyBot.timestamp <$> db).
Proof.
  assert (H : Forall (λ c, GptBuddyBotRuns.rc_model c
                           ∈ PRICE_PER_K_TOKENS.*1) Examples.same_clock).
  { repeat constructor; decided. }
  split; [exact H|].
  destruct (gpt_buddy_bot_ledger_last_per_clock Examples.same_clock H)
    as (db & Hdb & Heq & Hnd & _).
  exists db. split; [exact Hdb|]. split; [|exact Hnd].
  rewrite Heq. vm_compute. reflexivity.
Defined.

Lemma current_chat_usage_raises_witness :
  ((Some (lit "gpt-5"), [(lit "input", 100%Z); (lit "output", 50%Z)])
     ∈ Examples.chat_usage_unpriced)
  ∧ (lit "gpt-5" ∉ PRICE_PER_K_TOKENS.*1)
  ∧ GptBuddyBotReport.get_current_chat_usage_dataframe
      Examples.chat_usage_unpriced = Raising.Throw KeyError.
Proof.
  assert (H1 : (Some (lit "gpt-5"),
                [(lit "input", 100%Z); (lit "output", 50%Z)])
               ∈ Examples.chat_usage_unpriced) by (by left).
  assert (H2 : lit "gpt-5" ∉ PRICE_PER_K_TOKENS.*1) by decided.
  split; [exact H1|]. split; [exact H2|].
  exact (current_chat_usage_raises Examples.chat_usage_unpriced
           (lit "gpt-5") _ H1 (or_introl H2)).
Defined.


End Witnesses.

Section StoreWitnesses.

Lemma pin_is_first_model_witness :
  Forall (λ a, Sessions.class_call a = true) Examples.mixed_session
  ∧ get_embedding_model (Runs.run new_store Examples.mixed_session)
    = Some Scenario.ada
  ∧ length (messages (Runs.run new_store Examples.mixed_session)) = 2.
Proof.
  assert (H : Forall (λ a, Sessions.class_call a = true)
                Examples.mixed_session).
  { repeat constructor. }
  split; [exact H|].
  pose proof (pin_is_first_model Examples.mixed_session H) as (_ & Hg & Hm).
  split; [exact Hg|]. rewrite Hm. reflexivity.
Defined.

Lemma selected_from_history_witness :
  let history_df :=
    get_messages_dataframe (Scenario.store_of Scenario.oldest_least_similar) in
  let m := [(lit "role", lit "user"); (lit "content", lit "q5")] in
  ∃ out,
    _select_relevant_history Exact.similarity Exact.score_leb history_df
      Scenario.query 5 2 = Some out
    ∧ m ∈ out
    ∧ ∃ r e, r ∈ history_df
             ∧ Ast.literal_eval (message_exchange r.2) = Some e
             ∧ m ∈ e.
Proof.
  intros history_df m.
  assert (H : ∃ out,
            _select_relevant_history Exact.similarity Exact.score_leb
              history_df Scenario.query 5 2 = Some out ∧ m ∈ out).
  { eexists. split; [evaluated|decided]. }
  destruct H as (out & Hout & Hm). exists out.
  split; [exact Hout|]. split; [exact Hm|].
  exact (selected_from_history Exact.similarity Exact.score_leb history_df
           Scenario.query 5 2 out m Hout Hm).
Defined.

Lemma selected_at_most_witness :
  let history_df :=
    get_messages_dataframe (Scenario.store_of Scenario.oldest_least_similar) in
  ∃ df s,
    add_similarity Exact.similarity history_df Scenario.query = Some df
    ∧ selected_series Exact.score_leb df 2 1 = Some s
    ∧ (Z.of_nat (length s) ≤ 2 + 1)%Z.
Proof.
  intros history_df.
  assert (H : ∃ df s,
            add_similarity Exact.similarity history_df Scenario.query
            = Some df
            ∧ selected_series Exact.score_leb df 2 1 = Some s).
  { eexists _, _. split; evaluated. }
  destruct H as (df & s & Hdf & Hs). exists df, s.
  split; [exact Hdf|]. split; [exact Hs|].
  refine (proj2 (selected_at_most Exact.similarity Exact.score_leb history_df
                   Scenario.query 2 1 df s _ _ Hdf Hs)); lia.
Defined.

Lemma last_exchanges_selected_witness :
  let history_df :=
    get_messages_dataframe (Scenario.store_of Scenario.oldest_least_similar) in
  let m := [(lit "role", lit "assistant"); (lit "content", lit "a4")] in
  ∃ out r,
    _select_relevant_history Exact.similarity Exact.score_leb history_df
      Scenario.query 1 2 = Some out
    ∧ r ∈ tail 2 history_df
    ∧ Ast.literal_eval (message_exchange r.2)
      = Some (Scenario.turn "q4" "a4")
    ∧ msg_key m ∈ msg_key <$> out.
Proof.
  intros history_df m.
  assert (H : ∃ out r,
            _select_relevant_history Exact.similarity Exact.score_leb
              history_df Scenario.query 1 2 = Some out
            ∧ r ∈ tail 2 history_df
            ∧ Ast.literal_eval (message_exchange r.2)
              = Some (Scenario.turn "q4" "a4")).
  { eexists _, _. split; [evaluated|]. split.
    - apply list_elem_of_lookup_2 with 0. vm_compute. reflexivity.
    - evaluated. }
  destruct H as (out & r & Hout & Hr & He). exists out, r.
  split; [exact Hout|]. split; [exact Hr|]. split; [exact He|].
  refine (last_exchanges_selected Exact.similarity Exact.score_leb history_df
            Scenario.query 1 2 out r _ m Hout Hr He _).
  right. by left.
Defined.

Lemma selected_is_full_history_witness :
  let db := Scenario.store_of (take 3 Scenario.oldest_least_similar) in
  ∃ df all,
    add_similarity Exact.similarity (get_messages_dataframe db)
      Scenario.query = Some df
    ∧ parsed df = Some all
    ∧ (Z.of_nat (length (messages db)) ≤ 5)%Z
    ∧ StronglySorted Z.lt (timestamp <$> messages db)
    ∧ NoDup (exchange_key <$> all.*2)
    ∧ _select_relevant_history Exact.similarity Exact.score_leb
        (get_messages_dataframe db) Scenario.query 5 2
      = Some (concat all.*2)
    ∧ load_history db = Some (concat all.*2).
Proof.
  intros db.
  assert (H : ∃ df all,
            add_similarity Exact.similarity (get_messages_dataframe db)
              Scenario.query = Some df
            ∧ parsed df = Some all
            ∧ (Z.of_nat (length (messages db)) ≤ 5)%Z
            ∧ StronglySorted Z.lt (timestamp <$> messages db)
            ∧ NoDup (exchange_key <$> all.*2)).
  { eexists _, _. split; [evaluated|]. split; [evaluated|].
    split; [vm_compute; discriminate|]. split; decided. }
  destruct H as (df & all & Hdf & Hall & Hlen & Hts & Hnd).
  exists df, all. split; [exact Hdf|]. split; [exact Hall|].
  split; [exact Hlen|]. split; [exact Hts|]. split; [exact Hnd|].
  exact (selected_is_full_history Exact.similarity Exact.score_leb db
           Scenario.query 5 2 df all Hdf Hall Hlen Hts Hnd).
Defined.

Lemma null_embedding_not_selectable_witness :
  ∃ r, r ∈ messages Examples.full_history_store
       ∧ EmbeddingsDatabase.embedding r = Json.dumps_embedding None
       ∧ select_relevant_history Exact.similarity Exact.score_leb
           EmbeddingBasedChatContext Examples.full_history_store
           Scenario.query = None.
Proof.
  assert (H : ∃ r, r ∈ messages Examples.full_history_store
                   ∧ EmbeddingsDatabase.embedding r
                     = Json.dumps_embedding None).
  { eexists. split; [by left|reflexivity]. }
  destruct H as (r & Hr & He). exists r.
  split; [exact Hr|]. split; [exact He|].
  exact (proj2 (null_embedding_not_selectable Examples.full_history_store r
                  Scenario.query Hr He)).
Defined.

Lemma context_of_empty_history_witness :
  messages new_store = []
  ∧ get_context Exact.similarity Exact.score_leb EmbeddingBasedChatContext
      new_store Scenario.query (lit "Rob")
    = Some [ [ (lit "role", lit "system");
               (lit "name", lit "Rob");
               (lit "content", sys_directives) ] ].
Proof.
  assert (H : messages new_store = []) by reflexivity.
  split; [exact H|].
  exact (proj2 (context_of_empty_history Exact.similarity Exact.score_leb
                  EmbeddingBasedChatContext new_store Scenario.query
                  (lit "Rob") H)).
Defined.
End StoreWitnesses.

Section ChatWitnesses.
Import Str ChatCalls.

Lemma request_embedding_for_text_records_witness :
  context_model Examples.rob ∈ Tokens.PRICE_PER_K_TOKENS.*1
  ∧ ∃ fs',
      request_embedding_for_text Examples.provider Examples.rob
        Examples.clock Examples.new_files (lit " hello ")
      = Returns [3; 4]%Z fs'
      ∧ Tokens.n_input_tokens <$> general_token_usage_db fs' = [7; 0]%Z
      ∧ Tokens.n_input_tokens <$> token_usage_db fs' = [7; 0]%Z
      ∧ database fs' = new_store.
Proof.
  assert (H : context_model Examples.rob ∈ Tokens.PRICE_PER_K_TOKENS.*1).
  { decided. }
  split; [exact H|].
  destruct (request_embedding_for_text_records Examples.provider
              Examples.rob Examples.clock Examples.new_files
              (lit " hello ") H)
    as (p & fs' & Hp & Hreq & Hg & Hc & Hd & _).
  exists fs'. split; [exact Hreq|].
  rewrite Hg, Hc, Hd. split; [reflexivity|]. split; reflexivity.
Defined.

Lemma request_embedding_unknown_model_witness :
  (context_model Examples.unpriced ∉ Tokens.PRICE_PER_K_TOKENS.*1)
  ∧ request_embedding_for_text Examples.provider Examples.unpriced
      Examples.clock Examples.new_files (lit "hello")
    = Raises KeyError Examples.new_files.
Proof.
  assert (H : context_model Examples.unpriced
              ∉ Tokens.PRICE_PER_K_TOKENS.*1) by decided.
  split; [exact H|].
  exact (proj1 (request_embedding_unknown_model Examples.provider
                  Examples.unpriced Examples.clock Examples.new_files
                  (lit "hello") 10 10 [] H)).
Defined.

Lemma add_to_history_then_load_witness :
  Runs.opened (database Examples.new_files)
  ∧ get_embedding_model (database Examples.new_files) = None
  ∧ load_history (database Examples.new_files) = Some []
  ∧ Forall basic_msg (Scenario.turn "hello" "hi")
  ∧ ∃ fs',
      add_to_history Examples.provider FullHistoryChatContext Examples.full
        Examples.clock 10 10 Examples.new_files (Scenario.turn "hello" "hi")
      = Returns () fs'
      ∧ load_history (database fs') = Some (Scenario.turn "hello" "hi").
Proof.
  assert (H1 : Runs.opened (database Examples.new_files)) by reflexivity.
  assert (H2 : get_embedding_model (database Examples.new_files) = None)
    by reflexivity.
  assert (H3 : load_history (database Examples.new_files) = Some [])
    by reflexivity.
  assert (H4 : Forall basic_msg (Scenario.turn "hello" "hi")).
  { repeat constructor; try decided; vm_compute; reflexivity. }
  split; [exact H1|]. split; [exact H2|]. split; [exact H3|].
  split; [exact H4|].
  destruct (add_to_history_then_load Examples.provider Examples.full
              Examples.clock 10 10 Examples.new_files
              (Scenario.turn "hello" "hi") [] H1 (or_introl H2) H3 H4)
    as (fs' & Hadd & _ & _ & _ & Hl).
  exists fs'. split; [exact Hadd|exact Hl].
Defined.

Lemma add_to_history_embedding_witness :
  context_model Examples.rob ∈ Tokens.PRICE_PER_K_TOKENS.*1
  ∧ mapM line_of (Scenario.turn " hello" "hi ")
    = Some [lit "user: hello"; lit "assistant: hi"]
  ∧ ∃ fs' r,
      add_to_history Examples.provider EmbeddingBasedChatContext Examples.rob
        Examples.clock 10 10 Examples.new_files (Scenario.turn " hello" "hi ")
      = Returns () fs'
      ∧ messages (database fs') = [r]
      ∧ chat_model r = Scenario.gpt4.
Proof.
  assert (H1 : context_model Examples.rob ∈ Tokens.PRICE_PER_K_TOKENS.*1).
  { decided. }
  assert (H2 : mapM line_of (Scenario.turn " hello" "hi ")
               = Some [lit "user: hello"; lit "assistant: hi"])
    by (vm_compute; reflexivity).
  assert (H3 : Runs.opened (database Examples.new_files)) by reflexivity.
  assert (H4 : get_embedding_model (database Examples.new_files) = None)
    by reflexivity.
  split; [exact H1|]. split; [exact H2|].
  destruct (add_to_history_embedding Examples.provider Examples.rob
              Examples.clock 10 10 Examples.new_files
              (Scenario.turn " hello" "hi ") _ H1 H2 H3 (or_introl H4))
    as (p & fs' & r & _ & Hadd & _ & _ & Hm & _ & _ & Hc & _).
  exists fs', r. split; [exact Hadd|]. split; [exact Hm|exact Hc].
Defined.
End ChatWitnesses.
